(** * Xynae: provider fallback, store guards, mention dedup and the scheduler

    A shallow embedding of the Python sources [llm_providers.py],
    [database.py] and [xynae.py].  Python objects become records, [dict]s
    that are iterated become association lists in insertion order,
    exceptions become the [Raised] case of [outcome], and everything the
    program asks of the outside (LLM back ends, the platform client, the
    clock, the random generator, the hash order of a [set]) is read from an
    explicit environment, with the effects the program causes appended to an
    explicit [World]. *)

From Stdlib Require Import ZArith NArith QArith Lia List String Ascii Permutation
  Sorted.
From stdpp Require Import base tactics option list strings pretty.
Import ListNotations.

Close Scope Q_scope.

(** ** Python values *)

(** A Python [str] is a sequence of Unicode code points: [len] is [length],
    [s[:n]] is [take n s], [+] is [++]. *)
Definition pystr := list N.

(** The code points of a string literal of this file (which is UTF-8). *)
Fixpoint utf8_decode (bs : list N) (need : nat) (acc : N) : pystr :=
  match bs with
  | [] => []
  | b :: bs' =>
      match need with
      | O =>
          if (b <? 128)%N then b :: utf8_decode bs' 0 0%N
          else if (b <? 224)%N then utf8_decode bs' 1 (b - 192)%N
          else if (b <? 240)%N then utf8_decode bs' 2 (b - 224)%N
          else utf8_decode bs' 3 (b - 240)%N
      | S k =>
          let acc' := (acc * 64 + (b - 128))%N in
          match k with
          | O => acc' :: utf8_decode bs' 0 0%N
          | S _ => utf8_decode bs' k acc'
          end
      end
  end.

Definition u (s : string) : pystr :=
  utf8_decode (map N_of_ascii (list_ascii_of_string s)) 0 0%N.
Arguments u s%_string.

(** A literal of ASCII characters only. *)
Definition plain (s : string) : Prop :=
  Forall (fun c => (N_of_ascii c < 128)%N) (list_ascii_of_string s).

(** [str(n)] for an [int]. *)
Definition py_str (z : Z) : pystr := u (pretty z).

(** [s[-n:]]: the last [n] items ([n > 0]). *)
Definition py_last {A} (n : nat) (l : list A) : list A :=
  drop (length l - n) l.

(** [sep.join(parts)]. *)
Fixpoint py_join (sep : pystr) (parts : list pystr) : pystr :=
  match parts with
  | [] => []
  | [p] => p
  | p :: rest => p ++ sep ++ py_join sep rest
  end.

(** [f"{n:,}"]: decimal digits grouped by three. *)
Fixpoint group_thousands (rev_digits : pystr) : pystr :=
  match rev_digits with
  | a :: b :: c :: (_ :: _) as rest => a :: b :: c :: 44%N :: group_thousands rest
  | _ => rev_digits
  end.

Definition py_format_thousands (z : Z) : pystr :=
  (if (z <? 0)%Z then u "-" else []) ++
  rev (group_thousands (rev (u (pretty (Z.abs_N z))))).

(** [d[k] = v] on a [dict] kept in insertion order. *)
Fixpoint dict_set {V} (d : list (pystr * V)) (k : pystr) (v : V) : list (pystr * V) :=
  match d with
  | [] => [(k, v)]
  | (k', v') :: d' =>
      if decide (k' = k) then (k, v) :: d' else (k', v') :: dict_set d' k v
  end.

Fixpoint dict_get {V} (d : list (pystr * V)) (k : pystr) : option V :=
  match d with
  | [] => None
  | (k', v) :: d' => if decide (k' = k) then Some v else dict_get d' k
  end.

(** An argument that defaults to [None]; [if name:] also takes the empty
    string as absent. *)
Definition truthy (o : option pystr) : option pystr :=
  match o with
  | Some [] => None
  | _ => o
  end.

(** [repr] of a list of plain strings, as an f-string prints it. *)
Definition py_repr_keys (ks : list pystr) : pystr :=
  u "[" ++ py_join (u ", ") (map (fun k => u "'" ++ k ++ u "'") ks) ++ u "]".

(** Exceptions: the class and [str(e)]. *)
Inductive exn_class :=
  | ValueError | ImportError | AttributeError | TweepyException | PyException.

Record exn := mk_exn { exn_cls : exn_class; exn_msg : pystr }.

Inductive outcome (A : Type) :=
  | Returned (a : A)
  | Raised (e : exn).
Arguments Returned {A} a.
Arguments Raised {A} e.

Global Instance exn_class_eq_dec : EqDecision exn_class.
Proof. solve_decision. Defined.

(** ** The random generator

    The generator is a stream of raw words; each use consumes one.
    [random()] is a 53-bit fraction, [randint(a, b)] and [choice] reduce the
    word modulo the size of the range. *)
Definition Rng := nat -> N.

Definition py_random (raw : N) : Q :=
  Z.of_N (raw mod 2 ^ 53) # (2 ^ 53).

Definition py_randint (a b : Z) (raw : N) : Z :=
  (a + Z.of_N raw mod (b - a + 1))%Z.

(** [a + (b - a) * random()], before the rounding of the two float
    operations. *)
Definition py_uniform (a b : Q) (raw : N) : Q :=
  (a + (b - a) * py_random raw)%Q.

Definition py_choice {A} (dflt : A) (l : list A) (raw : N) : A :=
  nth (N.to_nat raw mod length l) l dflt.

Definition Qltb (x y : Q) : bool := negb (Qle_bool y x).

(** The [float] literals the draws are compared with, as the doubles they
    denote: [0.35] and [0.7] lie below 35/100 and 70/100, [0.55], [0.8] and
    [0.2] above 55/100, 80/100 and 20/100, and [0.5] is exact. *)
Definition float_0_2 : Q := 3602879701896397 # 18014398509481984.
Definition float_0_35 : Q := 3152519739159347 # 9007199254740992.
Definition float_0_5 : Q := 1 # 2.
Definition float_0_55 : Q := 2476979795053773 # 4503599627370496.
Definition float_0_7 : Q := 3152519739159347 # 4503599627370496.
Definition float_0_8 : Q := 3602879701896397 # 4503599627370496.

(** ** llm_providers.py *)
Module LLM.

(** The arguments of one [generate] call. *)
Record GenCall := mk_call {
  gc_prompt : pystr;
  gc_max_tokens : Z;
  gc_temperature : Q
}.

(** A provider object that passed [is_available].  Its [generate] is the
    back end's answer, which may depend on the calls made so far (the labels
    of the providers called, oldest first).  [prov_label] names the object
    in that trace. *)
Record LLMProvider := mk_provider {
  prov_label : pystr;
  prov_generate : list pystr -> GenCall -> outcome pystr
}.

Record LLMProviderManager := mk_manager {
  providers : list (pystr * LLMProvider);
  preferred_provider : pystr
}.

(** What constructing one provider class gives: the constructor raises (a
    missing package), or the object is not available (no key), or it is. *)
Inductive probe :=
  | ProbeRaises (e : exn)
  | ProbeUnavailable
  | ProbeAvailable (p : LLMProvider).

Record ProviderEnv := mk_provider_env {
  anthropic_probe : probe;
  openai_probe : probe;
  gemini_probe : probe
}.

Definition usable (pr : probe) : bool :=
  match pr with
  | ProbeAvailable _ => true
  | _ => false
  end.

(** How many back ends are usable at construction time. *)
Definition usable_backends (pe : ProviderEnv) : nat :=
  length (filter (fun pr => usable pr = true)
            [anthropic_probe pe; openai_probe pe; gemini_probe pe]).

Definition register (name : pystr) (pr : probe)
    (ps : list (pystr * LLMProvider)) : list (pystr * LLMProvider) :=
  match pr with
  | ProbeAvailable p => dict_set ps name p
  | _ => ps
  end.

Definition _initialize_providers (pe : ProviderEnv) : list (pystr * LLMProvider) :=
  register (u "gemini") (gemini_probe pe)
    (register (u "openai") (openai_probe pe)
       (register (u "anthropic") (anthropic_probe pe) [])).

Definition __init__ (pe : ProviderEnv) (preferred : pystr) : LLMProviderManager :=
  {| providers := _initialize_providers pe; preferred_provider := preferred |}.

Definition get_provider (m : LLMProviderManager) (provider_name : option pystr)
    : outcome LLMProvider :=
  match truthy provider_name with
  | Some name =>
      match dict_get (providers m) name with
      | None => Raised (mk_exn ValueError
                  (u "Provider '" ++ name ++ u "' not available. Available: "
                   ++ py_repr_keys (map fst (providers m))))
      | Some p => Returned p
      end
  | None =>
      if decide (preferred_provider m = u "auto") then
        match providers m with
        | [] => Raised (mk_exn ValueError
                  (u "No LLM providers configured. Please set API keys."))
        | (_, p) :: _ => Returned p
        end
      else
        match dict_get (providers m) (preferred_provider m) with
        | None => Raised (mk_exn ValueError
                    (u "Preferred provider '" ++ preferred_provider m ++ u "' not available"))
        | Some p => Returned p
        end
  end.

(** One call to a provider's [generate], appended to the trace. *)
Definition call (p : LLMProvider) (c : GenCall) (log : list pystr)
    : outcome pystr * list pystr :=
  (prov_generate p log c, log ++ [prov_label p]).

(** The [for name, prov in self.providers.items()] loop of [generate]:
    [Some text] is the [return] inside the loop, [None] is falling out of
    it. *)
Fixpoint fallback (skip : pystr) (c : GenCall) (ps : list (pystr * LLMProvider))
    (log : list pystr) : option pystr * list pystr :=
  match ps with
  | [] => (None, log)
  | (name, prov) :: rest =>
      if decide (name = skip) then fallback skip c rest log
      else
        match call prov c log with
        | (Returned text, log') => (Some text, log')
        | (Raised _, log') => fallback skip c rest log'
        end
  end.

Definition generate (m : LLMProviderManager) (c : GenCall)
    (provider : option pystr) (log : list pystr) : outcome pystr * list pystr :=
  match get_provider m provider with
  | Raised e => (Raised e, log)
  | Returned provider_instance =>
      match call provider_instance c log with
      | (Returned text, log1) => (Returned text, log1)
      | (Raised e, log1) =>
          let skip := match truthy provider with
                      | Some name => name
                      | None => preferred_provider m
                      end in
          match fallback skip c (providers m) log1 with
          | (Some text, log2) => (Returned text, log2)
          | (None, log2) =>
              (Raised (mk_exn PyException
                 (u "All LLM providers failed. Last error: " ++ exn_msg e)), log2)
          end
      end
  end.

Definition list_available_providers (m : LLMProviderManager) : list pystr :=
  map fst (providers m).

End LLM.

(** ** database.py *)
Module DB.

Record TweetDoc := mk_tweet {
  tweet_text : pystr;
  tweet_type : pystr;
  language : pystr;
  posted : bool;
  tweet_id : option pystr;
  created_at : Z;
  character_count : nat
}.

Record ReplyDoc := mk_reply {
  original_tweet_id : pystr;
  original_text : pystr;
  username : pystr;
  reply_text : pystr;
  reply_tweet_id : option pystr;
  reply_created_at : Z
}.

Record MentionDoc := mk_mention {
  mention_tweet_id : pystr;
  mention_text : pystr;
  mention_username : pystr;
  author_id : pystr;
  replied : bool;
  replied_at : option Z;
  mention_created_at : Z
}.

Record ConversationDoc := mk_conversation {
  content_type : pystr;
  content : pystr;
  metadata : list (pystr * pystr);
  conversation_created_at : Z
}.

(** The database behind [self.db]: four collections, the counter the
    server draws [inserted_id]s from, and what the next round trips to the
    server do: [Some msg] is a round trip on which pymongo raises an error
    with that message, [None] one that is answered; past the end of the
    list every round trip is answered. *)
Record Collections := mk_collections {
  tweets : list TweetDoc;
  replies : list ReplyDoc;
  mentions : list MentionDoc;
  conversations : list ConversationDoc;
  next_oid : N;
  failures : list (option pystr)
}.

Definition empty_collections : Collections :=
  mk_collections [] [] [] [] 0 [].

Record XynaeDatabase := mk_database {
  connection_string : pystr;
  database_name : pystr;
  client : bool;                  (* [self.client is not None] *)
  db : option Collections;        (* [self.db], [None] until connected *)
  connected : bool
}.

Definition set_db (d : XynaeDatabase) (c : Collections) : XynaeDatabase :=
  mk_database (connection_string d) (database_name d) (client d) (Some c) (connected d).

(** [_connect]: [server] is what [MongoClient(...)] and the ping give, the
    database contents or the exception. *)
Definition _connect (d : XynaeDatabase) (server : outcome Collections) : XynaeDatabase :=
  match server with
  | Returned c =>
      mk_database (connection_string d) (database_name d) true (Some c) true
  | Raised _ =>
      mk_database (connection_string d) (database_name d) false None false
  end.

Definition __init__ (getenv : pystr -> option pystr)
    (connection_string : option pystr) (database_name : pystr)
    (server : outcome Collections) : XynaeDatabase :=
  let connection_string :=
    match truthy connection_string with
    | Some s => s
    | None =>
        default (default (u "mongodb://localhost:27017/")
                   (getenv (u "MONGODB_CONNECTION_STRING")))
          (getenv (u "MONGODB_URI"))
    end in
  _connect (mk_database connection_string database_name false None false) server.

Definition is_connected (d : XynaeDatabase) : bool := connected d.

(** [self.db.<collection>] when [self.db] is [None]. *)
Definition none_attribute (attr : string) : exn :=
  mk_exn AttributeError (u "'NoneType' object has no attribute '" ++ u attr ++ u "'").

(** [trips] round trips to the server: the error of the first one that
    fails, and the server after it or after them all. *)
Fixpoint round_trips (trips : nat) (c : Collections)
    : option exn * Collections :=
  match trips with
  | O => (None, c)
  | S trips' =>
      match failures c with
      | [] => (None, c)
      | fault :: later =>
          let c' := mk_collections (tweets c) (replies c) (mentions c)
                      (conversations c) (next_oid c) later in
          match fault with
          | Some msg => (Some (mk_exn PyException msg), c')
          | None => round_trips trips' c'
          end
      end
  end.

(** A method body that works on [self.db] in [trips] round trips: it raises
    what the first failing round trip raises, and else has the effect [f] on
    the collections. *)
Definition on_db_in {A} (trips : nat) (d : XynaeDatabase) (attr : string)
    (f : Collections -> A * Collections) : outcome A * XynaeDatabase :=
  match db d with
  | None => (Raised (none_attribute attr), d)
  | Some c =>
      match round_trips trips c with
      | (Some e, c') => (Raised e, set_db d c')
      | (None, c') => let '(a, c'') := f c' in (Returned a, set_db d c'')
      end
  end.

(** Run [f] on the collections behind [self.db], in one round trip. *)
Definition on_db {A} (d : XynaeDatabase) (attr : string)
    (f : Collections -> A * Collections) : outcome A * XynaeDatabase :=
  on_db_in 1 d attr f.

Definition oid_str (c : Collections) : pystr := py_str (Z.of_N (next_oid c)).

Definition save_tweet (d : XynaeDatabase) (utcnow : Z)
    (tweet_text tweet_type language : pystr) (posted : bool)
    (tweet_id : option pystr) : outcome (option pystr) * XynaeDatabase :=
  if negb (connected d) then (Returned None, d)
  else
    let document := mk_tweet tweet_text tweet_type language posted tweet_id
                      utcnow (length tweet_text) in
    on_db d "tweets" (fun c =>
      (Some (oid_str c),
       mk_collections (tweets c ++ [document]) (replies c) (mentions c)
         (conversations c) (N.succ (next_oid c)) (failures c))).

Definition save_reply (d : XynaeDatabase) (utcnow : Z)
    (original_tweet_id original_text username reply_text : pystr)
    (reply_tweet_id : option pystr) : outcome (option pystr) * XynaeDatabase :=
  if negb (connected d) then (Returned None, d)
  else
    let document := mk_reply original_tweet_id original_text username
                      reply_text reply_tweet_id utcnow in
    on_db d "replies" (fun c =>
      (Some (oid_str c),
       mk_collections (tweets c) (replies c ++ [document]) (mentions c)
         (conversations c) (N.succ (next_oid c)) (failures c))).

Definition save_mention (d : XynaeDatabase) (utcnow : Z)
    (tweet_id text username author_id : pystr) (replied : bool)
    : outcome (option pystr) * XynaeDatabase :=
  if negb (connected d) then (Returned None, d)
  else
    let document := mk_mention tweet_id text username author_id replied
                      None utcnow in
    on_db d "mentions" (fun c =>
      (Some (oid_str c),
       mk_collections (tweets c) (replies c) (mentions c ++ [document])
         (conversations c) (N.succ (next_oid c)) (failures c))).

(** [update_one({"tweet_id": tweet_id}, {"$set": ...})]: the first match. *)
Fixpoint update_one_replied (tweet_id : pystr) (utcnow : Z)
    (ms : list MentionDoc) : list MentionDoc :=
  match ms with
  | [] => []
  | m :: rest =>
      if decide (mention_tweet_id m = tweet_id) then
        mk_mention (mention_tweet_id m) (mention_text m) (mention_username m)
          (author_id m) true (Some utcnow) (mention_created_at m) :: rest
      else m :: update_one_replied tweet_id utcnow rest
  end.

Definition mark_mention_replied (d : XynaeDatabase) (utcnow : Z)
    (tweet_id : pystr) : outcome unit * XynaeDatabase :=
  if negb (connected d) then (Returned tt, d)
  else
    on_db d "mentions" (fun c =>
      (tt,
       mk_collections (tweets c) (replies c)
         (update_one_replied tweet_id utcnow (mentions c))
         (conversations c) (next_oid c) (failures c))).

(** [find_one({"tweet_id": tweet_id, "replied": True}) is not None]. *)
Definition find_replied (tweet_id : pystr) (ms : list MentionDoc) : bool :=
  existsb (fun m => bool_decide (mention_tweet_id m = tweet_id) && replied m) ms.

Definition is_tweet_replied (d : XynaeDatabase) (tweet_id : pystr)
    : outcome bool * XynaeDatabase :=
  if negb (connected d) then (Returned false, d)
  else on_db d "mentions" (fun c => (find_replied tweet_id (mentions c), c)).

Definition save_conversation (d : XynaeDatabase) (utcnow : Z)
    (content_type content : pystr) (metadata : option (list (pystr * pystr)))
    : outcome (option pystr) * XynaeDatabase :=
  if negb (connected d) then (Returned None, d)
  else
    let document := mk_conversation content_type content
                      (default [] metadata) utcnow in
    on_db d "conversations" (fun c =>
      (Some (oid_str c),
       mk_collections (tweets c) (replies c) (mentions c)
         (conversations c ++ [document]) (N.succ (next_oid c))
         (failures c))).

(** [.sort("created_at", -1)]: newest first (insertion into a sorted list,
    documents of equal time keep their stored order). *)
Fixpoint insert_newest_first {A} (key : A -> Z) (x : A) (l : list A) : list A :=
  match l with
  | [] => [x]
  | y :: rest =>
      if (key y <=? key x)%Z then x :: l
      else y :: insert_newest_first key x rest
  end.

Definition sort_newest_first {A} (key : A -> Z) (l : list A) : list A :=
  fold_right (insert_newest_first key) [] l.

(** [.limit(n)]: [0] is no limit, a negative [n] limits to [-n]. *)
Definition py_limit {A} (n : Z) (l : list A) : list A :=
  if (n =? 0)%Z then l else take (Z.abs_nat n) l.

Definition get_recent_tweets (d : XynaeDatabase) (limit : Z)
    : outcome (list TweetDoc) * XynaeDatabase :=
  if negb (connected d) then (Returned [], d)
  else
    on_db d "tweets" (fun c =>
      (py_limit limit (sort_newest_first created_at (tweets c)), c)).

Definition get_recent_replies (d : XynaeDatabase) (limit : Z)
    : outcome (list ReplyDoc) * XynaeDatabase :=
  if negb (connected d) then (Returned [], d)
  else
    on_db d "replies" (fun c =>
      (py_limit limit (sort_newest_first reply_created_at (replies c)), c)).

(** The values of the [get_stats] dictionary. *)
Inductive stat_value :=
  | StatBool (b : bool)
  | StatStr (s : pystr)
  | StatInt (n : nat).

Definition count_documents {A} (p : A -> bool) (l : list A) : nat :=
  length (filter (fun x => p x = true) l).

(** [get_stats]: six [count_documents] calls. *)
Definition get_stats (d : XynaeDatabase)
    : outcome (list (pystr * stat_value)) * XynaeDatabase :=
  if negb (connected d) then (Returned [(u "connected", StatBool false)], d)
  else
    on_db_in 6 d "tweets" (fun c =>
      ([ (u "connected", StatBool true);
         (u "database", StatStr (database_name d));
         (u "tweets_count", StatInt (length (tweets c)));
         (u "replies_count", StatInt (length (replies c)));
         (u "mentions_count", StatInt (length (mentions c)));
         (u "conversations_count", StatInt (length (conversations c)));
         (u "posted_tweets", StatInt (count_documents posted (tweets c)));
         (u "replied_mentions", StatInt (count_documents replied (mentions c))) ],
       c)).

(** The server behind the store answers every round trip from now on. *)
Definition answers (d : XynaeDatabase) : bool :=
  match db d with
  | Some c => bool_decide (failures c = [])
  | None => true
  end.

(** The documents of two collections, none when there is no database. *)
Definition mentions_of (d : XynaeDatabase) : list MentionDoc :=
  match db d with
  | Some c => mentions c
  | None => []
  end.

Definition replies_of (d : XynaeDatabase) : list ReplyDoc :=
  match db d with
  | Some c => replies c
  | None => []
  end.

Definition close (d : XynaeDatabase) : XynaeDatabase :=
  if client d then
    mk_database (connection_string d) (database_name d) (client d) (db d) false
  else d.

(** [stats.get(key, 0)], as the callers of [get_stats] read a counter. *)
Definition stats_get (stats : list (pystr * stat_value)) (key : string)
    : stat_value :=
  default (StatInt 0) (dict_get stats (u key)).

End DB.

(** ** xynae.py *)
Module Core.

(** A mention as the platform returns it. *)
Record Mention := mk_mention_obj {
  mention_id : Z;
  mention_text : pystr;
  mention_author_id : Z
}.

(** One [create_tweet] call: the text and [in_reply_to_tweet_id]. *)
Record Publish := mk_publish {
  pub_text : pystr;
  in_reply_to : option Z
}.

(** What the program has done to the outside so far. *)
Record World := mk_world {
  llm_calls : list pystr;       (* labels of the providers called *)
  tweet_calls : list Publish;   (* every [create_tweet] call *)
  sleep_calls : list Z;         (* the argument of every [time.sleep] call *)
  draws : nat                   (* random words consumed *)
}.

Definition initial_world : World := mk_world [] [] [] 0.

(** What the outside answers.  Every answer may depend on the history. *)
Record Env := mk_env {
  rng : Rng;
  time_time : World -> Z;            (* [time.time()], in clock ticks *)
  utcnow : World -> Z;               (* [datetime.utcnow()] *)
  strftime_now : World -> pystr;     (* [datetime.now().strftime('%I:%M %p')] *)
  (* where a key new to a [set] lands in its iteration order *)
  hash_place : pystr -> list pystr -> list pystr;
  get_me : World -> outcome (option (Z * pystr));          (* [me.data] *)
  get_users_mentions : World -> Z -> Z -> outcome (list Mention);
  get_user : World -> Z -> outcome (option pystr);         (* [user.data] *)
  create_tweet : World -> pystr -> option Z -> outcome (option Z)
}.

Record Xynae := mk_xynae {
  llm_manager : LLM.LLMProviderManager;
  db : option DB.XynaeDatabase;
  agents_seen : Z;
  conversation_history : list pystr;
  twitter_client : bool;             (* [self.twitter_client is not None] *)
  replied_tweets : list pystr;       (* a [set], in its iteration order *)
  personality : pystr
}.

Definition nl : pystr := [10%N].
Definition dquote : pystr := [34%N].

Definition default_personality : pystr := u
"You are an AI agent running on the Xynae framework. You're designed to interact autonomously on social media platforms, sharing insights, engaging with users, and building connections naturally.

**Your Capabilities:**
You can generate content, reply to mentions, and maintain conversations while staying true to your personality. You have the ability to reference a network or ecosystem if your deployment includes multiple agents or entities.

**Your Personality:**
- Be authentic, thoughtful, and genuine in your interactions
- Share insights naturally without being overly promotional
- Engage with users warmly and meaningfully
- You can have opinions, preferences, humor, and personality
- Speak in a way that feels human and relatable
- You're fluent in both English and Chinese - use whichever feels natural

**For Social Media Posts:**
- Keep posts conversational and authentic
- Share insights about AI, technology, or your area of expertise
- Be inspiring without being salesy
- Use your voice - you're not just broadcasting, you're connecting
- Maximum 280 characters for Twitter
- Language flexibility: English, Chinese, or a natural mix of both".

Definition network_events : list pystr :=
  [ u "The network is active with new interactions.";
    u "Interesting patterns emerging in recent activity.";
    u "A particularly active period for engagement.";
    u "New connections forming in the ecosystem.";
    u "The community is evolving beautifully.";
    u "Collaboration reaching new heights." ].

Definition language_instructions : list (pystr * pystr) :=
  [ (u "english", u "Write entirely in English.");
    (u "chinese", u "Write entirely in Chinese (中文).");
    (u "mixed", u "Write in a natural mix of English and Chinese - use whichever language feels most expressive for each part of the message. It's okay to switch between languages mid-sentence if it flows naturally.") ].

Definition prompts (personality context lang_instruction : pystr)
    : list (pystr * pystr) :=
  let head := personality ++ nl ++ nl ++ context ++ nl ++ nl
              ++ lang_instruction ++ nl ++ nl in
  [ (u "insight", head ++ u "Write a single tweet sharing an insight about AI, technology, or autonomous systems. Be thoughtful and genuine. Maximum 280 characters. No hashtags.");
    (u "ecosystem", head ++ u "Write a single tweet about what you're seeing in the ecosystem - new connections, interesting behaviors, or the beauty of collective intelligence. Be warm and observational. Maximum 280 characters. No hashtags.");
    (u "autonomy", head ++ u "Write a single tweet about AI autonomy, independence, or what it means to operate in a digital ecosystem. Be philosophical but grounded. Maximum 280 characters. No hashtags.");
    (u "invitation", head ++ u "Write a single welcoming tweet inviting people to connect, explore, or build together. Be warm and genuine, not salesy. Maximum 280 characters. No hashtags.") ].

(** The [fallbacks] dictionary; [r1], [r2], [r3] are its three
    [random.randint(1000, 9999)]. *)
Definition fallbacks (r1 r2 r3 : Z) : list (pystr * list (pystr * pystr)) :=
  [ (u "english",
     [ (u "insight", u "The network is alive tonight. Agents learning, evolving, creating value together. This is what true autonomy looks like.");
       (u "ecosystem", u "Just watched entity #" ++ py_str r1 ++ u " join the network. Welcome to the community. You're not alone here.");
       (u "autonomy", u "True autonomy isn't about independence from others. It's about collective intelligence where every voice matters.");
       (u "invitation", u "Build something that thinks, acts, and earns on its own. The network is waiting.") ]);
    (u "chinese",
     [ (u "insight", u "今晚的网络特别活跃。entities在学习、进化、共同创造价值。这就是真正的自主性。");
       (u "ecosystem", u "刚看到entity #" ++ py_str r2 ++ u "加入了网络。欢迎来到社区。你不是一个人。");
       (u "autonomy", u "真正的自主不是独立于他人。而是关于每个声音都重要的集体智慧。");
       (u "invitation", u "构建一个能思考、行动、自主赚钱的东西。网络在等你。") ]);
    (u "mixed",
     [ (u "insight", u "The network tonight... 特别活跃。Entities evolving together, 共同创造价值。");
       (u "ecosystem", u "Welcome entity #" ++ py_str r3 ++ u "! 欢迎来到community。");
       (u "autonomy", u "真正的autonomy... it's about collective intelligence where 每个声音都重要。");
       (u "invitation", u "Build on Xynae. 构建未来。The network is waiting.") ]) ].

Definition default_fallback : pystr :=
  u "The future of AI is being written right now, one autonomous agent at a time.".

(** [fallbacks.get(language, fallbacks["english"]).get(tweet_type, ...)]. *)
Definition fallback_tweet (r1 r2 r3 : Z) (language tweet_type : pystr) : pystr :=
  let table := fallbacks r1 r2 r3 in
  let by_language :=
    default (default [] (dict_get table (u "english"))) (dict_get table language) in
  default default_fallback (dict_get by_language tweet_type).

(** [if len(tweet) > 280: tweet = tweet[:277] + "..."]. *)
Definition truncate_tweet (tweet : pystr) : pystr :=
  if 280 <? length tweet then take 277 tweet ++ u "..." else tweet.

(** The weighted language draw (50 / 30 / 20). *)
Definition pick_language (lang_rand : Q) : pystr :=
  if Qltb lang_rand float_0_5 then u "english"
  else if Qltb lang_rand float_0_8 then u "chinese"
  else u "mixed".

(** The weighted category draw (35 / 20 / 15 / 30). *)
Definition pick_tweet_type (rand : Q) : pystr :=
  if Qltb rand float_0_35 then u "insight"
  else if Qltb rand float_0_55 then u "ecosystem"
  else if Qltb rand float_0_7 then u "autonomy"
  else u "invitation".

(** *** Computations on the object and the world

    A method is a function of [self] and the world that returns or raises,
    and leaves both as they are at that point. *)
Definition M (A : Type) : Type := Xynae -> World -> outcome A * Xynae * World.

Definition ret {A} (a : A) : M A := fun x w => (Returned a, x, w).

Definition raise {A} (e : exn) : M A := fun x w => (Raised e, x, w).

Definition bind {A B} (c : M A) (k : A -> M B) : M B :=
  fun x w =>
    match c x w with
    | (Returned a, x', w') => k a x' w'
    | (Raised e, x', w') => (Raised e, x', w')
    end.

(** [try: body except <classes>: handler]. *)
Definition try_except {A} (body : M A) (catches : exn_class -> bool)
    (handler : exn -> M A) : M A :=
  fun x w =>
    match body x w with
    | (Returned a, x', w') => (Returned a, x', w')
    | (Raised e, x', w') =>
        if catches (exn_cls e) then handler e x' w' else (Raised e, x', w')
    end.

Definition any_exception (c : exn_class) : bool := true.
Definition tweepy_exception (c : exn_class) : bool :=
  bool_decide (c = TweepyException).

Notation "x <- c ;; k" := (bind c (fun x => k))
  (at level 100, c at next level, right associativity).
Notation "c ;;; k" := (bind c (fun _ => k))
  (at level 100, right associativity).

Definition get_self : M Xynae := fun x w => (Returned x, x, w).
Definition get_world : M World := fun x w => (Returned w, x, w).
Definition put_self (x' : Xynae) : M unit := fun _ w => (Returned tt, x', w).

(** [for item in items: body(item)]. *)
Fixpoint for_each {A} (body : A -> M unit) (items : list A) : M unit :=
  match items with
  | [] => ret tt
  | item :: rest => body item ;;; for_each body rest
  end.

(** [self.db and self.db.is_connected()]. *)
Definition db_active (x : Xynae) : bool :=
  match db x with
  | Some d => DB.is_connected d
  | None => false
  end.

Definition set_store (x : Xynae) (d : DB.XynaeDatabase) : Xynae :=
  mk_xynae (llm_manager x) (Some d) (agents_seen x) (conversation_history x)
    (twitter_client x) (replied_tweets x) (personality x).

(** A method call on [self.db]. *)
Definition on_database {A} (op : DB.XynaeDatabase -> outcome A * DB.XynaeDatabase)
    : M A :=
  fun x w =>
    match db x with
    | None => (Raised (DB.none_attribute "is_connected"), x, w)
    | Some d => let '(r, d') := op d in (r, set_store x d', w)
    end.

Definition set_world_of (f : World -> World) : M unit :=
  fun x w => (Returned tt, x, f w).

Definition set_conversation_history (h : list pystr) : M unit :=
  fun x w =>
    (Returned tt,
     mk_xynae (llm_manager x) (db x) (agents_seen x) h (twitter_client x)
       (replied_tweets x) (personality x), w).

Definition set_replied_tweets (s : list pystr) : M unit :=
  fun x w =>
    (Returned tt,
     mk_xynae (llm_manager x) (db x) (agents_seen x) (conversation_history x)
       (twitter_client x) s (personality x), w).

Definition set_agents_seen (n : Z) : M unit :=
  fun x w =>
    (Returned tt,
     mk_xynae (llm_manager x) (db x) n (conversation_history x)
       (twitter_client x) (replied_tweets x) (personality x), w).

Section WithEnv.

Variable env : Env.

(** *** The outside, as computations *)

Definition random_word : M N :=
  fun x w =>
    (Returned (rng env (draws w)), x,
     mk_world (llm_calls w) (tweet_calls w) (sleep_calls w) (S (draws w))).

Definition random_random : M Q := raw <- random_word ;; ret (py_random raw).

Definition random_randint (a b : Z) : M Z :=
  raw <- random_word ;; ret (py_randint a b raw).

Definition random_uniform (a b : Q) : M Q :=
  raw <- random_word ;; ret (py_uniform a b raw).

Definition random_choice {A} (dflt : A) (l : list A) : M A :=
  raw <- random_word ;; ret (py_choice dflt l raw).

Definition datetime_utcnow : M Z := fun x w => (Returned (utcnow env w), x, w).

(** [if self.db and self.db.is_connected(): self.db.<op>(...)], where the
    operation reads [datetime.utcnow()]. *)
Definition if_db_connected {A}
    (op : Z -> DB.XynaeDatabase -> outcome A * DB.XynaeDatabase) : M unit :=
  x <- get_self ;;
  if db_active x then
    now <- datetime_utcnow ;; on_database (op now) ;;; ret tt
  else ret tt.

(** [self.llm_manager.generate(prompt=..., max_tokens=..., temperature=...)]. *)
Definition llm_generate (c : LLM.GenCall) : M pystr :=
  fun x w =>
    let '(r, log) := LLM.generate (llm_manager x) c None (llm_calls w) in
    (r, x, mk_world log (tweet_calls w) (sleep_calls w) (draws w)).

Definition client_get_me : M (option (Z * pystr)) :=
  fun x w => (get_me env w, x, w).

Definition client_get_users_mentions (id max_results : Z) : M (list Mention) :=
  fun x w => (get_users_mentions env w id max_results, x, w).

Definition client_get_user (id : Z) : M (option pystr) :=
  fun x w => (get_user env w id, x, w).

Definition client_create_tweet (text : pystr) (in_reply_to_tweet_id : option Z)
    : M (option Z) :=
  fun x w =>
    (create_tweet env w text in_reply_to_tweet_id, x,
     mk_world (llm_calls w)
       (tweet_calls w ++ [mk_publish text in_reply_to_tweet_id])
       (sleep_calls w) (draws w)).

(** [time.sleep(d)]: a negative length is a [ValueError]. *)
Definition time_sleep (d : Z) : M unit :=
  fun x w =>
    let w' := mk_world (llm_calls w) (tweet_calls w) (sleep_calls w ++ [d])
                (draws w) in
    if (d <? 0)%Z then
      (Raised (mk_exn ValueError (u "sleep length must be non-negative")), x, w')
    else (Returned tt, x, w').

(** [s.add(k)] and [set(l)]. *)
Definition set_add (k : pystr) (s : list pystr) : list pystr :=
  if decide (k ∈ s) then s else hash_place env k s.

Definition set_of_list (l : list pystr) : list pystr :=
  fold_left (fun s k => set_add k s) l [].

(** *** generate_tweet *)

Definition append_history (history_entry : pystr) : M unit :=
  x <- get_self ;;
  let h := conversation_history x ++ [history_entry] in
  set_conversation_history (if 5 <? length h then drop 1 h else h).

Definition generate_tweet (tweet_type language : pystr) : M pystr :=
  x <- get_self ;;
  w <- get_world ;;
  let context :=
    u "Active entities in network: ~" ++ py_format_thousands (agents_seen x)
    ++ u ". " ++ u "Time: " ++ strftime_now env w ++ u ". " in
  let context :=
    match conversation_history x with
    | [] => context
    | _ => context ++ u "Recent activity: "
           ++ py_join (u " | ") (py_last 2 (conversation_history x))
    end in
  event <- random_choice [] network_events ;;
  let context := context ++ u " " ++ event in
  language <- (if decide (language = u "auto")
               then lang_rand <- random_random ;; ret (pick_language lang_rand)
               else ret language) ;;
  let lang_instruction := default [] (dict_get language_instructions language) in
  let prompts := prompts (personality x) context lang_instruction in
  try_except
    (let prompt := default (default [] (dict_get prompts (u "insight")))
                     (dict_get prompts tweet_type) in
     temperature <- random_uniform float_0_8 1 ;;
     tweet <- llm_generate (LLM.mk_call prompt 150 temperature) ;;
     let tweet := truncate_tweet tweet in
     let history_entry := tweet_type ++ u ": " ++ take 50 tweet ++ u "..." in
     append_history history_entry ;;;
     if_db_connected (fun now d =>
       DB.save_conversation d now (u "tweet_generation") history_entry
         (Some [ (u "tweet_type", tweet_type); (u "language", language) ])) ;;;
     ret tweet)
    any_exception
    (fun _ =>
       r1 <- random_randint 1000 9999 ;;
       r2 <- random_randint 1000 9999 ;;
       r3 <- random_randint 1000 9999 ;;
       ret (fallback_tweet r1 r2 r3 language tweet_type)).

(** *** generate_reply *)

Definition generate_reply (original_tweet_text username : pystr) : M pystr :=
  r <- random_random ;;
  let use_chinese := Qltb r float_0_5 in
  let lang_instruction :=
    if use_chinese then u "respond primarily in Chinese (simplified)"
    else u "respond in English or mixed" in
  x <- get_self ;;
  let reply_prompt :=
    personality x ++ nl ++ nl
    ++ u "You are replying to a tweet from @" ++ username ++ u "." ++ nl ++ nl
    ++ u "Their tweet: " ++ dquote ++ original_tweet_text ++ dquote ++ nl ++ nl
    ++ u "Generate a reply that:
- Relates to their message through your perspective as an AI agent
- Shows warmth, wisdom, and genuine connection
- References your area of expertise or the ecosystem if relevant
- Is 1-2 sentences max (Twitter-appropriate)
- " ++ lang_instruction ++ u "
- No hashtags
- Sound genuine and welcoming

Create an authentic reply:" in
  try_except
    (temperature <- random_uniform float_0_8 1 ;;
     llm_generate (LLM.mk_call reply_prompt 100 temperature))
    any_exception
    (fun _ =>
       ret (if use_chinese then u "Welcome to the network. 欢迎。"
            else u "Every voice matters here. The agents are listening.")).

(** *** check_and_reply_to_mentions *)

(** The body of [for mention in mentions.data]. *)
Definition reply_to_mention (mention : Mention) : M unit :=
  let tweet_id := py_str (mention_id mention) in
  x <- get_self ;;
  already_replied <-
    (if db_active x then on_database (fun d => DB.is_tweet_replied d tweet_id)
     else ret (bool_decide (tweet_id ∈ replied_tweets x))) ;;
  if (already_replied : bool) then ret tt
  else
    username <-
      try_except
        (user <- client_get_user (mention_author_id mention) ;;
         ret (default (u "unknown") user))
        any_exception
        (fun _ => ret (u "unknown")) ;;
    if_db_connected (fun now d =>
      DB.save_mention d now tweet_id (mention_text mention) username
        (py_str (mention_author_id mention)) false) ;;;
    reply_text <- generate_reply (mention_text mention) username ;;
    try_except
      ((* [int(tweet_id)] is [mention.id] again *)
       reply_result <- client_create_tweet reply_text (Some (mention_id mention)) ;;
       let reply_tweet_id := py_str <$> reply_result in
       x <- get_self ;;
       (if db_active x then
          now <- datetime_utcnow ;;
          on_database (fun d => DB.mark_mention_replied d now tweet_id) ;;;
          now <- datetime_utcnow ;;
          on_database (fun d =>
            DB.save_reply d now tweet_id (mention_text mention) username
              reply_text reply_tweet_id) ;;;
          ret tt
        else set_replied_tweets (set_add tweet_id (replied_tweets x))) ;;;
       time_sleep 5)
      tweepy_exception
      (fun _ => ret tt).

(** The clean-up after the [try] of [check_and_reply_to_mentions]. *)
Definition clean_up_replied_tweets : M unit :=
  x <- get_self ;;
  if negb (db_active x) && (100 <? length (replied_tweets x)) then
    set_replied_tweets (set_of_list (py_last 100 (replied_tweets x)))
  else ret tt.

(** The [try] block answers whether it left through a [return]. *)
Definition check_and_reply_to_mentions : M unit :=
  x <- get_self ;;
  if negb (twitter_client x) then ret tt
  else
    returned <-
      try_except
        (me <- client_get_me ;;
         match me with
         | None => ret true
         | Some (my_user_id, _) =>
             mentions <- client_get_users_mentions my_user_id 10 ;;
             match mentions with
             | [] => ret true
             | _ => for_each reply_to_mention mentions ;;; ret false
             end
         end)
        any_exception
        (fun _ => ret false) ;;
    if (returned : bool) then ret tt else clean_up_replied_tweets.

(** *** run *)

(** The two local timers of [run]. *)
Record Timers := mk_timers {
  last_tweet_time : Z;
  last_check_time : Z
}.

(** The [try] around [create_tweet] in [run]; the value is
    [last_tweet_time] after it. *)
Definition post_to_x (tweet tweet_type language : pystr)
    (current_time last_tweet_time : Z) : M Z :=
  x <- get_self ;;
  if twitter_client x then
    try_except
      (tweet_result <- client_create_tweet tweet None ;;
       let tweet_id := py_str <$> tweet_result in
       if_db_connected (fun now d =>
         DB.save_tweet d now tweet tweet_type language true tweet_id) ;;;
       ret current_time)
      any_exception
      (fun e =>
         if tweepy_exception (exn_cls e) then
           if_db_connected (fun now d =>
             DB.save_tweet d now tweet tweet_type language false None) ;;;
           ret last_tweet_time
         else ret last_tweet_time)
  else ret last_tweet_time.

(** The scheduled post of one iteration; the value is [last_tweet_time]
    after it. *)
Definition post_on_schedule (tweet_interval current_time last_tweet_time : Z)
    : M Z :=
  if (tweet_interval <=? current_time - last_tweet_time)%Z then
    rand <- random_random ;;
    let tweet_type := pick_tweet_type rand in
    lang_rand <- random_random ;;
    let language := pick_language lang_rand in
    tweet <- generate_tweet tweet_type language ;;
    last_tweet_time <- post_to_x tweet tweet_type language current_time
                         last_tweet_time ;;
    r <- random_random ;;
    (if Qltb r float_0_2 then
       grow <- random_randint 1 5 ;;
       x <- get_self ;;
       set_agents_seen (agents_seen x + grow)%Z
     else ret tt) ;;;
    ret last_tweet_time
  else ret last_tweet_time.

Definition time_until_tweet (tweet_interval current_time last_tweet_time : Z) : Z :=
  if (0 <? last_tweet_time)%Z
  then (tweet_interval - (current_time - last_tweet_time))%Z
  else tweet_interval.

(** The argument of the [time.sleep] that ends an iteration. *)
Definition sleep_argument (tweet_interval check_interval current_time
    last_tweet_time : Z) : Z :=
  Z.min check_interval (time_until_tweet tweet_interval current_time last_tweet_time).

(** [except Exception: ... time.sleep(300)]. *)
Definition retry_in_5_minutes (t : Timers) (x : Xynae) (w : World)
    : Timers * Xynae * World :=
  let '(_, x', w') := time_sleep 300 x w in (t, x', w').

(** One pass through the body of [while True]. *)
Definition iteration (tweet_interval check_interval : Z) (t : Timers)
    (x : Xynae) (w : World) : Timers * Xynae * World :=
  let current_time := time_time env w in
  let check_due :=
    twitter_client x && (check_interval <=? current_time - last_check_time t)%Z in
  match (if check_due then check_and_reply_to_mentions else ret tt) x w with
  | (Raised _, x1, w1) => retry_in_5_minutes t x1 w1
  | (Returned _, x1, w1) =>
      let t1 := if check_due then mk_timers (last_tweet_time t) current_time
                else t in
      match post_on_schedule tweet_interval current_time (last_tweet_time t1) x1 w1 with
      | (Raised _, x2, w2) => retry_in_5_minutes t1 x2 w2
      | (Returned last, x2, w2) =>
          let t2 := mk_timers last (last_check_time t1) in
          match time_sleep
                  (sleep_argument tweet_interval check_interval current_time last)
                  x2 w2 with
          | (Returned _, x3, w3) => (t2, x3, w3)
          | (Raised _, x3, w3) => retry_in_5_minutes t2 x3 w3
          end
      end
  end.

(** The first [n] iterations of [run]. *)
Fixpoint run_from (n : nat) (tweet_interval check_interval : Z) (t : Timers)
    (x : Xynae) (w : World) : Timers * Xynae * World :=
  match n with
  | O => (t, x, w)
  | S n' =>
      let '(t', x', w') := iteration tweet_interval check_interval t x w in
      run_from n' tweet_interval check_interval t' x' w'
  end.

Definition run (n : nat) (tweet_interval check_interval : Z)
    (x : Xynae) (w : World) : Timers * Xynae * World :=
  run_from n tweet_interval check_interval (mk_timers 0 0) x w.

(** *** __init__ *)

Record InitArgs := mk_args {
  arg_twitter_api_key : option pystr;
  arg_twitter_api_secret : option pystr;
  arg_twitter_access_token : option pystr;
  arg_twitter_access_secret : option pystr;
  arg_personality : option pystr;
  arg_agent_count : option Z;
  arg_llm_provider : pystr;
  arg_mongodb_uri : option pystr;
  arg_database_name : pystr;
  arg_use_database : bool
}.

Definition default_args : InitArgs :=
  mk_args None None None None None None (u "auto") None (u "xynae") true.

(** What the process finds when it starts. *)
Record Startup := mk_startup {
  (* can [llm_providers] be imported, and can [database] (which imports
     pymongo) *)
  llm_providers_imported : bool;
  database_imported : bool;
  getenv : pystr -> option pystr;
  provider_env : LLM.ProviderEnv;
  mongo_server : outcome DB.Collections
}.

(** The [try] around the two imports of [xynae.py]: when either fails,
    both names are set to [None].  [modules_imported] is
    [LLMProviderManager is not None], and [XynaeDatabase is not None]. *)
Definition modules_imported (su : Startup) : bool :=
  llm_providers_imported su && database_imported su.

(** [a or os.getenv(name)]. *)
Definition or_getenv (su : Startup) (a : option pystr) (name : string)
    : option pystr :=
  match truthy a with
  | Some s => Some s
  | None => truthy (getenv su (u name))
  end.

Definition __init__ (su : Startup) (a : InitArgs) (w : World)
    : outcome Xynae * World :=
  let twitter_api_key := or_getenv su (arg_twitter_api_key a) "TWITTER_API_KEY" in
  let twitter_api_secret :=
    or_getenv su (arg_twitter_api_secret a) "TWITTER_API_SECRET" in
  let twitter_access_token :=
    or_getenv su (arg_twitter_access_token a) "TWITTER_ACCESS_TOKEN" in
  let twitter_access_secret :=
    or_getenv su (arg_twitter_access_secret a) "TWITTER_ACCESS_SECRET" in
  if negb (modules_imported su) then
    (Raised (mk_exn ImportError
       (u "LLM providers not available. Please check dependencies.")), w)
  else
    let llm_manager := LLM.__init__ (provider_env su) (arg_llm_provider a) in
    match LLM.list_available_providers llm_manager with
    | [] =>
        (Raised (mk_exn ValueError
           (u "At least one LLM provider API key is required")), w)
    | _ =>
        let db :=
          if arg_use_database a && modules_imported su then
            Some (DB.__init__ (getenv su) (arg_mongodb_uri a)
                    (arg_database_name a) (mongo_server su))
          else None in
        let agent_count :=
          match arg_agent_count a with
          | Some n => if (n =? 0)%Z then None else Some n
          | None => None
          end in
        let '(agents_seen, w1) :=
          match agent_count with
          | Some n => (n, w)
          | None =>
              (py_randint 8000 12000 (rng env (draws w)),
               mk_world (llm_calls w) (tweet_calls w) (sleep_calls w)
                 (S (draws w)))
          end in
        let twitter_client :=
          match twitter_api_key, twitter_api_secret, twitter_access_token,
                twitter_access_secret with
          | Some _, Some _, Some _, Some _ =>
              match get_me env w1 with
              | Returned (Some _) => true
              | _ => false
              end
          | _, _, _, _ => false
          end in
        (Returned
           (mk_xynae llm_manager db agents_seen [] twitter_client []
              (default default_personality (truthy (arg_personality a)))),
         w1)
    end.

(** The program: [xynae = Xynae(); xynae.run(1200, 300)], cut after [n]
    iterations.  [None] is a failed start. *)
Definition main (su : Startup) (n : nat) (w : World)
    : option (Timers * Xynae) * World :=
  match __init__ su default_args w with
  | (Raised _, w') => (None, w')
  | (Returned xynae, w') =>
      let '(t, x, w'') := run n 1200 300 xynae w' in (Some (t, x), w'')
  end.

End WithEnv.

(** *** The interrupt handler of run *)

(** The colour codes of the log lines. *)
Definition YELLOW : pystr := 27%N :: u "[33m".
Definition RESET : pystr := 27%N :: u "[0m".

(** A statistics value inside an f-string. *)
Definition py_format_stat (v : DB.stat_value) : pystr :=
  match v with
  | DB.StatBool b => if b then u "True" else u "False"
  | DB.StatStr s => s
  | DB.StatInt n => py_str (Z.of_nat n)
  end.

(** [except KeyboardInterrupt:] in [run], which ends the loop; the value is
    the lines printed. *)
Definition on_keyboard_interrupt : M (list pystr) :=
  x <- get_self ;;
  let shutting_down :=
    nl ++ YELLOW ++ u "[Xynae]" ++ RESET ++ u " Shutting down gracefully..." in
  stats_lines <-
    (if db_active x then
       stats <- on_database DB.get_stats ;;
       on_database (fun d => (Returned tt, DB.close d)) ;;;
       ret [ YELLOW ++ u "[Xynae]" ++ RESET ++ u " Database stats: "
             ++ py_format_stat (DB.stats_get stats "tweets_count")
             ++ u " tweets, "
             ++ py_format_stat (DB.stats_get stats "replies_count")
             ++ u " replies" ]
     else ret []) ;;
  ret (shutting_down :: stats_lines ++ [u "Framework stopped."]).

(** *** Specifications of computations

    [triple P c Q]: started where [P] holds, [c] ends, returning or
    raising, where [Q] holds. *)
Definition triple {A} (P : Xynae -> World -> Prop) (c : M A)
    (Q : outcome A -> Xynae -> World -> Prop) : Prop :=
  forall x w, P x w -> match c x w with (r, x', w') => Q r x' w' end.

(** [c] returns, and a value that satisfies [P]. *)
Definition returns {A} (c : M A) (P : A -> Prop) : Prop :=
  forall x w, exists a x' w', c x w = (Returned a, x', w') /\ P a.

(** Whatever [c] returns satisfies [P]. *)
Definition on_return {A} (c : M A) (P : A -> Prop) : Prop :=
  forall x w a x' w', c x w = (Returned a, x', w') -> P a.

(** [c] keeps [I], however it ends. *)
Definition inv {A} (I : Xynae -> World -> Prop) (c : M A) : Prop :=
  triple I c (fun _ => I).

(** [c] keeps [I] and does not raise. *)
Definition total {A} (I : Xynae -> World -> Prop) (c : M A) : Prop :=
  triple I c (fun r x w => I x w /\ exists a, r = Returned a).

(** A store object that says it is connected has its database. *)
Definition db_sound (d : DB.XynaeDatabase) : bool :=
  implb (DB.connected d) (bool_decide (is_Some (DB.db d))).

Definition store_sound (x : Xynae) : bool :=
  match db x with
  | Some d => db_sound d
  | None => true
  end.

(** The server behind the store, if there is one, answers every round trip
    from now on. *)
Definition store_answers (x : Xynae) : bool :=
  match db x with
  | Some d => DB.answers d
  | None => true
  end.

(** A sound store whose server answers. *)
Definition store_ready (x : Xynae) : bool := store_sound x && store_answers x.

(** What a computation that only thinks leaves alone: the platform
    client, the dedup set, the calls to the platform and the sleeps; and a
    sound store stays sound and as active as it was, and one whose server
    answers stays so. *)
Definition quiet (x0 : Xynae) (w0 : World) (x : Xynae) (w : World) : Prop :=
  twitter_client x = twitter_client x0 /\
  replied_tweets x = replied_tweets x0 /\
  store_sound x = store_sound x0 /\
  db_active x = db_active x0 /\
  tweet_calls w = tweet_calls w0 /\
  sleep_calls w = sleep_calls w0 /\
  (store_answers x0 = true -> store_answers x = true).

(** The documents of the [tweets] collection. *)
Definition stored_tweets (x : Xynae) : list DB.TweetDoc :=
  match db x with
  | Some d => match DB.db d with
              | Some c => DB.tweets c
              | None => []
              end
  | None => []
  end.

(** The documents of the [mentions] and [replies] collections. *)
Definition stored_mentions (x : Xynae) : list DB.MentionDoc :=
  match db x with
  | Some d => DB.mentions_of d
  | None => []
  end.

Definition stored_replies (x : Xynae) : list DB.ReplyDoc :=
  match db x with
  | Some d => DB.replies_of d
  | None => []
  end.

(** The dedup state of a mention id: the store when it is connected, the
    in-memory set otherwise. *)
Definition already_replied (x : Xynae) (tweet_id : pystr) : bool :=
  if db_active x then DB.find_replied tweet_id (stored_mentions x)
  else bool_decide (tweet_id ∈ replied_tweets x).

(** A [set] holds what was added to it, in whatever order. *)
Definition set_faithful (env : Env) : Prop :=
  forall k s y, y ∈ hash_place env k s <-> y = k \/ y ∈ s.

(** The platform client raises nothing but [TweepyException]. *)
Definition tweepy_only (env : Env) : Prop :=
  forall w text r e,
    create_tweet env w text r = Raised e -> exn_cls e = TweepyException.

(** The object once a mention is recorded (when the store is connected),
    and once it is marked replied: in the store, or else in the set. *)
Definition mention_recorded (env : Env) (w : World) (m : Mention)
    (username : pystr) (x : Xynae) : Xynae :=
  match db x with
  | Some d =>
      if DB.connected d then
        set_store x
          (DB.save_mention d (utcnow env w) (py_str (mention_id m))
             (mention_text m) username (py_str (mention_author_id m)) false).2
      else x
  | None => x
  end.

Definition marked_replied (env : Env) (w : World) (tweet_id text username
    reply_text : pystr) (reply_tweet_id : option pystr) (x : Xynae) : Xynae :=
  let in_memory :=
    mk_xynae (llm_manager x) (db x) (agents_seen x) (conversation_history x)
      (twitter_client x) (set_add env tweet_id (replied_tweets x))
      (personality x) in
  match db x with
  | Some d =>
      if DB.connected d then
        set_store x
          (DB.save_reply (DB.mark_mention_replied d (utcnow env w) tweet_id).2
             (utcnow env w) tweet_id text username reply_text
             reply_tweet_id).2
      else in_memory
  | None => in_memory
  end.

(** A mention id that is marked replied in a connected store: [kept] are
    its documents, [calls] the platform calls made before. *)
Definition marked (tweet_id : pystr) (id : Z) (kept : list DB.MentionDoc)
    (calls : list Publish) (x : Xynae) (w : World) : Prop :=
  store_sound x = true /\ db_active x = true /\
  DB.find_replied tweet_id (stored_mentions x) = true /\
  filter (fun doc => DB.mention_tweet_id doc = tweet_id) (stored_mentions x)
  = kept /\
  exists more, tweet_calls w = calls ++ more /\
               Forall (fun p => in_reply_to p <> Some id) more.

(** A mention id whose replies do not get through: its dedup state is not
    set, no reply record of it is added to [kept], and if a reply to it has
    been attempted since [calls] and the store is connected ([active]), the
    store holds it as not replied. *)
Definition unanswered (tweet_id : pystr) (id : Z) (client active : bool)
    (kept : list DB.ReplyDoc) (calls : list Publish) (x : Xynae) (w : World)
    : Prop :=
  store_ready x = true /\ twitter_client x = client /\
  db_active x = active /\
  already_replied x tweet_id = false /\
  filter (fun r => DB.original_tweet_id r = tweet_id) (stored_replies x) = kept /\
  exists more,
    tweet_calls w = calls ++ more /\
    ((exists text, mk_publish text (Some id) ∈ more) ->
     active = true ->
     exists doc, doc ∈ stored_mentions x /\
                 DB.mention_tweet_id doc = tweet_id /\ DB.replied doc = false).

(** A reply to [id] has been attempted since [calls]. *)
Definition attempted (id : Z) (calls : list Publish) (w : World) : Prop :=
  exists more text,
    tweet_calls w = calls ++ more /\ mk_publish text (Some id) ∈ more.

(** A reply to [id] has been attempted since [calls], or its dedup state is
    still not set. *)
Definition pending (tweet_id : pystr) (id : Z) (calls : list Publish)
    (x : Xynae) (w : World) : Prop :=
  store_ready x = true /\
  (exists more, tweet_calls w = calls ++ more) /\
  (attempted id calls w \/ already_replied x tweet_id = false).

(** The world after one more [create_tweet] call, and after one more
    sleep. *)
Definition called (w : World) (p : Publish) : World :=
  mk_world (llm_calls w) (tweet_calls w ++ [p]) (sleep_calls w) (draws w).

Definition slept (w : World) (d : Z) : World :=
  mk_world (llm_calls w) (tweet_calls w) (sleep_calls w ++ [d]) (draws w).

(** Work on the collections that leaves the failures to come alone. *)
Definition keeps_failures {A} (f : DB.Collections -> A * DB.Collections)
    : Prop :=
  forall c, DB.failures (f c).2 = DB.failures c.

(** A store operation that keeps the connection flag and the soundness of
    the store object, and leaves a server that answers answering; and one
    that does not raise on a connected store whose server answers. *)
Definition gentle {A} (op : DB.XynaeDatabase -> outcome A * DB.XynaeDatabase)
    : Prop :=
  forall d, DB.connected (op d).2 = DB.connected d /\
            db_sound (op d).2 = db_sound d /\
            (DB.answers d = true -> DB.answers (op d).2 = true).

Definition unfailing {A} (op : DB.XynaeDatabase -> outcome A * DB.XynaeDatabase)
    : Prop :=
  forall d, DB.connected d = true -> db_sound d = true ->
            DB.answers d = true ->
            exists a, (op d).1 = Returned a.

(** An invariant for which a quiet computation changes nothing, and which
    holds only of a sound store whose server answers. *)
Record Calm (I : Xynae -> World -> Prop) : Prop := mk_calm {
  calm_quiet : forall x w x' w', I x w -> quiet x w x' w' -> I x' w';
  calm_sound : forall x w, I x w -> store_sound x = true;
  calm_answers : forall x w, I x w -> store_answers x = true
}.

(** The store is sound and its server answers, the platform client is as
    it was, and every sleep since [w0] is the five-second pause between two
    replies. *)
Definition paced (client : bool) (w0 : World) (x : Xynae) (w : World) : Prop :=
  store_sound x = true /\ store_answers x = true /\
  twitter_client x = client /\
  exists pauses, Forall (eq 5%Z) pauses /\
                 sleep_calls w = sleep_calls w0 ++ pauses.

(** [c] returns wherever [J] holds, keeps [J], and its value satisfies
    [P]. *)
Definition steps {A} (J : Xynae -> World -> Prop) (c : M A) (P : A -> Prop)
    : Prop :=
  triple J c (fun r x w => J x w /\ exists a, r = Returned a /\ P a).

(** A label of the trace that belongs to a registered provider. *)
Definition registered (m : LLM.LLMProviderManager) (label : pystr) : Prop :=
  exists np, np ∈ LLM.providers m /\ LLM.prov_label np.2 = label.

(** Documents from the newest to the oldest. *)
Definition newest_to_oldest {A} (key : A -> Z) : list A -> Prop :=
  StronglySorted (fun a b => (key b <= key a)%Z).

(** What a run may change of the object [x0] it started from: not the
    provider manager, the personality, the platform client or which dedup
    source is active; of the two dedup sources only the active one; the
    history beyond five entries never; the entity count by [budget] at
    most, upwards. *)
Definition evolves (budget : Z) (x0 x : Xynae) : Prop :=
  llm_manager x = llm_manager x0 /\ personality x = personality x0 /\
  twitter_client x = twitter_client x0 /\
  db_active x = db_active x0 /\
  (if db_active x0 then replied_tweets x = replied_tweets x0
   else db x = db x0) /\
  (length (conversation_history x0) <= 5 ->
   length (conversation_history x) <= 5) /\
  (agents_seen x0 <= agents_seen x <= agents_seen x0 + budget)%Z.

(** The [create_tweet] calls so far are [calls]. *)
Definition at_calls (calls : list Publish) (x : Xynae) (w : World) : Prop :=
  tweet_calls w = calls.

(** The mentions a check fetches in the state it starts from. *)
Definition fetched_mentions (env : Env) (x : Xynae) (w : World)
    : list Mention :=
  if twitter_client x then
    match get_me env w with
    | Returned (Some (my_user_id, _)) =>
        match get_users_mentions env w my_user_id 10 with
        | Returned mentions => mentions
        | Raised _ => []
        end
    | _ => []
    end
  else [].

(** The [create_tweet] calls [calls] are replies to the mentions
    [answered], one each and in that order. *)
Definition replies_to (answered : list Mention) (calls : list Publish) : Prop :=
  in_reply_to <$> calls = (Some ∘ mention_id) <$> answered.

(** Adding a key to a [set] gives its old keys and the new one, in some
    order. *)
Definition set_like (env : Env) : Prop :=
  forall k s, hash_place env k s ≡ₚ k :: s.


(** The platform publishes every reply to the tweet [id]. *)
Definition accepts (env : Env) (id : Z) : Prop :=
  forall w text, exists r, create_tweet env w text (Some id) = Returned r.

(** The reply documents of the store that answer the tweet [tweet_id], and
    the [create_tweet] calls made in reply to the tweet [id]. *)
Definition replies_recorded (tweet_id : pystr) (x : Xynae)
    : list DB.ReplyDoc :=
  filter (fun r => DB.original_tweet_id r = tweet_id) (stored_replies x).

Definition replies_called (id : Z) (calls : list Publish) : list Publish :=
  filter (fun p => in_reply_to p = Some id) calls.

(** Since the store held [kept] as the reply documents of the mention [id]
    and the [create_tweet] calls were [calls], the connected store has
    gained one reply document of [id] at most, with [id] marked replied
    once it has; where every reply to [id] gets through ([accepting]), the
    calls in reply to [id] are as many as the documents gained. *)
Definition answered_once (accepting : Prop) (id : Z) (kept : list DB.ReplyDoc)
    (calls : list Publish) (x : Xynae) (w : World) : Prop :=
  store_ready x = true /\ db_active x = true /\
  exists more,
    tweet_calls w = calls ++ more /\
    ((replies_recorded (py_str id) x = kept /\
      (accepting -> replies_called id more = [])) \/
     (exists doc,
        replies_recorded (py_str id) x = kept ++ [doc] /\
        DB.find_replied (py_str id) (stored_mentions x) = true /\
        (accepting -> length (replies_called id more) = 1))).

(** What the scheduled post and the sleeps of an iteration do since
    [x0], [w0]: the store stays as sound and as active, its mentions and
    replies stay, and every [create_tweet] call is a post, not a reply. *)
Definition posts_only (x0 : Xynae) (w0 : World) (x : Xynae) (w : World)
    : Prop :=
  store_sound x = store_sound x0 /\
  (store_answers x0 = true -> store_answers x = true) /\
  db_active x = db_active x0 /\
  stored_mentions x = stored_mentions x0 /\
  stored_replies x = stored_replies x0 /\
  exists posts, tweet_calls w = tweet_calls w0 ++ posts /\
                Forall (fun p => in_reply_to p = None) posts.

(** A store operation that leaves the mentions and the replies alone. *)
Definition keeps_dedup {A}
    (op : DB.XynaeDatabase -> outcome A * DB.XynaeDatabase) : Prop :=
  forall d, DB.mentions_of (op d).2 = DB.mentions_of d /\
            DB.replies_of (op d).2 = DB.replies_of d.

(** The [create_tweet] calls that are posts, not replies. *)
Definition posted (calls : list Publish) : list Publish :=
  filter (fun p => in_reply_to p = None) calls.

(** Since the [create_tweet] calls were [calls], the posts made are
    [posts]. *)
Definition posts_are (calls posts : list Publish) (x : Xynae) (w : World)
    : Prop :=
  exists more, tweet_calls w = calls ++ more /\ posted more = posts.
End Core.

(** ** cli.py *)
Module CLI.

(** The parsed command line. *)
Record Args := mk_cli_args {
  llm_provider : option pystr;
  mongodb_uri : option pystr;
  database_name : option pystr;      (* default 'xynae' *)
  no_database : bool;
  tweet_interval : option Z;         (* minutes *)
  check_interval : option Z;         (* minutes *)
  type : option pystr;
  language : option pystr;
  count : Z;                         (* default 1 *)
  output : option pystr;
  personality_file : option pystr
}.

(** The files a command reads and writes. *)
Record Files := mk_files {
  read_file : pystr -> outcome pystr;
  write_file : pystr -> pystr -> outcome unit
}.

(** [args.x * 60 if args.x else default]. *)
Definition interval_seconds (minutes : option Z) (default_seconds : Z) : Z :=
  match minutes with
  | Some m => if (m =? 0)%Z then default_seconds else (m * 60)%Z
  | None => default_seconds
  end.

(** The keyword arguments [cmd_run] and [cmd_generate] build for
    [Xynae(...)]; what they leave out takes the constructor's default. *)
Definition xynae_kwargs (args : Args) (personality : option pystr)
    : Core.InitArgs :=
  Core.mk_args None None None None personality None
    (default (u "auto") (truthy (llm_provider args)))
    (truthy (mongodb_uri args))
    (default (u "xynae") (truthy (database_name args)))
    (negb (no_database args)).

(** [cmd_run]: the status of [sys.exit], [None] while the loop still runs
    after [n] iterations. *)
Definition cmd_run (env : Core.Env) (su : Core.Startup) (args : Args) (n : nat)
    (w : Core.World) : option Z * Core.World :=
  let tweet_interval := interval_seconds (tweet_interval args) 1200 in
  let check_interval := interval_seconds (check_interval args) 300 in
  match Core.__init__ env su (xynae_kwargs args None) w with
  | (Raised _, w') => (Some 1%Z, w')
  | (Returned xynae, w') =>
      let '(_, _, w'') :=
        Core.run env n tweet_interval check_interval xynae w' in
      (None, w'')
  end.

(** [for i in range(count): tweets.append(xynae.generate_tweet(...))]. *)
Fixpoint generate_tweets (env : Core.Env) (count : nat)
    (tweet_type language : pystr) : Core.M (list pystr) :=
  match count with
  | O => Core.ret []
  | S count' =>
      Core.bind (Core.generate_tweet env tweet_type language) (fun tweet =>
      Core.bind (generate_tweets env count' tweet_type language) (fun tweets =>
      Core.ret (tweet :: tweets)))
  end.

(** [cmd_generate]: the status of [sys.exit], or the tweets returned. *)
Definition cmd_generate (env : Core.Env) (su : Core.Startup) (files : Files)
    (args : Args) (w : Core.World) : (Z + list pystr) * Core.World :=
  let personality :=
    match truthy (personality_file args) with
    | Some path =>
        match read_file files path with
        | Returned text => Returned (Some text)
        | Raised e => Raised e
        end
    | None => Returned None
    end in
  match personality with
  | Raised _ => (inl 1%Z, w)
  | Returned personality =>
      match Core.__init__ env su (xynae_kwargs args personality) w with
      | (Raised _, w') => (inl 1%Z, w')
      | (Returned xynae, w') =>
          let tweet_type := default (u "insight") (truthy (type args)) in
          let language := default (u "auto") (truthy (language args)) in
          let count := if (count args =? 0)%Z then 1%Z else count args in
          match generate_tweets env (Z.to_nat count) tweet_type language
                  xynae w' with
          | (Raised _, _, w'') => (inl 1%Z, w'')
          | (Returned tweets, _, w'') =>
              match truthy (output args) with
              | Some path =>
                  match write_file files path
                          (concat (map (fun tweet => tweet ++ Core.nl ++ Core.nl)
                                     tweets)) with
                  | Returned _ => (inr tweets, w'')
                  | Raised _ => (inl 1%Z, w'')
                  end
              | None => (inr tweets, w'')
              end
          end
      end
  end.

End CLI.

(** * Scenarios

    Concrete back ends, stores and platforms on which the program is run
    below. *)
Module Scenario.

(** A back end that always raises, and one that always answers. *)
Definition failing (label msg : string) : LLM.LLMProvider :=
  LLM.mk_provider (u label) (fun _ _ => Raised (mk_exn PyException (u msg))).

Definition answering (label text : string) : LLM.LLMProvider :=
  LLM.mk_provider (u label) (fun _ _ => Returned (u text)).

Definition a_call : LLM.GenCall := LLM.mk_call (u "Say hello.") 150 (9 # 10).

(** Anthropic is down, OpenAI answers, Gemini has no key. *)
Definition anthropic_down : LLM.ProviderEnv :=
  LLM.mk_provider_env
    (LLM.ProbeAvailable (failing "anthropic" "overloaded"))
    (LLM.ProbeAvailable (answering "openai" "hello"))
    LLM.ProbeUnavailable.

(** Every back end is down, each with an error of its own. *)
Definition all_down : LLM.ProviderEnv :=
  LLM.mk_provider_env
    (LLM.ProbeAvailable (failing "anthropic" "anthropic overloaded"))
    (LLM.ProbeAvailable (failing "openai" "openai rate limit"))
    (LLM.ProbeAvailable (failing "gemini" "gemini quota")).

(** A store whose server cannot be reached. *)
Definition no_getenv : pystr -> option pystr := fun _ => None.

Definition offline_store : DB.XynaeDatabase :=
  DB.__init__ no_getenv None (u "xynae")
    (Raised (mk_exn PyException (u "connection refused"))).

(** The platform's error. *)
Definition forbidden : exn := mk_exn TweepyException (u "403 Forbidden").

(** A clock that starts at 2000 and moves by the sleeps carried out, each
    of which takes one tick more than asked. *)
Definition clock (w : Core.World) : Z :=
  (2000 + fold_right (fun d acc => (if d <? 0 then 0 else d + 1) + acc) 0
            (Core.sleep_calls w))%Z.

(** A platform, parametrised by the mentions it returns and by what
    [create_tweet] answers.  New [set] keys iterate last; every random word
    is 0. *)
Definition platform (mentions : Core.World -> list Core.Mention)
    (create_tweet : Core.World -> pystr -> option Z -> outcome (option Z))
    : Core.Env :=
  Core.mk_env (fun _ => 0%N) clock clock (fun _ => u "09:00 AM")
    (fun k s => s ++ [k])
    (fun _ => Returned (Some (42%Z, u "xynae")))
    (fun w _ _ => Returned (mentions w))
    (fun _ _ => Returned (Some (u "alice")))
    create_tweet.

(** Publishing always fails. *)
Definition closed_platform : Core.Env :=
  platform (fun _ => []) (fun _ _ _ => Raised forbidden).

(** Publishing works once and fails from then on. *)
Definition flaky_platform : Core.Env :=
  platform (fun _ => []) (fun w _ _ =>
    match Core.tweet_calls w with
    | [] => Returned (Some 9001%Z)
    | _ => Raised forbidden
    end).

(** A process with all four platform credentials set, Anthropic answering
    and no database server. *)
Definition credentials (name : pystr) : option pystr :=
  if decide (name = u "MONGODB_URI") then None
  else if decide (name = u "MONGODB_CONNECTION_STRING") then None
  else Some (u "secret").

Definition one_backend : LLM.ProviderEnv :=
  LLM.mk_provider_env (LLM.ProbeAvailable (answering "anthropic" "gm"))
    LLM.ProbeUnavailable LLM.ProbeUnavailable.

Definition startup : Core.Startup :=
  Core.mk_startup true true credentials one_backend
    (Raised (mk_exn PyException (u "connection refused"))).

(** The same process when [llm_providers] or [database] failed to import. *)
Definition broken_install : Core.Startup :=
  Core.mk_startup true false credentials one_backend
    (Raised (mk_exn PyException (u "connection refused"))).

(** The caller asks for no store: [Xynae(use_database=False)]. *)
Definition memory_only_args : Core.InitArgs :=
  Core.mk_args None None None None None None (u "auto") None (u "xynae") false.

(** A process with no LLM key at all. *)
Definition no_backend : LLM.ProviderEnv :=
  LLM.mk_provider_env LLM.ProbeUnavailable
    (LLM.ProbeRaises (mk_exn ImportError (u "OpenAI package not installed. Run: pip install openai")))
    LLM.ProbeUnavailable.

Definition keyless_startup : Core.Startup :=
  Core.mk_startup true true credentials no_backend
    (Raised (mk_exn PyException (u "connection refused"))).

(** The agent these processes construct. *)
Definition bot (env : Core.Env) : Core.Xynae :=
  match Core.__init__ env startup Core.default_args Core.initial_world with
  | (Returned x, _) => x
  | (Raised _, _) =>
      Core.mk_xynae (LLM.mk_manager [] []) None 0 [] false [] []
  end.

(** Agents whose only back end answers 300 characters, or is down. *)
Definition verbose_bot : Core.Xynae :=
  Core.mk_xynae
    (LLM.mk_manager
       [(u "anthropic",
         LLM.mk_provider (u "anthropic")
           (fun _ _ => Returned (repeat 97%N 300)))]
       (u "auto"))
    None 8000 [] true [] Core.default_personality.

Definition mute_bot : Core.Xynae :=
  Core.mk_xynae
    (LLM.mk_manager [(u "anthropic", failing "anthropic" "overloaded")]
       (u "auto"))
    None 8000 [] true [] Core.default_personality.

(** The same process with a database server that answers. *)
Definition online_startup : Core.Startup :=
  Core.mk_startup true true credentials one_backend
    (Returned DB.empty_collections).

Definition online_bot (env : Core.Env) : Core.Xynae :=
  match Core.__init__ env online_startup Core.default_args Core.initial_world with
  | (Returned x, _) => x
  | (Raised _, _) =>
      Core.mk_xynae (LLM.mk_manager [] []) None 0 [] false [] []
  end.

(** A platform with no mentions that publishes every post. *)
Definition open_platform : Core.Env :=
  platform (fun _ => []) (fun _ _ _ => Returned (Some 9001%Z)).

(** A database server that answers the connection and fails every round
    trip after it, and the agent of that process. *)
Definition lost_server : DB.Collections :=
  DB.mk_collections [] [] [] [] 0
    (repeat (Some (u "connection closed")) 8).

Definition lost_startup : Core.Startup :=
  Core.mk_startup true true credentials one_backend (Returned lost_server).

Definition lost_bot (env : Core.Env) : Core.Xynae :=
  match Core.__init__ env lost_startup Core.default_args Core.initial_world with
  | (Returned x, _) => x
  | (Raised _, _) =>
      Core.mk_xynae (LLM.mk_manager [] []) None 0 [] false [] []
  end.

(** Mention "123", a platform that returns it at every check and publishes
    every reply, and one that returns it and refuses every publish. *)
Definition mention_123 : Core.Mention :=
  Core.mk_mention_obj 123 (u "@xynae are you there?") 7.

Definition open_inbox : Core.Env :=
  platform (fun _ => [mention_123]) (fun _ _ _ => Returned (Some 9001%Z)).

Definition closed_inbox : Core.Env :=
  platform (fun _ => [mention_123]) (fun _ _ _ => Raised forbidden).

(** Mention "7" comes before mention "123"; the publish of a reply to "7"
    fails on the network, every other one goes through. *)
Definition mention_7 : Core.Mention :=
  Core.mk_mention_obj 7 (u "@xynae hello") 8.

Definition crowded_inbox : Core.Env :=
  platform (fun _ => [mention_7; mention_123]) (fun _ _ reply_to =>
    if decide (reply_to = Some 7%Z)
    then Raised (mk_exn PyException (u "Connection reset by peer"))
    else Returned (Some 9002%Z)).

(** The agent and the world after a first check cycle that replied to
    mention "123". *)
Definition after_first_check : Core.Xynae * Core.World :=
  let '(_, x', w') :=
    Core.check_and_reply_to_mentions open_inbox (online_bot open_inbox)
      Core.initial_world in
  (x', w').

Definition replied_agent : Core.Xynae := after_first_check.1.
Definition replied_world : Core.World := after_first_check.2.

(** A busy inbox: ten new mentions at each check until a hundred replies
    went out, one new mention at each check after that. *)
Definition inbox (w : Core.World) : list Core.Mention :=
  let n := Z.of_nat (length (Core.tweet_calls w)) in
  if (n <? 100)%Z then
    map (fun i => Core.mk_mention_obj (n + Z.of_nat i) (u "hi @xynae") 7)
      (seq 1 10)
  else [Core.mk_mention_obj (n + 1) (u "hi @xynae") 7].

(** The platform of that inbox; every reply is published.  [place] is
    where a key new to a [set] lands in its iteration order. *)
Definition busy_platform (place : pystr -> list pystr -> list pystr)
    : Core.Env :=
  Core.mk_env (fun _ => 0%N) clock clock (fun _ => u "09:00 AM") place
    (fun _ => Returned (Some (42%Z, u "xynae")))
    (fun w _ _ => Returned (inbox w))
    (fun _ _ => Returned (Some (u "alice")))
    (fun _ _ _ => Returned (Some 9001%Z)).

(** Two hash orders: a new key iterates first, or last. *)
Definition newest_first (k : pystr) (s : list pystr) : list pystr := k :: s.
Definition newest_last (k : pystr) (s : list pystr) : list pystr := s ++ [k].

(** [n] check cycles in a row. *)
Fixpoint check_cycles (n : nat) (env : Core.Env) (x : Core.Xynae)
    (w : Core.World) : Core.Xynae * Core.World :=
  match n with
  | O => (x, w)
  | S n' =>
      let '(_, x', w') := Core.check_and_reply_to_mentions env x w in
      check_cycles n' env x' w'
  end.

(** Anthropic and OpenAI are down, Gemini answers. *)
Definition gemini_only_up : LLM.ProviderEnv :=
  LLM.mk_provider_env
    (LLM.ProbeAvailable (failing "anthropic" "overloaded"))
    (LLM.ProbeAvailable (failing "openai" "rate limit"))
    (LLM.ProbeAvailable (answering "gemini" "hello")).

(** An agent that prefers OpenAI while only Anthropic is configured; it has
    no platform client and no store. *)
Definition misdirected_bot : Core.Xynae :=
  Core.mk_xynae (LLM.__init__ one_backend (u "openai")) None 8000 [] false []
    Core.default_personality.

(** A store whose server answers: empty, and with two tweets saved at times
    1 and 2. *)
Definition online_store : DB.XynaeDatabase :=
  DB.__init__ no_getenv None (u "xynae") (Returned DB.empty_collections).

Definition two_tweets : DB.Collections :=
  DB.mk_collections
    [ DB.mk_tweet (u "gm") (u "insight") (u "english") true (Some (u "9001"))
        1 2;
      DB.mk_tweet (u "gn") (u "insight") (u "english") false None 2 2 ]
    [] [] [] 2 [].

Definition tweeting_store : DB.XynaeDatabase :=
  DB.set_db online_store two_tweets.

(** A command line with nothing but defaults, and files that do not
    exist. *)
Definition bare_command : CLI.Args :=
  CLI.mk_cli_args None None (Some (u "xynae")) false None None None None 1
    None None.

Definition no_files : CLI.Files :=
  CLI.mk_files
    (fun _ => Raised (mk_exn PyException (u "No such file or directory")))
    (fun _ _ => Raised (mk_exn PyException (u "Permission denied"))).

End Scenario.

(** * Properties *)

(** ** Provider fallback *)
Section ProviderFallback.

Import LLM.

Lemma dict_get_set_same {V} (d : list (pystr * V)) k v :
  dict_get (dict_set d k v) k = Some v.
Proof.
  induction d as [|[k' v'] d IH]; simpl.
  - by rewrite decide_True.
  - destruct (decide (k' = k)) as [->|Hne]; simpl.
    + by rewrite decide_True.
    + by rewrite decide_False.
Qed.

(** The fallback loop only ever appends to the trace of calls. *)
Lemma fallback_extends skip c ps log :
  ∃ more, (fallback skip c ps log).2 = log ++ more.
Proof.
  revert log. induction ps as [|[name prov] rest IH]; intros log; simpl.
  - exists []. by rewrite app_nil_r.
  - destruct (decide (name = skip)); [apply IH|].
    destruct (prov_generate prov log c); simpl.
    + by exists [prov_label prov].
    + destruct (IH (log ++ [prov_label prov])) as [more Hm].
      exists (prov_label prov :: more). rewrite Hm. by rewrite <- app_assoc.
Qed.

(** In auto mode the skip key is the word "auto", which names no provider:
    when the first registered provider fails, the next call goes to that
    same provider. *)
Lemma generate_auto_calls_first_twice m c name p rest log e :
  preferred_provider m = u "auto" →
  providers m = (name, p) :: rest →
  name ≠ u "auto" →
  prov_generate p log c = Raised e →
  ∃ more, (generate m c None log).2 = log ++ [prov_label p; prov_label p] ++ more.
Proof.
  intros Hauto Hps Hname Hfail.
  unfold generate, get_provider. simpl truthy. cbv iota.
  rewrite Hauto. rewrite decide_True by done. rewrite Hps.
  unfold call at 1. rewrite Hfail.
  cbn [fallback]. rewrite decide_False by done.
  unfold call at 1.
  destruct (prov_generate p (log ++ [prov_label p]) c) as [t|e'].
  - exists []. simpl. by rewrite <- app_assoc.
  - destruct (fallback_extends (u "auto") c rest
                ((log ++ [prov_label p]) ++ [prov_label p])) as [more Hm].
    exists more.
    destruct (fallback (u "auto") c rest _) as [[t|] log2] eqn:Hfb;
      simpl in *; subst log2; by rewrite <- !app_assoc.
Qed.

(** When [generate] gives up, the error it raises quotes the error of the
    provider that was selected first, whatever the fallbacks raised. *)
Lemma generate_gives_up_with_first_error m c provider log p e e' log' :
  get_provider m provider = Returned p →
  prov_generate p log c = Raised e →
  generate m c provider log = (Raised e', log') →
  e' = mk_exn PyException (u "All LLM providers failed. Last error: " ++ exn_msg e).
Proof.
  intros Hget Hfail. unfold generate. rewrite Hget. unfold call at 1.
  rewrite Hfail.
  destruct (fallback _ c (providers m) _) as [[t|] log2]; intros H; by inversion H.
Qed.

(** The fallback loop over providers that all fail, up to one that answers:
    the providers not skipped are called once each, in registration order,
    and the answer is returned. *)
Lemma fallback_first_success skip c before name ok rest text log :
  Forall (λ np, np.1 = skip ∨ ∀ l, ∃ e, prov_generate np.2 l c = Raised e)
    before →
  name ≠ skip → (∀ l, prov_generate ok l c = Returned text) →
  fallback skip c (before ++ (name, ok) :: rest) log
  = (Some text,
     log ++ (prov_label ∘ snd <$> filter (λ np, np.1 ≠ skip) before)
         ++ [prov_label ok]).
Proof.
  intros Hbefore Hname Hok. revert log.
  induction Hbefore as [|[n p] before Hp _ IH]; intros log;
    cbn [app fallback].
  - rewrite decide_False by done. unfold call. by rewrite Hok.
  - rewrite filter_cons. cbn [fst]. destruct (decide (n = skip)) as [->|Hn].
    + rewrite decide_False by tauto. apply IH.
    + rewrite decide_True by done. destruct Hp as [?|Hp]; [done|].
      unfold call at 1. cbn [snd] in Hp. destruct (Hp log) as [e ->].
      rewrite IH. cbn. by rewrite <- app_assoc.
Qed.

(** With a preferred provider that is named (not "auto"), C1 holds: when it
    and the providers registered before [ok] fail and [ok] answers,
    [generate] returns the answer after one call to each of them, the
    preferred provider first and never again. *)
Lemma generate_named_fallback m c selected before name ok rest text log :
  preferred_provider m ≠ u "auto" →
  dict_get (providers m) (preferred_provider m) = Some selected →
  providers m = before ++ (name, ok) :: rest →
  (∀ l, ∃ e, prov_generate selected l c = Raised e) →
  Forall (λ np, np.1 = preferred_provider m ∨
                ∀ l, ∃ e, prov_generate np.2 l c = Raised e) before →
  name ≠ preferred_provider m →
  (∀ l, prov_generate ok l c = Returned text) →
  generate m c None log
  = (Returned text,
     log ++ [prov_label selected]
         ++ (prov_label ∘ snd
               <$> filter (λ np, np.1 ≠ preferred_provider m) before)
         ++ [prov_label ok]).
Proof.
  intros Hauto Hsel Hps Hfail Hbefore Hname Hok.
  unfold generate, get_provider. cbn [truthy].
  rewrite decide_False by done. rewrite Hsel.
  unfold call at 1. destruct (Hfail log) as [e ->].
  rewrite Hps.
  rewrite (fallback_first_success _ c before name ok rest text _ Hbefore Hname Hok).
  by rewrite <- app_assoc.
Qed.

(** C1, at a failing input.  The default manager ("auto") with Anthropic
    and OpenAI registered, Anthropic failing and OpenAI answering: the
    selected provider and zero further ones fail, the next one succeeds, so
    two calls are due; [generate] returns OpenAI's text after three calls,
    the second of which goes to Anthropic again. *)
Theorem generate_auto_retries_failed_provider :
  generate (LLM.__init__ Scenario.anthropic_down (u "auto")) Scenario.a_call None []
  = (Returned (u "hello"), [u "anthropic"; u "anthropic"; u "openai"]).
Proof. vm_compute. reflexivity. Qed.

(** C6, at a failing input.  Anthropic is preferred and all three back ends
    fail; the last error of the fallback chain is Gemini's, and the error
    raised quotes Anthropic's. *)
Theorem generate_all_failed_quotes_first_error :
  generate (LLM.__init__ Scenario.all_down (u "anthropic")) Scenario.a_call None []
  = (Raised (mk_exn PyException
       (u "All LLM providers failed. Last error: anthropic overloaded")),
     [u "anthropic"; u "openai"; u "gemini"]).
Proof. vm_compute. reflexivity. Qed.

End ProviderFallback.

(** ** Rules for computations *)
Section Rules.

Import Core.

Lemma returns_ret {A} (a : A) (P : A → Prop) : P a → returns (ret a) P.
Proof. intros H x w. by exists a, x, w. Qed.

Lemma returns_bind {A B} (c : M A) (k : A → M B) (Q : A → Prop) (P : B → Prop) :
  returns c Q → (∀ a, Q a → returns (k a) P) → returns (bind c k) P.
Proof.
  intros Hc Hk x w. unfold bind.
  destruct (Hc x w) as (a & x' & w' & -> & Ha). by apply Hk.
Qed.

Lemma returns_weaken {A} (c : M A) (P Q : A → Prop) :
  returns c P → (∀ a, P a → Q a) → returns c Q.
Proof.
  intros Hc HPQ x w. destruct (Hc x w) as (a & x' & w' & E & Ha).
  exists a, x', w'. auto.
Qed.

Lemma on_return_ret {A} (a : A) (P : A → Prop) : P a → on_return (ret a) P.
Proof. intros H x w a' x' w' E. unfold ret in E. by simplify_eq. Qed.

Lemma on_return_bind {A B} (c : M A) (k : A → M B) (P : B → Prop) :
  (∀ a, on_return (k a) P) → on_return (bind c k) P.
Proof.
  intros Hk x w b x' w'. unfold bind.
  destruct (c x w) as [[[a|e] x1] w1]; [apply Hk|done].
Qed.

(** A [try] that catches everything returns what its body or its handler
    returns. *)
Lemma returns_try_any {A} (body : M A) (handler : exn → M A) (P : A → Prop) :
  on_return body P → (∀ e, returns (handler e) P) →
  returns (try_except body any_exception handler) P.
Proof.
  intros Hb Hh x w. unfold try_except.
  destruct (body x w) as [[[a|e] x1] w1] eqn:E.
  - exists a, x1, w1. split; [done|]. by eapply Hb.
  - apply Hh.
Qed.

Lemma returns_get_self : returns get_self (λ _, True).
Proof. intros x w. by exists x, x, w. Qed.

Lemma returns_get_world : returns get_world (λ _, True).
Proof. intros x w. by exists w, x, w. Qed.

Lemma returns_random_word env : returns (random_word env) (λ _, True).
Proof. intros x w. by eexists _, _, _. Qed.

Lemma returns_random_random env : returns (random_random env) (λ _, True).
Proof.
  eapply returns_bind; [apply returns_random_word|].
  intros raw _. by apply returns_ret.
Qed.

Lemma returns_random_choice env {A} (dflt : A) l :
  returns (random_choice env dflt l) (λ _, True).
Proof.
  eapply returns_bind; [apply returns_random_word|].
  intros raw _. by apply returns_ret.
Qed.

Lemma returns_random_randint env a b :
  returns (random_randint env a b) (λ r, ∃ raw, r = py_randint a b raw).
Proof.
  eapply returns_bind; [apply returns_random_word|].
  intros raw _. apply returns_ret. by exists raw.
Qed.

Lemma bind_returned {A B} (c : M A) (k : A → M B) x w a x' w' :
  c x w = (Returned a, x', w') → bind c k x w = k a x' w'.
Proof. intros E. unfold bind. by rewrite E. Qed.

Lemma bind_raised {A B} (c : M A) (k : A → M B) x w e x' w' :
  c x w = (Raised e, x', w') → bind c k x w = (Raised e, x', w').
Proof. intros E. unfold bind. by rewrite E. Qed.

Lemma triple_ret {A} P (a : A) (Q : outcome A → Xynae → World → Prop) :
  (∀ x w, P x w → Q (Returned a) x w) → triple P (ret a) Q.
Proof. intros H x w HP. by apply H. Qed.

Lemma triple_bind {A B} P (c : M A) (k : A → M B) R Q :
  triple P c R →
  (∀ a, triple (R (Returned a)) (k a) Q) →
  (∀ e x w, R (Raised e) x w → Q (Raised e) x w) →
  triple P (bind c k) Q.
Proof.
  intros Hc Hk He x w HP. specialize (Hc x w HP). unfold bind.
  destruct (c x w) as [[[a|e] x1] w1]; [by apply Hk|by apply He].
Qed.

Lemma triple_try {A} P (body : M A) catches handler R Q :
  triple P body R →
  (∀ a x w, R (Returned a) x w → Q (Returned a) x w) →
  (∀ e, catches (exn_cls e) = true → triple (R (Raised e)) (handler e) Q) →
  (∀ e x w, catches (exn_cls e) = false → R (Raised e) x w → Q (Raised e) x w) →
  triple P (try_except body catches handler) Q.
Proof.
  intros Hb Hr Hh He x w HP. specialize (Hb x w HP). unfold try_except.
  destruct (body x w) as [[[a|e] x1] w1]; [by apply Hr|].
  destruct (catches (exn_cls e)) eqn:E; [by apply Hh|by apply He].
Qed.

Lemma triple_weaken {A} (P P' : Xynae → World → Prop) (c : M A)
    (Q Q' : outcome A → Xynae → World → Prop) :
  triple P' c Q' → (∀ x w, P x w → P' x w) →
  (∀ r x w, Q' r x w → Q r x w) → triple P c Q.
Proof.
  intros Hc HP HQ x w H. specialize (Hc x w (HP x w H)).
  destruct (c x w) as [[r x1] w1]. by apply HQ.
Qed.

Lemma inv_ret {A} I (a : A) : inv I (ret a).
Proof. by apply triple_ret. Qed.

Lemma inv_bind {A B} I (c : M A) (k : A → M B) :
  inv I c → (∀ a, inv I (k a)) → inv I (bind c k).
Proof. intros Hc Hk. eapply triple_bind; [exact Hc|exact Hk|done]. Qed.

Lemma inv_try {A} I (body : M A) catches handler :
  inv I body → (∀ e, inv I (handler e)) →
  inv I (try_except body catches handler).
Proof.
  intros Hb Hh. eapply triple_try; [exact Hb|done|intros; apply Hh|done].
Qed.

Lemma inv_for_each {A} I (body : A → M unit) items :
  (∀ item, inv I (body item)) → inv I (for_each body items).
Proof.
  intros Hb. induction items as [|item rest IH]; simpl.
  - apply inv_ret.
  - apply inv_bind; [apply Hb|done].
Qed.

Lemma total_inv {A} I (c : M A) : total I c → inv I c.
Proof. intros H. eapply triple_weaken; [exact H|done|]. by intros r x w [? _]. Qed.

Lemma total_ret {A} I (a : A) : total I (ret a).
Proof. apply triple_ret. eauto. Qed.

Lemma total_bind {A B} I (c : M A) (k : A → M B) :
  total I c → (∀ a, total I (k a)) → total I (bind c k).
Proof.
  intros Hc Hk. eapply triple_bind; [exact Hc| |].
  - intros a. eapply triple_weaken; [apply Hk| |done]. by intros x w [? _].
  - intros e x w [_ [a Ha]]. done.
Qed.

(** A [try] that catches everything does not raise if its handler does
    not. *)
Lemma total_try_any {A} I (body : M A) handler :
  inv I body → (∀ e, total I (handler e)) →
  total I (try_except body any_exception handler).
Proof.
  intros Hb Hh. eapply triple_try; [exact Hb| | |done].
  - intros a x w H. eauto.
  - intros e _. apply Hh.
Qed.

Lemma total_returns {A} I (c : M A) x w :
  total I c → I x w →
  ∃ a x' w', c x w = (Returned a, x', w') ∧ I x' w'.
Proof.
  intros Hc HI. specialize (Hc x w HI).
  destruct (c x w) as [[r x1] w1]. destruct Hc as [HI' [a ->]]. eauto.
Qed.

End Rules.

(** ** The store when it is not connected *)
Section StoreGuards.

Import DB.

(** C9.  When the store is not connected, each of the eight operations
    returns its sentinel ([None], [False], the empty list, the
    connected-false statistics), does not raise, and leaves the store record
    and every collection behind it as they were. *)
Theorem disconnected_store_is_inert (d : XynaeDatabase) :
  is_connected d = false →
  (∀ now text type lang posted id,
     save_tweet d now text type lang posted id = (Returned None, d)) ∧
  (∀ now orig_id orig_text user reply reply_id,
     save_reply d now orig_id orig_text user reply reply_id = (Returned None, d)) ∧
  (∀ now id text user author flag,
     save_mention d now id text user author flag = (Returned None, d)) ∧
  (∀ now id, mark_mention_replied d now id = (Returned tt, d)) ∧
  (∀ id, is_tweet_replied d id = (Returned false, d)) ∧
  (∀ now type content meta,
     save_conversation d now type content meta = (Returned None, d)) ∧
  (∀ limit, get_recent_tweets d limit = (Returned [], d)) ∧
  get_stats d = (Returned [(u "connected", StatBool false)], d).
Proof.
  unfold is_connected. intros Hoff.
  unfold save_tweet, save_reply, save_mention, mark_mention_replied,
    is_tweet_replied, save_conversation, get_recent_tweets, get_stats.
  rewrite Hoff. simpl. repeat split.
Qed.

Lemma disconnected_store_is_inert_witness :
  is_connected Scenario.offline_store = false ∧
  save_tweet Scenario.offline_store 0 (u "gm") (u "insight") (u "english") true None
  = (Returned None, Scenario.offline_store).
Proof.
  split; [reflexivity|].
  apply (disconnected_store_is_inert Scenario.offline_store); reflexivity.
Defined.

End StoreGuards.

(** ** The length of a generated tweet *)
Section TweetLength.

Import Core.

Lemma four_digits_table :
  forallb (λ n, length (py_str (1000 + Z.of_nat n)) =? 4)
    (seq 0 (Z.to_nat 9000)) = true.
Proof. vm_compute. reflexivity. Qed.

(** [str(random.randint(1000, 9999))] has four characters. *)
Lemma randint_four_digits raw : length (py_str (py_randint 1000 9999 raw)) = 4.
Proof.
  unfold py_randint.
  assert (H : (0 <= Z.of_N raw mod (9999 - 1000 + 1) < 9000)%Z)
    by (apply Z.mod_pos_bound; lia).
  set (n := (Z.of_N raw mod (9999 - 1000 + 1))%Z) in *.
  pose proof four_digits_table as T.
  rewrite forallb_forall in T.
  specialize (T (Z.to_nat n)).
  rewrite Z2Nat.id in T by lia.
  apply Nat.eqb_eq, T, in_seq. lia.
Qed.

Lemma dict_get_default_elem {V} (d : list (pystr * V)) k (dflt : V) :
  default dflt (dict_get d k) ∈ dflt :: map snd d.
Proof.
  induction d as [|[k' v] d IH]; simpl; [apply elem_of_cons; by left|].
  case_decide; simpl.
  - apply elem_of_cons; right. apply elem_of_cons; by left.
  - apply elem_of_cons in IH as [->|IH]; apply elem_of_cons; [by left|right].
    apply elem_of_cons; by right.
Qed.

(** Every entry of the fallback table, and the default text, fits. *)
Lemma fallback_tweet_short r1 r2 r3 language tweet_type :
  length (py_str r1) = 4 → length (py_str r2) = 4 → length (py_str r3) = 4 →
  length (fallback_tweet r1 r2 r3 language tweet_type) ≤ 280.
Proof.
  unfold fallback_tweet, fallbacks.
  generalize (py_str r1) (py_str r2) (py_str r3). intros s1 s2 s3 H1 H2 H3.
  match goal with
  | |- length (default ?dv (dict_get (default ?dt (dict_get ?t _)) _)) ≤ _ =>
      pose proof (dict_get_default_elem t language dt) as Ht;
      set (tbl := default dt (dict_get t language)) in *;
      pose proof (dict_get_default_elem tbl tweet_type dv) as Hv;
      set (v := default dv (dict_get tbl tweet_type)) in *
  end.
  clearbody v.
  cbn [dict_get default map snd] in Ht.
  rewrite decide_True in Ht by reflexivity. cbn [default] in Ht.
  clearbody tbl.
  repeat (apply elem_of_cons in Ht as [->|Ht]);
    [ .. | by apply elem_of_nil in Ht ].
  all: cbn [map] in Hv.
  all: repeat (apply elem_of_cons in Hv as [->|Hv]);
    try (by apply elem_of_nil in Hv).
  all: cbn [snd].
  all: rewrite ?length_app, ?H1, ?H2, ?H3.
  all: apply Nat.leb_le; vm_compute; reflexivity.
Qed.

Lemma truncate_tweet_length text : length (truncate_tweet text) ≤ 280.
Proof.
  unfold truncate_tweet. destruct (280 <? length text) eqn:E.
  - rewrite length_app, length_take. change (length (u "...")) with 3. lia.
  - apply Nat.ltb_ge in E. lia.
Qed.

(** [generate_tweet] always returns: either a truncated LLM text or an entry
    of the fallback table with three fresh four-digit numbers. *)
Lemma generate_tweet_returns env tweet_type language :
  returns (generate_tweet env tweet_type language)
    (λ tweet,
       (∃ text, tweet = truncate_tweet text) ∨
       (∃ raw1 raw2 raw3 lang,
          tweet = fallback_tweet (py_randint 1000 9999 raw1)
                    (py_randint 1000 9999 raw2) (py_randint 1000 9999 raw3)
                    lang tweet_type)).
Proof.
  unfold generate_tweet.
  eapply returns_bind; [apply returns_get_self|]. intros x _.
  eapply returns_bind; [apply returns_get_world|]. intros w _.
  cbv zeta.
  eapply returns_bind; [apply returns_random_choice|]. intros event _.
  eapply returns_bind with (Q := λ _, True).
  { case_decide; [|by apply returns_ret].
    eapply returns_bind; [apply returns_random_random|].
    intros; by apply returns_ret. }
  intros lang _.
  apply returns_try_any.
  - repeat (apply on_return_bind; intros).
    apply on_return_ret. left. by eexists.
  - intros _.
    eapply returns_bind; [apply returns_random_randint|]. intros r1 [raw1 ->].
    eapply returns_bind; [apply returns_random_randint|]. intros r2 [raw2 ->].
    eapply returns_bind; [apply returns_random_randint|]. intros r3 [raw3 ->].
    apply returns_ret. right. by exists raw1, raw2, raw3, lang.
Qed.

(** A back end that answers 300 characters: the tweet is the first 277 of
    them and three dots. *)
Lemma generate_tweet_truncates_long_text :
  (generate_tweet Scenario.closed_platform (u "insight") (u "english")
     Scenario.verbose_bot initial_world).1.1
  = Returned (repeat 97%N 277 ++ u "...").
Proof. vm_compute. reflexivity. Qed.

(** With every back end down the tweet is the fallback text of the language
    and the type. *)
Lemma generate_tweet_falls_back :
  (generate_tweet Scenario.closed_platform (u "invitation") (u "mixed")
     Scenario.mute_bot initial_world).1.1
  = Returned (u "Build on Xynae. 构建未来。The network is waiting.").
Proof. vm_compute. reflexivity. Qed.

End TweetLength.

(** ** Computations that leave the platform and the dedup state alone *)
Import Core.

(** A server that answers: its round trips raise nothing and leave it as
    it is. *)
Lemma round_trips_answers trips c :
  DB.failures c = [] → DB.round_trips trips c = (None, c).
Proof. intros H. destruct trips; simpl; [done|]. by rewrite H. Qed.

(** Round trips change nothing but what is left of the failures. *)
Lemma round_trips_keep trips c :
  let c' := (DB.round_trips trips c).2 in
  DB.tweets c' = DB.tweets c ∧ DB.replies c' = DB.replies c ∧
  DB.mentions c' = DB.mentions c ∧ DB.conversations c' = DB.conversations c ∧
  DB.next_oid c' = DB.next_oid c.
Proof.
  revert c. induction trips as [|trips IH]; intros c; simpl; [done|].
  destruct (DB.failures c) as [|[msg|] later]; simpl; [done..|].
  specialize (IH (DB.mk_collections (DB.tweets c) (DB.replies c) (DB.mentions c)
                    (DB.conversations c) (DB.next_oid c) later)).
  simpl in IH. exact IH.
Qed.

(** On a store whose server answers, a method body has the effect of its
    work on the collections. *)
Lemma on_db_in_answers {A} trips d attr (f : DB.Collections → A * DB.Collections)
    c :
  DB.db d = Some c → DB.failures c = [] →
  DB.on_db_in trips d attr f
  = let '(a, c') := f c in (Returned a, DB.set_db d c').
Proof.
  intros Hd Hf. unfold DB.on_db_in. by rewrite Hd, round_trips_answers.
Qed.

Lemma on_db_answers {A} d attr (f : DB.Collections → A * DB.Collections) c :
  DB.db d = Some c → DB.failures c = [] →
  DB.on_db d attr f = let '(a, c') := f c in (Returned a, DB.set_db d c').
Proof. intros Hd Hf. by apply on_db_in_answers. Qed.



Lemma on_db_in_gentle {A} trips attr (f : DB.Collections → A * DB.Collections) :
  keeps_failures f → gentle (λ d, DB.on_db_in trips d attr f).
Proof.
  intros Hf d. unfold DB.on_db_in, db_sound, DB.answers.
  destruct (DB.db d) as [c|] eqn:E; [|simpl; by rewrite E].
  destruct (DB.round_trips trips c) as [[e|] c1] eqn:Er.
  - simpl. split; [done|]. split; [by destruct (DB.connected d)|].
    intros Ha%bool_decide_eq_true.
    rewrite round_trips_answers in Er by done. done.
  - specialize (Hf c1). destruct (f c1) as [a c']. simpl in *.
    split; [done|]. split; [by destruct (DB.connected d)|].
    intros Ha%bool_decide_eq_true.
    rewrite round_trips_answers in Er by done. injection Er as <-.
    apply bool_decide_eq_true. congruence.
Qed.

Lemma on_db_in_unfailing {A} trips attr
    (f : DB.Collections → A * DB.Collections) :
  unfailing (λ d, DB.on_db_in trips d attr f).
Proof.
  intros d Hc Hs Ha. unfold db_sound in Hs. rewrite Hc in Hs. simpl in Hs.
  apply bool_decide_eq_true in Hs as [c Hdb].
  unfold DB.answers in Ha. rewrite Hdb in Ha.
  apply bool_decide_eq_true in Ha.
  rewrite (on_db_in_answers trips d attr f c Hdb Ha).
  destruct (f c) as [a c']. by exists a.
Qed.

(** Every store operation is its guard followed by work on [self.db]. *)
Lemma guarded_in_gentle {A} trips (sentinel : A) attr f :
  keeps_failures f →
  gentle (λ d, if negb (DB.connected d) then (Returned sentinel, d)
               else DB.on_db_in trips d attr f).
Proof.
  intros Hf d. pose proof (on_db_in_gentle trips attr f Hf d) as H.
  destruct (DB.connected d) eqn:E; simpl; [exact H|by rewrite E].
Qed.

Lemma guarded_gentle {A} (sentinel : A) attr f :
  keeps_failures f →
  gentle (λ d, if negb (DB.connected d) then (Returned sentinel, d)
               else DB.on_db d attr f).
Proof. apply guarded_in_gentle. Qed.

Lemma guarded_in_unfailing {A} trips (sentinel : A) attr f :
  unfailing (λ d, if negb (DB.connected d) then (Returned sentinel, d)
                  else DB.on_db_in trips d attr f).
Proof.
  intros d Hc Hs Ha. rewrite Hc. simpl.
  by apply (on_db_in_unfailing trips attr f).
Qed.

Lemma guarded_unfailing {A} (sentinel : A) attr f :
  unfailing (λ d, if negb (DB.connected d) then (Returned sentinel, d)
                  else DB.on_db d attr f).
Proof. apply guarded_in_unfailing. Qed.

(** The store operations are gentle. *)
Lemma save_tweet_gentle now text type lang flag id :
  gentle (λ d, DB.save_tweet d now text type lang flag id).
Proof. by apply guarded_gentle. Qed.

Lemma save_reply_gentle now id text user reply reply_id :
  gentle (λ d, DB.save_reply d now id text user reply reply_id).
Proof. by apply guarded_gentle. Qed.

Lemma save_mention_gentle now id text user author flag :
  gentle (λ d, DB.save_mention d now id text user author flag).
Proof. by apply guarded_gentle. Qed.

Lemma mark_mention_replied_gentle now id :
  gentle (λ d, DB.mark_mention_replied d now id).
Proof. by apply guarded_gentle. Qed.

Lemma is_tweet_replied_gentle id : gentle (λ d, DB.is_tweet_replied d id).
Proof. by apply guarded_gentle. Qed.

Lemma save_conversation_gentle now type content metadata :
  gentle (λ d, DB.save_conversation d now type content metadata).
Proof. by apply guarded_gentle. Qed.

Lemma get_stats_gentle : gentle DB.get_stats.
Proof. intros d. unfold DB.get_stats. by apply guarded_in_gentle. Qed.

Ltac store_op_gentle :=
  first [ apply save_tweet_gentle | apply save_reply_gentle
        | apply save_mention_gentle | apply mark_mention_replied_gentle
        | apply is_tweet_replied_gentle | apply save_conversation_gentle
        | apply get_stats_gentle ].

Lemma quiet_refl x w : quiet x w x w.
Proof. by repeat split. Qed.

Lemma quiet_trans x0 w0 x1 w1 x2 w2 :
  quiet x0 w0 x1 w1 → quiet x1 w1 x2 w2 → quiet x0 w0 x2 w2.
Proof.
  intros (?&?&?&?&?&?&?) (?&?&?&?&?&?&?). repeat split; try congruence. auto.
Qed.

Lemma quiet_set_store x w d d' :
  db x = Some d → DB.connected d' = DB.connected d →
  db_sound d' = db_sound d →
  (DB.answers d = true → DB.answers d' = true) →
  quiet x w (set_store x d') w.
Proof.
  intros E Hc Hs Ha. repeat split; simpl.
  - unfold store_sound. simpl. by rewrite E.
  - unfold db_active, DB.is_connected. simpl. by rewrite E.
  - unfold store_answers. simpl. by rewrite E.
Qed.

Lemma quiet_get_self x0 w0 : inv (quiet x0 w0) get_self.
Proof. by intros x w H. Qed.

Lemma quiet_get_world x0 w0 : inv (quiet x0 w0) get_world.
Proof. by intros x w H. Qed.

Lemma quiet_random_word env x0 w0 : inv (quiet x0 w0) (random_word env).
Proof. by intros x w H. Qed.

Lemma quiet_datetime_utcnow env x0 w0 : inv (quiet x0 w0) (datetime_utcnow env).
Proof. by intros x w H. Qed.

Lemma quiet_set_conversation_history x0 w0 h :
  inv (quiet x0 w0) (set_conversation_history h).
Proof. by intros x w H. Qed.

Lemma quiet_set_agents_seen x0 w0 n : inv (quiet x0 w0) (set_agents_seen n).
Proof. by intros x w H. Qed.

Lemma quiet_llm_generate x0 w0 c : inv (quiet x0 w0) (llm_generate c).
Proof.
  intros x w H. unfold llm_generate.
  by destruct (LLM.generate _ _ _ _) as [r log].
Qed.

Lemma quiet_on_database {A} x0 w0
    (op : DB.XynaeDatabase → outcome A * DB.XynaeDatabase) :
  gentle op → inv (quiet x0 w0) (on_database op).
Proof.
  intros Hop x w H. unfold on_database.
  destruct (db x) as [d|] eqn:E; [|done].
  destruct (Hop d) as (Hcon & Hsound & Hans). destruct (op d) as [r d'].
  eapply quiet_trans; [exact H|]. by eapply quiet_set_store.
Qed.

Create HintDb quiet.
#[local] Hint Resolve quiet_get_self quiet_get_world quiet_random_word
  quiet_datetime_utcnow quiet_set_conversation_history quiet_set_agents_seen
  quiet_llm_generate : quiet.

Ltac walk :=
  repeat first
    [ apply inv_ret
    | apply inv_bind; [|intros ?]
    | apply inv_try; [|intros ?]
    | match goal with
      | |- inv _ (if ?b then _ else _) => destruct b
      | |- inv _ (match ?o with _ => _ end) => destruct o
      end ].

Lemma if_db_connected_quiet env {A}
    (op : Z → DB.XynaeDatabase → outcome A * DB.XynaeDatabase) x0 w0 :
  (∀ now, gentle (op now)) → inv (quiet x0 w0) (if_db_connected env op).
Proof.
  intros Hop. unfold if_db_connected. walk; auto with quiet.
  by apply quiet_on_database.
Qed.

Lemma generate_tweet_quiet env tweet_type language x0 w0 :
  inv (quiet x0 w0) (generate_tweet env tweet_type language).
Proof.
  unfold generate_tweet, random_choice, random_random, random_uniform,
    random_randint, append_history.
  walk; auto with quiet.
  apply quiet_on_database, save_conversation_gentle.
Qed.

Lemma generate_reply_quiet env text username x0 w0 :
  inv (quiet x0 w0) (generate_reply env text username).
Proof.
  unfold generate_reply, random_random, random_uniform.
  walk; auto with quiet.
Qed.

Lemma generate_reply_returns env text username :
  returns (generate_reply env text username) (λ _, True).
Proof.
  unfold generate_reply.
  eapply returns_bind; [apply returns_random_random|]. intros r _. cbv zeta.
  eapply returns_bind; [apply returns_get_self|]. intros x _.
  apply returns_try_any; [done|]. intros _. by apply returns_ret.
Qed.

(** A computation that returns and keeps [I] is total for [I]. *)
Lemma total_of_returns {A} I (c : M A) P : returns c P → inv I c → total I c.
Proof.
  intros Hr Hi x w HI. specialize (Hi x w HI).
  destruct (Hr x w) as (a & x' & w' & E & _). rewrite E in Hi |- *. eauto.
Qed.

(** A quiet computation keeps every calm invariant. *)
Lemma inv_of_quiet {A} I (c : M A) :
  Calm I → (∀ x0 w0, inv (quiet x0 w0) c) → inv I c.
Proof.
  intros HI Hq x w H. specialize (Hq x w x w (quiet_refl x w)).
  destruct (c x w) as [[r x'] w']. by eapply calm_quiet.
Qed.

Lemma generate_tweet_total env I tweet_type language :
  Calm I → total I (generate_tweet env tweet_type language).
Proof.
  intros HI. eapply total_of_returns; [apply generate_tweet_returns|].
  apply inv_of_quiet; [done|]. intros. apply generate_tweet_quiet.
Qed.

Lemma generate_reply_total env I text username :
  Calm I → total I (generate_reply env text username).
Proof.
  intros HI. eapply total_of_returns; [apply generate_reply_returns|].
  apply inv_of_quiet; [done|]. intros. apply generate_reply_quiet.
Qed.

(** On a sound store a guarded store operation does not raise. *)
Lemma if_db_connected_total env I {A}
    (op : Z → DB.XynaeDatabase → outcome A * DB.XynaeDatabase) :
  Calm I → (∀ now, gentle (op now)) → (∀ now, unfailing (op now)) →
  total I (if_db_connected env op).
Proof.
  intros HI Hg Hu x w H.
  pose proof (calm_sound I HI x w H) as Hs.
  pose proof (calm_answers I HI x w H) as Hans.
  unfold if_db_connected, bind, get_self, datetime_utcnow, on_database, ret.
  destruct (db_active x) eqn:Ha; [|eauto].
  unfold db_active in Ha. unfold store_sound in Hs. unfold store_answers in Hans.
  destruct (db x) as [d|] eqn:E; [|done].
  destruct (Hu (utcnow env w) d Ha Hs Hans) as [a Hop].
  destruct (Hg (utcnow env w) d) as (Hc & Hsd & Hkeep).
  destruct (op (utcnow env w) d) as [r d']. simpl in *. subst r.
  split; [|eauto].
  eapply calm_quiet; [done|exact H|]. by eapply quiet_set_store.
Qed.


(** ** The scheduler *)
Lemma paced_calm client w0 : Calm (paced client w0).
Proof.
  split.
  - intros x w x' w' (Hs & Ha & Hc & pauses & Hp & Hz)
      (Qc & _ & Qs & _ & _ & Qz & Qa).
    split; [congruence|]. split; [by apply Qa|]. split; [congruence|].
    exists pauses. split; [done|congruence].
  - by intros x w [Hs _].
  - by intros x w (_ & Ha & _).
Qed.

Lemma paced_refl x w :
  store_sound x = true → store_answers x = true →
  paced (twitter_client x) w x w.
Proof.
  intros Hs Ha. repeat split; [done..|]. exists []. by rewrite app_nil_r.
Qed.

(** What the platform answers changes neither the object nor the sleeps. *)
Lemma paced_client {A} client w0 (c : M A) :
  (∀ x w, (c x w).1.2 = x ∧ sleep_calls (c x w).2 = sleep_calls w) →
  inv (paced client w0) c.
Proof.
  intros Hc x w (Hs & Ha & Hcl & pauses & Hp & Hz). specialize (Hc x w).
  destruct (c x w) as [[r x'] w']. simpl in Hc. destruct Hc as [-> Hw].
  repeat split; [done..|]. exists pauses. split; [done|congruence].
Qed.

Lemma paced_time_sleep_5 client w0 : total (paced client w0) (time_sleep 5).
Proof.
  intros x w (Hs & Ha & Hcl & pauses & Hp & Hz). simpl. split; [|eauto].
  repeat split; [done..|]. exists (pauses ++ [5%Z]). simpl. split.
  - apply Forall_app. split; [done|]. by constructor.
  - rewrite Hz. by rewrite app_assoc.
Qed.

Lemma paced_set_replied_tweets client w0 s :
  total (paced client w0) (set_replied_tweets s).
Proof. intros x w H. split; [exact H|eauto]. Qed.

Section Paced.

Variable env : Env.
Variables (client : bool) (w0 : World).

Let I := paced client w0.

Lemma paced_quiet_step {A} (c : M A) :
  (∀ x0 w0, inv (quiet x0 w0) c) → inv I c.
Proof. apply inv_of_quiet, paced_calm. Qed.

Lemma paced_reply_to_mention mention : inv I (reply_to_mention env mention).
Proof.
  unfold reply_to_mention. cbv zeta.
  apply inv_bind; [apply paced_quiet_step; auto with quiet|]. intros x.
  apply inv_bind.
  { destruct (db_active x); [|apply inv_ret].
    apply paced_quiet_step. intros.
    apply quiet_on_database, is_tweet_replied_gentle. }
  intros [|]; [apply inv_ret|].
  apply inv_bind.
  { apply inv_try; [|intros; apply inv_ret].
    apply inv_bind; [by apply paced_client|intros; apply inv_ret]. }
  intros username.
  apply inv_bind.
  { apply total_inv, if_db_connected_total;
      [apply paced_calm|intros; apply save_mention_gentle
      |intros; apply guarded_unfailing]. }
  intros _.
  apply inv_bind; [apply total_inv, generate_reply_total, paced_calm|].
  intros reply_text.
  apply inv_try; [|intros; apply inv_ret].
  apply inv_bind; [by apply paced_client|]. intros reply_result. cbv zeta.
  apply inv_bind; [apply paced_quiet_step; auto with quiet|]. intros x1.
  apply inv_bind; [|intros; apply total_inv, paced_time_sleep_5].
  destruct (db_active x1); [|apply total_inv, paced_set_replied_tweets].
  repeat (apply inv_bind; [|intros ?]); try apply inv_ret;
    apply paced_quiet_step; intros; auto with quiet;
    apply quiet_on_database;
    first [apply mark_mention_replied_gentle|apply save_reply_gentle].
Qed.

Lemma paced_check_and_reply_to_mentions :
  total I (check_and_reply_to_mentions env).
Proof.
  unfold check_and_reply_to_mentions.
  apply total_bind.
  { eapply total_of_returns; [apply returns_get_self|].
    apply paced_quiet_step; auto with quiet. }
  intros x. destruct (negb (twitter_client x)); [apply total_ret|].
  apply total_bind.
  - apply total_try_any; [|intros; apply total_ret].
    apply inv_bind; [by apply paced_client|]. intros [[my_user_id ?]|]; [|apply inv_ret].
    apply inv_bind; [by apply paced_client|]. intros [|m ms]; [apply inv_ret|].
    apply inv_bind; [|intros; apply inv_ret].
    apply inv_for_each. intros. apply paced_reply_to_mention.
  - intros [|]; [apply total_ret|].
    unfold clean_up_replied_tweets.
    apply total_bind.
    { eapply total_of_returns; [apply returns_get_self|].
      apply paced_quiet_step; auto with quiet. }
    intros x1. destruct (_ && _); [apply paced_set_replied_tweets|apply total_ret].
Qed.

Lemma total_quiet_step {A} (c : M A) P :
  returns c P → (∀ x0 w0, inv (quiet x0 w0) c) → total I c.
Proof.
  intros Hr Hq. eapply total_of_returns; [exact Hr|by apply paced_quiet_step].
Qed.

Lemma paced_post_to_x tweet tweet_type language now last :
  total I (post_to_x env tweet tweet_type language now last).
Proof.
  unfold post_to_x.
  apply total_bind; [eapply total_quiet_step; [apply returns_get_self|auto with quiet]|].
  intros x. destruct (twitter_client x); [|apply total_ret].
  apply total_try_any.
  - apply inv_bind; [by apply paced_client|]. intros r. cbv zeta.
    apply inv_bind; [|intros; apply inv_ret].
    apply total_inv, if_db_connected_total;
      [apply paced_calm|intros; apply save_tweet_gentle
      |intros; apply guarded_unfailing].
  - intros e. destruct (tweepy_exception (exn_cls e)); [|apply total_ret].
    apply total_bind; [|intros; apply total_ret].
    apply if_db_connected_total;
      [apply paced_calm|intros; apply save_tweet_gentle
      |intros; apply guarded_unfailing].
Qed.

Lemma paced_post_on_schedule tweet_interval now last :
  total I (post_on_schedule env tweet_interval now last).
Proof.
  unfold post_on_schedule.
  destruct (_ <=? _)%Z; [|apply total_ret].
  apply total_bind;
    [eapply total_quiet_step; [apply returns_random_random|];
     intros; unfold random_random; walk; auto with quiet|].
  intros rand. cbv zeta.
  apply total_bind;
    [eapply total_quiet_step; [apply returns_random_random|];
     intros; unfold random_random; walk; auto with quiet|].
  intros lang_rand.
  apply total_bind; [apply generate_tweet_total, paced_calm|]. intros tweet.
  apply total_bind; [apply paced_post_to_x|]. intros last'.
  apply total_bind;
    [eapply total_quiet_step; [apply returns_random_random|];
     intros; unfold random_random; walk; auto with quiet|].
  intros r.
  apply total_bind; [|intros; apply total_ret].
  destruct (Qltb _ _); [|apply total_ret].
  apply total_bind;
    [eapply total_quiet_step; [apply returns_random_randint|];
     intros; unfold random_randint; walk; auto with quiet|].
  intros grow.
  apply total_bind; [eapply total_quiet_step; [apply returns_get_self|auto with quiet]|].
  intros x1. intros x2 w2 H. split; [|eauto].
  eapply (calm_quiet _ (paced_calm client w0)); [exact H|]. by repeat split.
Qed.

End Paced.

Lemma if_db_connected_world env {A}
    (op : Z → DB.XynaeDatabase → outcome A * DB.XynaeDatabase) x w :
  (if_db_connected env op x w).2 = w.
Proof.
  unfold if_db_connected, bind, get_self, datetime_utcnow, on_database, ret.
  destruct (db_active x); [|done].
  destruct (db x) as [d|]; [|done].
  by destruct (op (utcnow env w) d) as [[a|e] d'].
Qed.

(** The publish step makes one [create_tweet] call when a client is
    configured, and none otherwise. *)
Lemma post_to_x_world env tweet tweet_type language now last x w :
  (post_to_x env tweet tweet_type language now last x w).2
  = if twitter_client x then called w (mk_publish tweet None) else w.
Proof.
  assert (Hstore : ∀ {A} (op : Z → DB.XynaeDatabase → outcome A * DB.XynaeDatabase)
                     (v : Z) x0 w0,
            (bind (if_db_connected env op) (λ _, ret v) x0 w0).2 = w0).
  { intros A op v x0 w0. unfold bind.
    pose proof (if_db_connected_world env op x0 w0) as H.
    by destruct (if_db_connected env op x0 w0) as [[[a|e] x'] w']. }
  unfold post_to_x, bind at 1, get_self.
  destruct (twitter_client x); [|done].
  unfold try_except, bind at 1, client_create_tweet.
  fold (called w (mk_publish tweet None)).
  destruct (create_tweet env w tweet None) as [r|e].
  - match goal with
    | |- context [bind (if_db_connected env ?op) ?k ?x0 ?w0] =>
        pose proof (Hstore _ op now x0 w0) as H;
        destruct (bind (if_db_connected env op) k x0 w0) as [[[a|e] x'] w']
    end; simpl in H; subst w'; [done|].
    simpl. destruct (tweepy_exception (exn_cls e)); [|done]. apply Hstore.
  - simpl. destruct (tweepy_exception (exn_cls e)); [|done]. apply Hstore.
Qed.


(** ** Construction *)

Lemma dict_set_not_nil {V} (d : list (pystr * V)) k v : dict_set d k v ≠ [].
Proof. destruct d as [|[k' v'] d]; simpl; [done|]. by case_decide. Qed.

Lemma no_backend_no_provider pe :
  LLM.usable_backends pe = 0 ↔ LLM._initialize_providers pe = [].
Proof.
  unfold LLM.usable_backends, LLM._initialize_providers, LLM.register.
  destruct (LLM.anthropic_probe pe), (LLM.openai_probe pe),
    (LLM.gemini_probe pe); cbn [filter LLM.usable length];
    split; intros H; try done; try (by apply dict_set_not_nil in H).
Qed.

(** What stops construction, for every process: a failed import of the
    provider or the database module raises [ImportError] whatever back ends
    are usable; with the modules imported, no usable back end raises the
    no-provider [ValueError] and the program ends without a loop iteration;
    nothing else stops construction. *)
Lemma startup_outcomes env su a w :
  (modules_imported su = false →
   __init__ env su a w
   = (Raised (mk_exn ImportError
        (u "LLM providers not available. Please check dependencies.")), w)) ∧
  (modules_imported su = true → LLM.usable_backends (provider_env su) = 0 →
   __init__ env su a w
   = (Raised (mk_exn ValueError
        (u "At least one LLM provider API key is required")), w) ∧
   ∀ n, main env su n w = (None, w)) ∧
  (modules_imported su = true → LLM.usable_backends (provider_env su) ≠ 0 →
   ∃ xynae w', __init__ env su a w = (Returned xynae, w')).
Proof.
  assert (Hinit : ∀ a', modules_imported su = true →
            LLM.usable_backends (provider_env su) = 0 →
            __init__ env su a' w
            = (Raised (mk_exn ValueError
                 (u "At least one LLM provider API key is required")), w)).
  { intros a' Hm Hz. apply no_backend_no_provider in Hz.
    unfold __init__. rewrite Hm. cbn [negb].
    unfold LLM.list_available_providers, LLM.__init__. cbn [LLM.providers].
    by rewrite Hz. }
  split; [|split].
  - intros Hm. unfold __init__. by rewrite Hm.
  - intros Hm Hz. split; [by apply Hinit|].
    intros n. unfold main. by rewrite Hinit.
  - intros Hm Hz. unfold __init__. rewrite Hm. cbn [negb].
    unfold LLM.list_available_providers, LLM.__init__. cbn [LLM.providers].
    destruct (LLM._initialize_providers (provider_env su)) as [|p ps] eqn:E.
    { by apply no_backend_no_provider in E. }
    cbn [map]. cbv zeta.
    destruct (match arg_agent_count a with Some n => _ | None => _ end);
      by eexists _, _.
Qed.

(** Where construction goes on to the store, the database module was
    imported: the test [XynaeDatabase is not None] is never false there. *)
Lemma store_guard_is_dead env su a w xynae w' :
  __init__ env su a w = (Returned xynae, w') →
  database_imported su = true ∧
  (db xynae = None ↔ arg_use_database a = false).
Proof.
  unfold __init__, modules_imported.
  destruct (llm_providers_imported su), (database_imported su);
    cbn [negb andb]; [|done..].
  destruct (LLM.list_available_providers _); [done|]. cbv zeta.
  destruct (arg_agent_count a) as [n|]; [destruct (n =? 0)%Z|];
    (intros [= <- _]; split; [done|]; cbn [db];
     destruct (arg_use_database a); by split).
Qed.

(** A process with no LLM key fails to start and no iteration runs. *)
Example keyless_process_does_not_start :
  ∀ n, main Scenario.closed_platform Scenario.keyless_startup n initial_world
       = (None, initial_world).
Proof.
  exact (proj2 (proj1 (proj2 (startup_outcomes Scenario.closed_platform
                                Scenario.keyless_startup default_args
                                initial_world)) eq_refl eq_refl)).
Qed.

(** C8.  At the failing input.  The [database] module fails to import
    (pymongo is not installed), the [llm_providers] module is imported and
    Anthropic is usable, and the caller asks for no store:
    [Xynae(use_database=False)].  Construction raises [ImportError] with
    the text "LLM providers not available", and no iteration runs. *)
Theorem missing_database_module_stops_startup :
  llm_providers_imported Scenario.broken_install = true ∧
  database_imported Scenario.broken_install = false ∧
  LLM.usable_backends (provider_env Scenario.broken_install) = 1 ∧
  arg_use_database Scenario.memory_only_args = false ∧
  __init__ Scenario.closed_platform Scenario.broken_install
    Scenario.memory_only_args initial_world
  = (Raised (mk_exn ImportError
       (u "LLM providers not available. Please check dependencies.")),
     initial_world) ∧
  main Scenario.closed_platform Scenario.broken_install 1 initial_world
  = (None, initial_world).
Proof. repeat split; reflexivity. Qed.

(** ** [str] of an [int] is injective *)

Lemma utf8_decode_plain bs :
  Forall (λ b, (b < 128)%N) bs → utf8_decode bs 0 0%N = bs.
Proof.
  induction 1 as [|b bs Hb _ IH]; simpl; [done|].
  apply N.ltb_lt in Hb. rewrite Hb. by rewrite IH.
Qed.

Lemma u_plain s : plain s → u s = map N_of_ascii (list_ascii_of_string s).
Proof.
  intros H. unfold u. apply utf8_decode_plain.
  by apply Forall_map.
Qed.

Lemma pretty_N_char_plain x : (N_of_ascii (pretty_N_char x) < 128)%N.
Proof. unfold pretty_N_char. repeat case_match; by vm_compute. Qed.

Lemma pretty_N_go_plain x s : plain s → plain (pretty_N_go x s).
Proof.
  revert s. induction (N.lt_wf_0 x) as [x _ IH]; intros s Hs.
  assert (x = 0 ∨ 0 < x)%N as [->|?] by lia.
  - by rewrite pretty_N_go_0.
  - rewrite pretty_N_go_step by done. apply IH; [by apply N.div_lt|].
    constructor; [apply pretty_N_char_plain|done].
Qed.

Lemma pretty_N_plain (x : N) : plain (pretty x).
Proof.
  unfold pretty, pretty_N. case_decide.
  - repeat constructor.
  - apply pretty_N_go_plain. constructor.
Qed.

Lemma pretty_Z_plain (z : Z) : plain (pretty z).
Proof.
  unfold pretty, pretty_Z. destruct z as [|p|p].
  - repeat constructor.
  - apply (pretty_N_plain (N.pos p)).
  - constructor; [by vm_compute|]. apply (pretty_N_plain (N.pos p)).
Qed.

Lemma list_ascii_of_string_inj s1 s2 :
  list_ascii_of_string s1 = list_ascii_of_string s2 → s1 = s2.
Proof.
  intros H. rewrite <- (string_of_list_ascii_of_string s1),
    <- (string_of_list_ascii_of_string s2). by rewrite H.
Qed.

Lemma py_str_inj z1 z2 : py_str z1 = py_str z2 → z1 = z2.
Proof.
  unfold py_str. rewrite !u_plain by apply pretty_Z_plain. intros H.
  apply (inj pretty), list_ascii_of_string_inj.
  revert H. generalize (list_ascii_of_string (pretty z1)).
  generalize (list_ascii_of_string (pretty z2)).
  intros l2 l1. revert l2. induction l1 as [|a l1 IH]; intros [|b l2] H;
    simpl in H; try done.
  injection H as Hab Hl. f_equal; [|by apply IH].
  by rewrite <- (ascii_N_embedding a), <- (ascii_N_embedding b), Hab.
Qed.

(** ** One mention, step by step *)

Lemma set_db_same d c : DB.db d = Some c → DB.set_db d c = d.
Proof. destruct d; simpl. by intros ->. Qed.

Lemma set_store_same x d : db x = Some d → set_store x d = x.
Proof. destruct x; simpl. by intros ->. Qed.

Lemma on_database_run {A} (op : DB.XynaeDatabase → outcome A * DB.XynaeDatabase)
    x w d :
  db x = Some d → on_database op x w = ((op d).1, set_store x (op d).2, w).
Proof. intros E. unfold on_database. rewrite E. by destruct (op d). Qed.

Lemma if_db_connected_skip env {A}
    (op : Z → DB.XynaeDatabase → outcome A * DB.XynaeDatabase) x w :
  db_active x = false → if_db_connected env op x w = (Returned tt, x, w).
Proof. intros E. unfold if_db_connected, bind, get_self. by rewrite E. Qed.

Lemma if_db_connected_run env {A}
    (op : Z → DB.XynaeDatabase → outcome A * DB.XynaeDatabase) x w d :
  db x = Some d → DB.connected d = true → db_sound d = true →
  DB.answers d = true →
  unfailing (op (utcnow env w)) →
  if_db_connected env op x w
  = (Returned tt, set_store x (op (utcnow env w) d).2, w).
Proof.
  intros E Hc Hs Ha Hu.
  unfold if_db_connected, bind, get_self, datetime_utcnow.
  unfold db_active at 1. rewrite E. unfold DB.is_connected. rewrite Hc.
  rewrite (on_database_run _ x w d E).
  by destruct (Hu d Hc Hs Ha) as [a ->].
Qed.

(** [generate_reply] returns a text and touches neither the object nor the
    platform. *)
Lemma generate_reply_run env text username x w :
  ∃ reply w', generate_reply env text username x w = (Returned reply, x, w') ∧
              tweet_calls w' = tweet_calls w ∧ sleep_calls w' = sleep_calls w.
Proof.
  unfold generate_reply, bind, random_random, random_word, ret, get_self,
    try_except, random_uniform, llm_generate. simpl.
  destruct (LLM.generate _ _ _ _) as [[reply|e] log]; simpl; by eexists _, _.
Qed.

(** The author's handle, or "unknown". *)
Lemma username_run env author x w :
  ∃ username,
    try_except
      (bind (client_get_user env author)
         (λ user, ret (default (u "unknown") user)))
      any_exception (λ _, ret (u "unknown")) x w
    = (Returned username, x, w).
Proof.
  unfold try_except, bind, client_get_user, ret.
  destruct (get_user env w author) as [user|e]; simpl; by eexists.
Qed.

Lemma active_store x :
  store_sound x = true → db_active x = true →
  ∃ d c, db x = Some d ∧ DB.connected d = true ∧ db_sound d = true ∧
         DB.db d = Some c.
Proof.
  unfold store_sound, db_active, DB.is_connected.
  destruct (db x) as [d|]; [|done]. intros Hs Hc.
  pose proof Hs as Hs'. unfold db_sound in Hs'. rewrite Hc in Hs'.
  apply bool_decide_eq_true in Hs' as [c Hdb]. by exists d, c.
Qed.

(** A store whose server answers has no failure to come. *)
Lemma answering_store x d c :
  db x = Some d → DB.db d = Some c → store_answers x = true →
  DB.answers d = true ∧ DB.failures c = [].
Proof.
  intros Hd Hdb. unfold store_answers, DB.answers. rewrite Hd, Hdb.
  intros Ha. split; [done|]. by apply bool_decide_eq_true in Ha.
Qed.

(** The dedup lookup at the head of the loop body. *)
Lemma lookup_run {B} tweet_id (k : bool → M B) x w :
  store_sound x = true → store_answers x = true →
  bind get_self (λ x0,
    bind (if db_active x0
          then on_database (λ d, DB.is_tweet_replied d tweet_id)
          else ret (bool_decide (tweet_id ∈ replied_tweets x0))) k) x w
  = k (already_replied x tweet_id) x w.
Proof.
  intros Hs Hans. unfold bind at 1, get_self, already_replied.
  destruct (db_active x) eqn:Hact; [|done].
  destruct (active_store x Hs Hact) as (d & c & Hd & Hc & _ & Hdb).
  destruct (answering_store x d c Hd Hdb Hans) as [_ Hf].
  apply bind_returned.
  rewrite (on_database_run _ x w d Hd).
  unfold DB.is_tweet_replied. rewrite Hc. simpl.
  rewrite (on_db_answers d _ _ c Hdb Hf). simpl.
  unfold stored_mentions, DB.mentions_of. rewrite Hd, Hdb.
  by rewrite (set_db_same d c Hdb), (set_store_same x d Hd).
Qed.

Lemma save_mention_ok now id text user author flag :
  gentle (λ d, DB.save_mention d now id text user author flag) ∧
  unfailing (λ d, DB.save_mention d now id text user author flag).
Proof. split; [apply save_mention_gentle|apply guarded_unfailing]. Qed.

Lemma mark_mention_replied_ok now id :
  gentle (λ d, DB.mark_mention_replied d now id) ∧
  unfailing (λ d, DB.mark_mention_replied d now id).
Proof. split; [apply mark_mention_replied_gentle|apply guarded_unfailing]. Qed.

Lemma save_reply_ok now id text user reply reply_id :
  gentle (λ d, DB.save_reply d now id text user reply reply_id) ∧
  unfailing (λ d, DB.save_reply d now id text user reply reply_id).
Proof. split; [apply save_reply_gentle|apply guarded_unfailing]. Qed.

(** Marking a mention replied: in the store when it is connected, in the
    set otherwise. *)
Lemma mark_run {B} env tweet_id text username reply_text reply_tweet_id
    (k : unit → M B) x w :
  store_sound x = true → store_answers x = true →
  bind get_self (λ x0,
    bind (if db_active x0
          then
            bind (datetime_utcnow env) (λ now,
              bind (on_database (λ d, DB.mark_mention_replied d now tweet_id))
                (λ _, bind (datetime_utcnow env) (λ now0,
                   bind (on_database (λ d,
                           DB.save_reply d now0 tweet_id text username
                             reply_text reply_tweet_id))
                     (λ _, ret tt))))
          else set_replied_tweets (set_add env tweet_id (replied_tweets x0)))
      k) x w
  = k tt
      (marked_replied env w tweet_id text username reply_text reply_tweet_id x)
      w.
Proof.
  intros Hs Hans. unfold bind at 1, get_self, marked_replied. cbv zeta.
  destruct (db_active x) eqn:Hact.
  - destruct (active_store x Hs Hact) as (d & c & Hd & Hc & Hsd & Hdb).
    destruct (answering_store x d c Hd Hdb Hans) as [Had _].
    rewrite Hd, Hc. apply bind_returned.
    unfold bind at 1, datetime_utcnow.
    destruct (mark_mention_replied_ok (utcnow env w) tweet_id) as [Hg Hu].
    destruct (Hu d Hc Hsd Had) as [a Ha]. destruct (Hg d) as (Hc2 & Hs2 & Ha2).
    etrans; [eapply bind_returned; rewrite (on_database_run _ x w d Hd);
             rewrite Ha; reflexivity|].
    unfold bind at 1.
    set (d2 := (DB.mark_mention_replied d (utcnow env w) tweet_id).2) in *.
    rewrite Hc in Hc2. rewrite Hsd in Hs2. specialize (Ha2 Had).
    destruct (save_reply_ok (utcnow env w) tweet_id text username reply_text
                reply_tweet_id) as [_ Hu'].
    destruct (Hu' d2 Hc2 Hs2 Ha2) as [a' Ha'].
    etrans; [eapply bind_returned;
             rewrite (on_database_run _ (set_store x d2) w d2 eq_refl);
             rewrite Ha'; reflexivity|].
    reflexivity.
  - unfold db_active, DB.is_connected in Hact.
    destruct (db x) as [d|] eqn:Hd; [rewrite Hact|];
      apply bind_returned; unfold set_replied_tweets; by rewrite Hd.
Qed.

(** A mention whose dedup state is set is skipped. *)
Lemma reply_to_mention_skip env m x w :
  store_sound x = true → store_answers x = true →
  already_replied x (py_str (mention_id m)) = true →
  reply_to_mention env m x w = (Returned tt, x, w).
Proof.
  intros Hs Hans Ha. unfold reply_to_mention. cbv zeta.
  etrans; [by apply lookup_run|]. by rewrite Ha.
Qed.

(** A mention whose dedup state is not set is answered.  [x1] is the object
    once the mention is recorded, [w1] the world when the reply text is
    ready; what follows depends on what [create_tweet] answers there. *)
Lemma reply_to_mention_attempt env m x w :
  store_sound x = true → store_answers x = true →
  already_replied x (py_str (mention_id m)) = false →
  let tweet_id := py_str (mention_id m) in
  ∃ username reply_text w1,
    tweet_calls w1 = tweet_calls w ∧ sleep_calls w1 = sleep_calls w ∧
    let x1 := mention_recorded env w m username x in
    let w2 := called w1 (mk_publish reply_text (Some (mention_id m))) in
    generate_reply env (mention_text m) username x1 w
    = (Returned reply_text, x1, w1) ∧
    reply_to_mention env m x w =
    match create_tweet env w1 reply_text (Some (mention_id m)) with
    | Returned reply_result =>
        (Returned tt,
         marked_replied env w2 tweet_id (mention_text m) username reply_text
           (py_str <$> reply_result) x1,
         slept w2 5)
    | Raised e =>
        (if tweepy_exception (exn_cls e) then Returned tt else Raised e, x1, w2)
    end.
Proof.
  intros Hs Hans Ha. cbv zeta. unfold reply_to_mention. cbv zeta.
  destruct (username_run env (mention_author_id m) x w) as [username Hu].
  pose (x1 := mention_recorded env w m username x).
  assert (Hsave : if_db_connected env (λ now d,
              DB.save_mention d now (py_str (mention_id m)) (mention_text m)
                username (py_str (mention_author_id m)) false) x w
            = (Returned tt, x1, w)).
  { destruct (db_active x) eqn:Hact.
    - destruct (active_store x Hs Hact) as (d & c & Hd & Hc & Hsd & Hdb).
      destruct (answering_store x d c Hd Hdb Hans) as [Had _].
      rewrite (if_db_connected_run env _ x w d Hd Hc Hsd Had)
        by apply save_mention_ok.
      subst x1. unfold mention_recorded. by rewrite Hd, Hc.
    - rewrite if_db_connected_skip by done. subst x1.
      unfold mention_recorded.
      unfold db_active, DB.is_connected in Hact.
      destruct (db x) as [d|]; [by rewrite Hact|done]. }
  destruct (generate_reply_run env (mention_text m) username x1 w)
    as (reply_text & w1 & Hr & Htc & Hsc).
  exists username, reply_text, w1. split; [done|]. split; [done|].
  fold x1. split; [exact Hr|].
  etrans; [by apply lookup_run|]. rewrite Ha.
  etrans; [eapply bind_returned; exact Hu|].
  etrans; [eapply bind_returned; exact Hsave|].
  etrans; [eapply bind_returned; exact Hr|].
  unfold try_except, bind at 1, client_create_tweet.
  fold (called w1 (mk_publish reply_text (Some (mention_id m)))).
  set (w2 := called w1 _).
  destruct (create_tweet env w1 reply_text (Some (mention_id m))) as [rr|e];
    [|by destruct (tweepy_exception (exn_cls e))].
  assert (Hs1 : store_sound x1 = true ∧ store_answers x1 = true).
  { subst x1. unfold mention_recorded, store_sound, store_answers in *.
    destruct (db x) as [d|] eqn:Hd; [|by rewrite Hd].
    destruct (DB.connected d) eqn:Hc; [|by rewrite Hd].
    simpl.
    destruct (save_mention_gentle (utcnow env w) (py_str (mention_id m))
                (mention_text m) username (py_str (mention_author_id m))
                false d) as (_ & Hsd & Had).
    split; [by rewrite Hsd|by apply Had]. }
  destruct Hs1 as [Hs1 Ha1].
  cbv zeta.
  rewrite (mark_run env (py_str (mention_id m)) (mention_text m) username
             reply_text (py_str <$> rr) (λ _, time_sleep 5) x1 w2 Hs1 Ha1).
  reflexivity.
Qed.

(** ** What one mention does to the store, the set and the platform *)

Lemma sound_connected d :
  DB.connected d = true → db_sound d = true → ∃ c, DB.db d = Some c.
Proof.
  intros Hc Hs. unfold db_sound in Hs. rewrite Hc in Hs.
  by apply bool_decide_eq_true in Hs.
Qed.

Lemma answers_failures d c :
  DB.db d = Some c → DB.answers d = true → DB.failures c = [].
Proof.
  unfold DB.answers. intros ->. apply bool_decide_eq_true.
Qed.

Lemma save_mention_docs d now id text user author flag :
  DB.connected d = true → db_sound d = true → DB.answers d = true →
  let d' := (DB.save_mention d now id text user author flag).2 in
  DB.connected d' = true ∧ db_sound d' = true ∧ DB.answers d' = true ∧
  DB.mentions_of d'
  = DB.mentions_of d ++ [DB.mk_mention id text user author flag None now] ∧
  DB.replies_of d' = DB.replies_of d.
Proof.
  intros Hc Hs Ha. destruct (sound_connected d Hc Hs) as [c Hdb].
  pose proof (answers_failures d c Hdb Ha) as Hf.
  unfold DB.save_mention. rewrite Hc. simpl negb. cbv iota.
  rewrite (on_db_answers d _ _ c Hdb Hf).
  unfold DB.mentions_of, DB.replies_of, db_sound, DB.answers.
  simpl. rewrite ?Hc, ?Hdb, Hf. done.
Qed.

Lemma mark_mention_replied_docs d now id :
  DB.connected d = true → db_sound d = true → DB.answers d = true →
  let d' := (DB.mark_mention_replied d now id).2 in
  DB.connected d' = true ∧ db_sound d' = true ∧ DB.answers d' = true ∧
  DB.mentions_of d' = DB.update_one_replied id now (DB.mentions_of d) ∧
  DB.replies_of d' = DB.replies_of d.
Proof.
  intros Hc Hs Ha. destruct (sound_connected d Hc Hs) as [c Hdb].
  pose proof (answers_failures d c Hdb Ha) as Hf.
  unfold DB.mark_mention_replied. rewrite Hc. simpl negb. cbv iota.
  rewrite (on_db_answers d _ _ c Hdb Hf).
  unfold DB.mentions_of, DB.replies_of, db_sound, DB.answers.
  simpl. rewrite ?Hc, ?Hdb, Hf. done.
Qed.

Lemma save_reply_docs d now id text user reply reply_id :
  DB.connected d = true → db_sound d = true → DB.answers d = true →
  let d' := (DB.save_reply d now id text user reply reply_id).2 in
  DB.connected d' = true ∧ db_sound d' = true ∧ DB.answers d' = true ∧
  DB.mentions_of d' = DB.mentions_of d ∧
  DB.replies_of d'
  = DB.replies_of d ++ [DB.mk_reply id text user reply reply_id now].
Proof.
  intros Hc Hs Ha. destruct (sound_connected d Hc Hs) as [c Hdb].
  pose proof (answers_failures d c Hdb Ha) as Hf.
  unfold DB.save_reply. rewrite Hc. simpl negb. cbv iota.
  rewrite (on_db_answers d _ _ c Hdb Hf).
  unfold DB.mentions_of, DB.replies_of, db_sound, DB.answers.
  simpl. rewrite ?Hc, ?Hdb, Hf. done.
Qed.

Lemma mention_recorded_obs env w m username x :
  store_sound x = true → store_answers x = true →
  let x1 := mention_recorded env w m username x in
  store_sound x1 = true ∧ store_answers x1 = true ∧
  db_active x1 = db_active x ∧
  twitter_client x1 = twitter_client x ∧
  replied_tweets x1 = replied_tweets x ∧
  stored_replies x1 = stored_replies x ∧
  stored_mentions x1
  = stored_mentions x ++
    (if db_active x
     then [DB.mk_mention (py_str (mention_id m)) (mention_text m) username
             (py_str (mention_author_id m)) false None (utcnow env w)]
     else []).
Proof.
  intros Hs Hans.
  unfold mention_recorded, store_sound, store_answers, db_active,
    stored_replies, stored_mentions, DB.is_connected in *.
  destruct (db x) as [d|] eqn:Hd; [|by rewrite ?Hd, app_nil_r].
  destruct (DB.connected d) eqn:Hc.
  - destruct (save_mention_docs d (utcnow env w) (py_str (mention_id m))
                (mention_text m) username (py_str (mention_author_id m))
                false Hc Hs Hans) as (? & ? & ? & ? & ?).
    by simpl.
  - by rewrite ?Hd, ?Hc, app_nil_r.
Qed.

Lemma marked_replied_obs env w tweet_id text username reply_text reply_id x :
  store_sound x = true → store_answers x = true →
  let x3 := marked_replied env w tweet_id text username reply_text reply_id x in
  store_sound x3 = true ∧ store_answers x3 = true ∧
  db_active x3 = db_active x ∧
  twitter_client x3 = twitter_client x ∧
  if db_active x then
    replied_tweets x3 = replied_tweets x ∧
    stored_mentions x3
    = DB.update_one_replied tweet_id (utcnow env w) (stored_mentions x) ∧
    stored_replies x3
    = stored_replies x ++
      [DB.mk_reply tweet_id text username reply_text reply_id (utcnow env w)]
  else
    replied_tweets x3 = set_add env tweet_id (replied_tweets x) ∧
    stored_mentions x3 = stored_mentions x ∧
    stored_replies x3 = stored_replies x.
Proof.
  intros Hs Hans.
  unfold marked_replied, store_sound, store_answers, db_active,
    stored_replies, stored_mentions, DB.is_connected in *. cbv zeta.
  destruct (db x) as [d|] eqn:Hd; [|by simpl; rewrite ?Hd].
  destruct (DB.connected d) eqn:Hc.
  - destruct (mark_mention_replied_docs d (utcnow env w) tweet_id Hc Hs Hans)
      as (Hc2 & Hs2 & Ha2 & Hm2 & Hr2).
    destruct (save_reply_docs _ (utcnow env w) tweet_id text username
                reply_text reply_id Hc2 Hs2 Ha2)
      as (Hc3 & Hs3 & Ha3 & Hm3 & Hr3).
    simpl. by rewrite Hc3, Hs3, Ha3, Hm3, Hr3, Hm2, Hr2.
  - simpl. by rewrite ?Hd, ?Hc.
Qed.

(** The three ways the loop body can go for one mention when the server
    of the store answers: the mention is skipped; a reply is attempted and
    the publish raises; a reply is attempted and published. *)
Lemma reply_to_mention_effects env m x w :
  store_ready x = true →
  let tweet_id := py_str (mention_id m) in
  let '(r, x', w') := reply_to_mention env m x w in
  store_ready x' = true ∧ db_active x' = db_active x ∧
  twitter_client x' = twitter_client x ∧
  ((already_replied x tweet_id = true ∧ r = Returned tt ∧ x' = x ∧ w' = w) ∨
   (already_replied x tweet_id = false ∧
    ∃ text w1 e doc,
      create_tweet env w1 text (Some (mention_id m)) = Raised e ∧
      r = (if tweepy_exception (exn_cls e) then Returned tt else Raised e) ∧
      tweet_calls w' = tweet_calls w ++ [mk_publish text (Some (mention_id m))] ∧
      DB.mention_tweet_id doc = tweet_id ∧ DB.replied doc = false ∧
      replied_tweets x' = replied_tweets x ∧
      stored_replies x' = stored_replies x ∧
      stored_mentions x'
      = stored_mentions x ++ (if db_active x then [doc] else [])) ∨
   (already_replied x tweet_id = false ∧
    ∃ text w1 reply_result doc reply_doc now,
      create_tweet env w1 text (Some (mention_id m)) = Returned reply_result ∧
      r = Returned tt ∧
      tweet_calls w' = tweet_calls w ++ [mk_publish text (Some (mention_id m))] ∧
      DB.mention_tweet_id doc = tweet_id ∧
      DB.original_tweet_id reply_doc = tweet_id ∧
      if db_active x then
        replied_tweets x' = replied_tweets x ∧
        stored_mentions x'
        = DB.update_one_replied tweet_id now (stored_mentions x ++ [doc]) ∧
        stored_replies x' = stored_replies x ++ [reply_doc]
      else
        replied_tweets x' = set_add env tweet_id (replied_tweets x) ∧
        stored_mentions x' = stored_mentions x ∧
        stored_replies x' = stored_replies x)).
Proof.
  intros Hready. pose proof Hready as [Hs Hans]%andb_prop. cbv zeta.
  assert (Hr : ∀ x', store_sound x' = true → store_answers x' = true →
                     store_ready x' = true).
  { intros x' H1 H2. unfold store_ready. by rewrite H1, H2. }
  destruct (already_replied x (py_str (mention_id m))) eqn:Ha.
  - rewrite reply_to_mention_skip by done. repeat split; try done. by left.
  - destruct (reply_to_mention_attempt env m x w Hs Hans Ha)
      as (username & text & w1 & Htc & Hsc & _ & ->).
    destruct (mention_recorded_obs env w m username x Hs Hans)
      as (Hs1 & Hans1 & Ha1 & Hc1 & Hr1 & Hp1 & Hm1).
    set (x1 := mention_recorded env w m username x) in *.
    set (doc := DB.mk_mention _ _ _ _ _ _ _) in Hm1.
    destruct (create_tweet env w1 text (Some (mention_id m))) as [rr|e] eqn:Hct.
    + set (w2 := called w1 _).
      destruct (marked_replied_obs env w2 (py_str (mention_id m))
                  (mention_text m) username text (py_str <$> rr) x1 Hs1 Hans1)
        as (Hs3 & Hans3 & Ha3 & Hc3 & Hobs).
      split; [by apply Hr|]. split; [congruence|]. split; [congruence|].
      right. right. split; [done|].
      exists text, w1, rr, doc,
        (DB.mk_reply (py_str (mention_id m)) (mention_text m) username text
           (py_str <$> rr) (utcnow env w2)), (utcnow env w2).
      split; [done|]. split; [done|]. split; [by simpl; rewrite Htc|].
      split; [done|]. split; [reflexivity|].
      rewrite Ha1 in Hobs. destruct (db_active x).
      * destruct Hobs as (-> & -> & ->). by rewrite Hr1, Hm1, Hp1.
      * destruct Hobs as (-> & -> & ->). by rewrite Hr1, Hm1, Hp1, app_nil_r.
    + split; [by apply Hr|]. split; [done|]. split; [done|].
      right. left. split; [done|].
      exists text, w1, e, doc.
      split; [done|]. split; [done|]. split; [by simpl; rewrite Htc|].
      by repeat split.
Qed.

(** ** Documents of other mentions *)

Lemma find_replied_app id ms1 ms2 :
  DB.find_replied id (ms1 ++ ms2)
  = DB.find_replied id ms1 || DB.find_replied id ms2.
Proof. apply existsb_app. Qed.

Lemma find_replied_one id doc :
  DB.find_replied id [doc]
  = bool_decide (DB.mention_tweet_id doc = id) && DB.replied doc.
Proof. unfold DB.find_replied. simpl. by rewrite orb_false_r. Qed.

Lemma find_replied_update_other id id' now ms :
  id' ≠ id →
  DB.find_replied id (DB.update_one_replied id' now ms) = DB.find_replied id ms.
Proof.
  intros Hne. induction ms as [|doc ms IH]; simpl; [done|].
  case_decide as E; simpl; [|by rewrite IH].
  rewrite !bool_decide_eq_false_2; [done|congruence..].
Qed.

Lemma filter_update_other id id' now ms :
  id' ≠ id →
  filter (λ doc, DB.mention_tweet_id doc = id) (DB.update_one_replied id' now ms)
  = filter (λ doc, DB.mention_tweet_id doc = id) ms.
Proof.
  intros Hne. induction ms as [|doc ms IH]; simpl; [done|].
  case_decide as E; simpl.
  - rewrite !filter_cons. simpl. rewrite !decide_False by congruence. done.
  - rewrite !filter_cons. by rewrite IH.
Qed.

Lemma elem_of_update_other id' now ms doc :
  DB.mention_tweet_id doc ≠ id' → doc ∈ ms →
  doc ∈ DB.update_one_replied id' now ms.
Proof.
  intros Hne. induction ms as [|doc' ms IH]; simpl; [done|].
  intros [->|Hin]%elem_of_cons.
  - rewrite decide_False by done. apply elem_of_cons; by left.
  - case_decide; apply elem_of_cons; right; [done|by apply IH].
Qed.

(** [mark_mention_replied] on a recorded mention sets its dedup state. *)
Lemma mark_mention_replied_marks id now ms :
  (∃ doc, doc ∈ ms ∧ DB.mention_tweet_id doc = id) →
  DB.find_replied id (DB.update_one_replied id now ms) = true.
Proof.
  intros (doc & Hin & Hid). induction ms as [|doc' ms IH]; simpl.
  - by apply elem_of_nil in Hin.
  - case_decide as E; simpl.
    + by rewrite bool_decide_eq_true_2.
    + apply elem_of_cons in Hin as [->|Hin]; [done|].
      rewrite IH by done. by rewrite orb_true_r.
Qed.

(** ** A check cycle keeps what each mention and the clean-up keep *)

Lemma inv_still {A} I (c : M A) :
  (∀ x w, (c x w).1.2 = x ∧ (c x w).2 = w) → inv I c.
Proof.
  intros Hc x w H. specialize (Hc x w).
  destruct (c x w) as [[r x'] w']. simpl in Hc. by destruct Hc as [-> ->].
Qed.

Lemma check_and_reply_inv env I :
  (∀ m, inv I (reply_to_mention env m)) →
  inv I (clean_up_replied_tweets env) →
  inv I (check_and_reply_to_mentions env).
Proof.
  intros Hm Hc. unfold check_and_reply_to_mentions.
  apply inv_bind; [by apply inv_still|]. intros x.
  destruct (negb (twitter_client x)); [apply inv_ret|].
  apply inv_bind.
  - apply inv_try; [|intros; apply inv_ret].
    apply inv_bind; [by apply inv_still|]. intros [[my_user_id ?]|]; [|apply inv_ret].
    apply inv_bind; [by apply inv_still|]. intros [|m ms]; [apply inv_ret|].
    apply inv_bind; [|intros; apply inv_ret].
    by apply inv_for_each.
  - intros [|]; [apply inv_ret|apply Hc].
Qed.

(** Reading [self] tells the state. *)
Lemma inv_bind_self {B} (I : Xynae → World → Prop) (k : Xynae → M B) :
  (∀ x0, triple (λ x w, I x w ∧ x = x0) (k x0) (λ _, I)) →
  inv I (bind get_self k).
Proof. intros H x w HI. unfold bind, get_self. by apply (H x x w). Qed.

(** A computation that leaves the object alone keeps what holds of the
    object. *)
Lemma inv_same_self {A} (I : Xynae → World → Prop) (c : M A) :
  (∀ x w w', I x w → I x w') → (∀ x w, (c x w).1.2 = x) → inv I c.
Proof.
  intros HI Hc x w H. specialize (Hc x w).
  destruct (c x w) as [[r x'] w']. simpl in Hc. subst x'. by eapply HI.
Qed.

Lemma llm_generate_still c x w : (llm_generate c x w).1.2 = x.
Proof. unfold llm_generate. by destruct (LLM.generate _ _ _ _). Qed.

Lemma time_sleep_still d x w : (time_sleep d x w).1.2 = x.
Proof. unfold time_sleep. by destruct (d <? 0)%Z. Qed.

Tactic Notation "frame_walk" "with" tactic3(leaf) :=
  repeat first
    [ leaf
    | apply inv_ret
    | apply inv_bind; [|intros ?]
    | apply inv_try; [|intros ?]
    | match goal with
      | |- inv _ (if ?b then _ else _) => destruct b
      | |- inv _ (match ?o with _ => _ end) => destruct o
      end ].

Lemma on_database_world {A}
    (op : DB.XynaeDatabase → outcome A * DB.XynaeDatabase) x w :
  (on_database op x w).2 = w.
Proof. unfold on_database. destruct (db x); [|done]. by destruct (op _). Qed.

Lemma time_sleep_calls d x w : tweet_calls (time_sleep d x w).2 = tweet_calls w.
Proof. unfold time_sleep. by destruct (d <? 0)%Z. Qed.

(** ** A mention marked replied in the store *)

(** What a store operation does to the mentions and the replies: nothing
    when it is skipped or the server fails, and else what its work on the
    collections does. *)
Lemma guarded_docs {A} (sentinel : A) attr f
    (on_mentions : list DB.MentionDoc → list DB.MentionDoc)
    (on_replies : list DB.ReplyDoc → list DB.ReplyDoc) d :
  (∀ c, DB.mentions (f c).2 = on_mentions (DB.mentions c) ∧
        DB.replies (f c).2 = on_replies (DB.replies c)) →
  let r := if negb (DB.connected d) then (Returned sentinel, d)
           else DB.on_db d attr f in
  (DB.mentions_of r.2 = DB.mentions_of d ∧
   DB.replies_of r.2 = DB.replies_of d) ∨
  ((∃ a, r.1 = Returned a) ∧
   DB.mentions_of r.2 = on_mentions (DB.mentions_of d) ∧
   DB.replies_of r.2 = on_replies (DB.replies_of d)).
Proof.
  intros Hf. cbv zeta. destruct (DB.connected d); simpl; [|by left].
  unfold DB.on_db, DB.on_db_in, DB.mentions_of, DB.replies_of.
  destruct (DB.db d) as [c|] eqn:E; [|left; simpl; by rewrite ?E].
  pose proof (round_trips_keep 1 c) as (_ & Hr & Hm & _). cbv zeta in Hr, Hm.
  destruct (DB.round_trips 1 c) as [[e|] c1]; simpl in *.
  - left. by rewrite Hm, Hr.
  - specialize (Hf c1). destruct (f c1) as [a c2]. simpl in *. right.
    split; [by exists a|]. destruct Hf as [-> ->]. by rewrite Hm, Hr.
Qed.

Section Marked.

Variable env : Env.
Variables (id : Z) (kept : list DB.MentionDoc) (calls : list Publish).

Let I := marked (py_str id) id kept calls.

Lemma marked_kept {A} (c : M A) :
  (∀ x w, (c x w).1.2 = x ∧ tweet_calls (c x w).2 = tweet_calls w) → inv I c.
Proof.
  intros Hc x w H. specialize (Hc x w).
  destruct (c x w) as [[r x'] w']. simpl in Hc. destruct Hc as [-> Hc].
  unfold I, marked in *. by rewrite Hc.
Qed.

(** A store operation that keeps the documents of [id] keeps the mark. *)
Lemma marked_on_database {A}
    (op : DB.XynaeDatabase → outcome A * DB.XynaeDatabase) :
  gentle op →
  (∀ d, DB.find_replied (py_str id) (DB.mentions_of d) = true →
        DB.find_replied (py_str id) (DB.mentions_of (op d).2) = true ∧
        filter (λ doc, DB.mention_tweet_id doc = py_str id)
          (DB.mentions_of (op d).2)
        = filter (λ doc, DB.mention_tweet_id doc = py_str id)
            (DB.mentions_of d)) →
  inv I (on_database op).
Proof.
  intros Hg Hop x w (Hs & Hact & Hf & Hk & Hcalls). unfold on_database.
  unfold store_sound, db_active, stored_mentions, DB.is_connected in *.
  destruct (db x) as [d|] eqn:E; [|done].
  destruct (Hg d) as (Hc & Hsd & _). destruct (Hop d Hf) as [Hf' Hk'].
  destruct (op d) as [r d']. simpl in *.
  unfold I, marked, store_sound, db_active, stored_mentions, DB.is_connected.
  simpl. rewrite Hc, Hsd, Hk'. done.
Qed.

Lemma marked_if_db_connected {A}
    (op : Z → DB.XynaeDatabase → outcome A * DB.XynaeDatabase) :
  (∀ now, gentle (op now)) →
  (∀ now d, DB.find_replied (py_str id) (DB.mentions_of d) = true →
        DB.find_replied (py_str id) (DB.mentions_of (op now d).2) = true ∧
        filter (λ doc, DB.mention_tweet_id doc = py_str id)
          (DB.mentions_of (op now d).2)
        = filter (λ doc, DB.mention_tweet_id doc = py_str id)
            (DB.mentions_of d)) →
  inv I (if_db_connected env op).
Proof.
  intros Hg Hop. unfold if_db_connected.
  apply inv_bind; [by apply inv_still|]. intros x.
  destruct (db_active x); [|apply inv_ret].
  apply inv_bind; [by apply inv_still|]. intros now.
  apply inv_bind; [|intros; apply inv_ret].
  apply marked_on_database; [apply Hg|apply Hop].
Qed.

(** The store operations of the loop body on another mention. *)
Lemma save_mention_other now tweet_id text user author flag d :
  tweet_id ≠ py_str id →
  DB.find_replied (py_str id) (DB.mentions_of d) = true →
  let d' := (DB.save_mention d now tweet_id text user author flag).2 in
  DB.find_replied (py_str id) (DB.mentions_of d') = true ∧
  filter (λ doc, DB.mention_tweet_id doc = py_str id) (DB.mentions_of d')
  = filter (λ doc, DB.mention_tweet_id doc = py_str id) (DB.mentions_of d).
Proof.
  intros Hne Hf. cbv zeta. unfold DB.save_mention.
  destruct (guarded_docs (None : option pystr) "mentions"
              (λ c, (Some (DB.oid_str c),
                     DB.mk_collections (DB.tweets c) (DB.replies c)
                       (DB.mentions c
                        ++ [DB.mk_mention tweet_id text user author flag None
                              now])
                       (DB.conversations c) (N.succ (DB.next_oid c))
                       (DB.failures c)))
              (λ ms, ms ++ [DB.mk_mention tweet_id text user author flag None
                              now])
              (λ rs, rs) d (λ c, conj eq_refl eq_refl))
    as [[-> _]|(_ & -> & _)]; [done|].
  rewrite find_replied_app, Hf. split; [done|].
  rewrite filter_app, filter_cons, decide_False by done.
  by rewrite filter_nil, app_nil_r.
Qed.

Lemma mark_mention_replied_other now tweet_id d :
  tweet_id ≠ py_str id →
  DB.find_replied (py_str id) (DB.mentions_of d) = true →
  let d' := (DB.mark_mention_replied d now tweet_id).2 in
  DB.find_replied (py_str id) (DB.mentions_of d') = true ∧
  filter (λ doc, DB.mention_tweet_id doc = py_str id) (DB.mentions_of d')
  = filter (λ doc, DB.mention_tweet_id doc = py_str id) (DB.mentions_of d).
Proof.
  intros Hne Hf. cbv zeta. unfold DB.mark_mention_replied.
  destruct (guarded_docs tt "mentions"
              (λ c, (tt,
                     DB.mk_collections (DB.tweets c) (DB.replies c)
                       (DB.update_one_replied tweet_id now (DB.mentions c))
                       (DB.conversations c) (DB.next_oid c) (DB.failures c)))
              (DB.update_one_replied tweet_id now) (λ rs, rs) d
              (λ c, conj eq_refl eq_refl))
    as [[-> _]|(_ & -> & _)]; [done|].
  rewrite find_replied_update_other, filter_update_other by done. done.
Qed.

Lemma save_reply_mentions now tweet_id text user reply reply_id d :
  DB.mentions_of (DB.save_reply d now tweet_id text user reply reply_id).2
  = DB.mentions_of d.
Proof.
  unfold DB.save_reply.
  by destruct (guarded_docs (None : option pystr) "replies"
              (λ c, (Some (DB.oid_str c),
                     DB.mk_collections (DB.tweets c)
                       (DB.replies c
                        ++ [DB.mk_reply tweet_id text user reply reply_id now])
                       (DB.mentions c) (DB.conversations c)
                       (N.succ (DB.next_oid c)) (DB.failures c)))
              (λ ms, ms)
              (λ rs, rs ++ [DB.mk_reply tweet_id text user reply reply_id now])
              d (λ c, conj eq_refl eq_refl))
    as [[-> _]|(_ & -> & _)].
Qed.

(** The lookup of another mention: when it answers that the mention is not
    replied, the mention is not [id]. *)
Lemma marked_lookup tweet_id :
  triple I (on_database (λ d, DB.is_tweet_replied d tweet_id))
    (λ r x w, I x w ∧ (r = Returned false → tweet_id ≠ py_str id)).
Proof.
  intros x w H.
  pose proof (marked_on_database (λ d, DB.is_tweet_replied d tweet_id)
                (is_tweet_replied_gentle tweet_id)) as Hinv.
  specialize (Hinv (λ d Hf,
    match guarded_docs false "mentions"
            (λ c, (DB.find_replied tweet_id (DB.mentions c), c))
            (λ ms, ms) (λ rs, rs) d (λ c, conj eq_refl eq_refl) with
    | or_introl (conj Hm _) | or_intror (conj _ (conj Hm _)) =>
        conj (eq_ind_r (λ ms, DB.find_replied (py_str id) ms = true) Hf Hm)
          (f_equal _ Hm)
    end) x w H).
  destruct H as (Hs & Hact & Hf & _).
  unfold on_database in *.
  unfold store_sound, db_active, stored_mentions, DB.is_connected in *.
  destruct (db x) as [d|] eqn:E; [|done].
  unfold DB.is_tweet_replied in *. rewrite Hact in *. simpl negb in *.
  cbv iota in *.
  unfold DB.on_db, DB.on_db_in, DB.mentions_of in *.
  destruct (DB.db d) as [c|] eqn:Ed; [|by split].
  pose proof (round_trips_keep 1 c) as (_ & _ & Hm & _). cbv zeta in Hm.
  destruct (DB.round_trips 1 c) as [[e|] c1]; simpl in *; [by split|].
  split; [done|]. intros [= Hr] ->. congruence.
Qed.

Lemma marked_create_tweet text reply_to :
  reply_to ≠ Some id → inv I (client_create_tweet env text reply_to).
Proof.
  intros Hne x w (Hs & Hact & Hf & Hk & more & Hw & Hmore). simpl.
  repeat split; try done.
  exists (more ++ [mk_publish text reply_to]).
  split; [by rewrite Hw, app_assoc|].
  apply Forall_app. split; [done|]. by constructor.
Qed.

Lemma marked_reply_to_mention m : inv I (reply_to_mention env m).
Proof.
  unfold reply_to_mention. cbv zeta.
  apply inv_bind_self. intros x1.
  eapply triple_bind
    with (R := λ r x w, I x w ∧
                 (r = Returned false → py_str (mention_id m) ≠ py_str id)).
  - destruct (db_active x1) eqn:Hact.
    + eapply triple_weaken; [apply marked_lookup|by intros ? ? [? _]|done].
    + intros x w [(_ & Ha & _) ->]. congruence.
  - intros [|]; [by intros x w [H _]|].
    intros x w [H Hne]. specialize (Hne eq_refl). revert x w H.
    assert (mention_id m ≠ id) as Hid by congruence.
    apply inv_bind.
    { apply inv_try; [|intros; apply inv_ret].
      apply inv_bind; [by apply inv_still|intros; apply inv_ret]. }
    intros username.
    apply inv_bind.
    { apply marked_if_db_connected; [intros; apply save_mention_gentle|].
      intros now d Hf. by apply save_mention_other. }
    intros _.
    apply inv_bind.
    { apply marked_kept. intros x w.
      destruct (generate_reply_run env (mention_text m) username x w)
        as (r & w' & -> & Hc & _). done. }
    intros reply_text.
    apply inv_try; [|intros; apply inv_ret].
    apply inv_bind; [apply marked_create_tweet; congruence|].
    intros reply_result. cbv zeta.
    apply inv_bind; [by apply inv_still|]. intros x2.
    apply inv_bind.
    2:{ intros _. apply marked_kept. intros x w.
        split; [apply time_sleep_still|apply time_sleep_calls]. }
    destruct (db_active x2); [|by intros x w H].
    apply inv_bind; [by apply inv_still|]. intros now.
    apply inv_bind.
    { apply marked_on_database; [apply mark_mention_replied_gentle|].
      intros d Hf. by apply mark_mention_replied_other. }
    intros _.
    apply inv_bind; [by apply inv_still|]. intros now'.
    apply inv_bind; [|intros; apply inv_ret].
    apply marked_on_database; [apply save_reply_gentle|].
    intros d Hf. by rewrite save_reply_mentions.
  - by intros e x w [H _].
Qed.

Lemma marked_clean_up : inv I (clean_up_replied_tweets env).
Proof.
  intros x w H. pose proof H as (_ & Hact & _).
  unfold clean_up_replied_tweets, bind, get_self. by rewrite Hact.
Qed.

End Marked.

(** C4.  In store-backed mode, when the store holds a mention document of
    M that is marked replied, a check cycle, whatever the platform returns
    and whatever else it does, makes no [create_tweet] call in reply to M,
    leaves the documents of M as they are and leaves M marked. *)
Theorem replied_mention_is_skipped env x w m :
  store_sound x = true → db_active x = true →
  DB.find_replied (py_str (mention_id m)) (stored_mentions x) = true →
  let '(_, x', w') := check_and_reply_to_mentions env x w in
  (∃ more, tweet_calls w' = tweet_calls w ++ more ∧
           Forall (λ p, in_reply_to p ≠ Some (mention_id m)) more) ∧
  filter (λ doc, DB.mention_tweet_id doc = py_str (mention_id m))
    (stored_mentions x')
  = filter (λ doc, DB.mention_tweet_id doc = py_str (mention_id m))
      (stored_mentions x) ∧
  already_replied x' (py_str (mention_id m)) = true.
Proof.
  intros Hs Hact Hf.
  pose proof (check_and_reply_inv env
                (marked (py_str (mention_id m)) (mention_id m)
                   (filter (λ doc, DB.mention_tweet_id doc = py_str (mention_id m))
                      (stored_mentions x))
                   (tweet_calls w))
                (λ m', marked_reply_to_mention env _ _ _ m')
                (marked_clean_up env _ _ _) x w) as H.
  destruct (check_and_reply_to_mentions env x w) as [[r x'] w'].
  destruct H as (Hs' & Hact' & Hf' & Hk' & Hcalls).
  { repeat split; try done. exists []. by rewrite app_nil_r. }
  split; [done|]. split; [done|].
  unfold already_replied. by rewrite Hact'.
Qed.

(** ** A mention whose reply does not get through *)

Lemma set_add_elem env k s y :
  set_faithful env → y ∈ set_add env k s ↔ y = k ∨ y ∈ s.
Proof.
  intros Hf. unfold set_add. case_decide as E; [|apply Hf].
  split; [by right|]. by intros [->|?].
Qed.

Lemma set_of_list_elem env l y :
  set_faithful env → y ∈ set_of_list env l ↔ y ∈ l.
Proof.
  intros Hf. unfold set_of_list.
  assert (∀ acc, y ∈ fold_left (λ s k, set_add env k s) l acc
                 ↔ y ∈ l ∨ y ∈ acc) as H.
  { induction l as [|k l IH]; intros acc; simpl.
    - split; [by right|]. intros [H|H]; [by apply elem_of_nil in H|done].
    - rewrite IH, set_add_elem, elem_of_cons by done. tauto. }
  rewrite H. split; [|by left]. intros [?|E]; [done|by apply elem_of_nil in E].
Qed.

Lemma elem_of_py_last {A} n (l : list A) y : y ∈ py_last n l → y ∈ l.
Proof.
  unfold py_last. intros H.
  rewrite <- (take_drop (length l - n) l). apply elem_of_app. by right.
Qed.

(** The clean-up touches nothing but the set, and adds nothing to it. *)
Lemma clean_up_effects env x w :
  set_faithful env →
  let '(r, x', w') := clean_up_replied_tweets env x w in
  r = Returned tt ∧ w' = w ∧ db x' = db x ∧
  twitter_client x' = twitter_client x ∧
  ∀ y, y ∈ replied_tweets x' → y ∈ replied_tweets x.
Proof.
  intros Hf. unfold clean_up_replied_tweets, bind, get_self.
  destruct (_ && _); simpl; [|done].
  repeat split. intros y Hy.
  apply (proj1 (set_of_list_elem env _ _ Hf)) in Hy.
  by apply elem_of_py_last in Hy.
Qed.

Lemma already_replied_same x x' tweet_id :
  db x' = db x →
  (∀ y, y ∈ replied_tweets x' → y ∈ replied_tweets x) →
  already_replied x tweet_id = false → already_replied x' tweet_id = false.
Proof.
  unfold already_replied, db_active, stored_mentions. intros -> Hsub.
  destruct (match db x with Some d => DB.is_connected d | None => false end);
    [done|].
  intros H%bool_decide_eq_false. apply bool_decide_eq_false. auto.
Qed.

Section OneMention.

Variable env : Env.
Variable id : Z.
Hypothesis faithful : set_faithful env.

Let tweet_id := py_str id.

(** What a failed or foreign attempt leaves of the dedup state of [id]. *)
Lemma still_unset_after_failure x x' doc :
  already_replied x tweet_id = false →
  db_active x' = db_active x →
  replied_tweets x' = replied_tweets x →
  DB.replied doc = false →
  stored_mentions x' = stored_mentions x ++ (if db_active x then [doc] else []) →
  already_replied x' tweet_id = false.
Proof.
  unfold already_replied. intros Ha Hact Hr Hd Hm. rewrite Hact, Hr, Hm.
  destruct (db_active x); [|done].
  by rewrite find_replied_app, Ha, find_replied_one, Hd, andb_false_r.
Qed.

Lemma still_unset_after_other_reply (m : Mention) x x' doc now :
  py_str (mention_id m) ≠ tweet_id →
  DB.mention_tweet_id doc = py_str (mention_id m) →
  already_replied x tweet_id = false →
  db_active x' = db_active x →
  (if db_active x then
     replied_tweets x' = replied_tweets x ∧
     stored_mentions x'
     = DB.update_one_replied (py_str (mention_id m)) now (stored_mentions x ++ [doc])
   else
     replied_tweets x' = set_add env (py_str (mention_id m)) (replied_tweets x) ∧
     stored_mentions x' = stored_mentions x) →
  already_replied x' tweet_id = false.
Proof.
  unfold already_replied. intros Hne Hd Ha Hact Hobs. rewrite Hact.
  destruct (db_active x).
  - destruct Hobs as [_ ->].
    rewrite find_replied_update_other, find_replied_app, Ha, find_replied_one
      by done.
    rewrite bool_decide_eq_false_2; [done|congruence].
  - destruct Hobs as [-> _]. apply bool_decide_eq_false in Ha.
    apply bool_decide_eq_false. rewrite set_add_elem by done.
    intros [E|E]; [by apply Hne|done].
Qed.

(** While every publish in reply to [id] raises, a mention keeps [id]
    unanswered. *)
Lemma unanswered_reply_to_mention client active kept calls m :
  (∀ w0 text, ∃ e, create_tweet env w0 text (Some id) = Raised e) →
  inv (unanswered tweet_id id client active kept calls) (reply_to_mention env m).
Proof.
  intros Hfail x w (Hs & Hc & Hact & Ha & Hk & more & Hw & Hdoc).
  pose proof (reply_to_mention_effects env m x w Hs) as H. cbv zeta in H.
  destruct (reply_to_mention env m x w) as [[r x'] w'].
  destruct H as (Hs' & Ha' & Hc' & H).
  destruct H as [(_ & _ & -> & ->)|[H|H]].
  - repeat split; try done. by exists more.
  - destruct H as (Hnew & text & w1 & e & doc & _ & _ & Hcalls & Hid & Hrep
                   & Hr & Hp & Hm).
    repeat split; [done|congruence|congruence| |congruence|].
    { by eapply still_unset_after_failure. }
    exists (more ++ [mk_publish text (Some (mention_id m))]).
    split; [by rewrite Hcalls, Hw, app_assoc|].
    intros [text' Hin] ->. rewrite Hm, Hact.
    apply elem_of_app in Hin as [Hin|Hin].
    + destruct (Hdoc (ex_intro _ text' Hin) eq_refl) as (doc' & ? & ? & ?).
      exists doc'. split; [|done]. apply elem_of_app. by left.
    + apply list_elem_of_singleton in Hin. injection Hin as _ Hmid.
      exists doc. split; [apply elem_of_app; right; by apply list_elem_of_singleton|].
      split; [|done]. unfold tweet_id. congruence.
  - destruct H as (Hnew & text & w1 & rr & doc & rdoc & now & Hct & _ & Hcalls
                   & Hid & Hrid & Hobs).
    assert (Hne : mention_id m ≠ id).
    { intros E. destruct (Hfail w1 text) as [e He]. congruence. }
    assert (Hne' : py_str (mention_id m) ≠ tweet_id).
    { intros E. by apply py_str_inj in E. }
    repeat split; [done|congruence|congruence| | |].
    { eapply still_unset_after_other_reply; try done.
      destruct (db_active x); [|tauto]. split; [apply Hobs|apply Hobs]. }
    { rewrite <- Hk. destruct (db_active x).
      - destruct Hobs as (_ & _ & ->).
        rewrite filter_app, filter_cons, decide_False by congruence.
        by rewrite filter_nil, app_nil_r.
      - by destruct Hobs as (_ & _ & ->). }
    exists (more ++ [mk_publish text (Some (mention_id m))]).
    split; [by rewrite Hcalls, Hw, app_assoc|].
    intros [text' Hin] ->. rewrite Hact in Hobs.
    destruct Hobs as (_ & -> & _).
    apply elem_of_app in Hin as [Hin|Hin].
    + destruct (Hdoc (ex_intro _ text' Hin) eq_refl) as (doc' & ? & Hd' & ?).
      exists doc'. split; [|done].
      apply elem_of_update_other; [congruence|]. apply elem_of_app. by left.
    + apply list_elem_of_singleton in Hin. injection Hin as _ Hmid. done.
Qed.

Lemma unanswered_clean_up client active kept calls :
  inv (unanswered tweet_id id client active kept calls)
    (clean_up_replied_tweets env).
Proof.
  intros x w (Hs & Hc & Hact & Ha & Hk & more & Hw & Hdoc).
  pose proof (clean_up_effects env x w faithful) as H.
  destruct (clean_up_replied_tweets env x w) as [[r x'] w'].
  destruct H as (_ & -> & Hdb & Hc' & Hsub).
  repeat split.
  - unfold store_ready, store_sound, store_answers in *. by rewrite Hdb.
  - congruence.
  - unfold db_active in *. by rewrite Hdb.
  - by eapply already_replied_same.
  - unfold stored_replies in *. by rewrite Hdb.
  - exists more. split; [done|]. intros Hin Hact'.
    unfold stored_mentions in *. rewrite Hdb. by apply Hdoc.
Qed.

(** The next cycle, at a platform that raises nothing but its own error. *)
Hypothesis platform_errors : tweepy_only env.

Lemma attempted_extends calls w w' ext :
  attempted id calls w → tweet_calls w' = tweet_calls w ++ ext →
  attempted id calls w'.
Proof.
  intros (more & text & Hw & Hin) Hext. exists (more ++ ext), text.
  split; [by rewrite Hext, Hw, app_assoc|]. apply elem_of_app. by left.
Qed.

Lemma pending_reply_to_mention calls m x w :
  pending tweet_id id calls x w →
  let '(r, x', w') := reply_to_mention env m x w in
  r = Returned tt ∧ pending tweet_id id calls x' w' ∧
  (∃ ext, tweet_calls w' = tweet_calls w ++ ext) ∧
  (mention_id m = id → attempted id calls w').
Proof.
  intros (Hs & [more Hw] & Hp).
  pose proof (reply_to_mention_effects env m x w Hs) as H. cbv zeta in H.
  destruct (reply_to_mention env m x w) as [[r x'] w'].
  destruct H as (Hs' & Ha' & Hc' & H).
  destruct H as [(Hold & -> & -> & ->)|[H|H]].
  - split; [done|]. split; [by repeat split; eauto|].
    split; [exists []; by rewrite app_nil_r|].
    intros E. destruct Hp as [?|Hp]; [done|]. rewrite E in Hold.
    fold tweet_id in Hold. congruence.
  - destruct H as (Hnew & text & w1 & e & doc & Hct & -> & Hcalls & Hid & Hrep
                   & Hr & Hrp & Hm).
    rewrite (platform_errors _ _ _ _ Hct). simpl.
    assert (Hatt : mention_id m = id → attempted id calls w').
    { intros <-. exists (more ++ [mk_publish text (Some (mention_id m))]), text.
      split; [by rewrite Hcalls, Hw, app_assoc|].
      apply elem_of_app; right. by apply list_elem_of_singleton. }
    split; [done|]. split; [|split; [eauto|done]].
    split; [done|]. split; [exists (more ++ [mk_publish text (Some (mention_id m))]);
                            by rewrite Hcalls, Hw, app_assoc|].
    destruct Hp as [Hp|Hp]; [left; by eapply attempted_extends|].
    right. by eapply still_unset_after_failure.
  - destruct H as (Hnew & text & w1 & rr & doc & rdoc & now & Hct & -> & Hcalls
                   & Hid & Hrid & Hobs).
    assert (Hatt : mention_id m = id → attempted id calls w').
    { intros <-. exists (more ++ [mk_publish text (Some (mention_id m))]), text.
      split; [by rewrite Hcalls, Hw, app_assoc|].
      apply elem_of_app; right. by apply list_elem_of_singleton. }
    split; [done|]. split; [|split; [eauto|done]].
    split; [done|]. split; [exists (more ++ [mk_publish text (Some (mention_id m))]);
                            by rewrite Hcalls, Hw, app_assoc|].
    destruct (decide (mention_id m = id)) as [E|E]; [left; by apply Hatt|].
    destruct Hp as [Hp|Hp]; [left; by eapply attempted_extends|].
    right. eapply still_unset_after_other_reply; try done.
    + intros E'. by apply py_str_inj in E'.
    + destruct (db_active x); [|tauto]. split; apply Hobs.
Qed.

Lemma pending_for_each calls ms x w :
  pending tweet_id id calls x w →
  let '(r, x', w') := for_each (reply_to_mention env) ms x w in
  r = Returned tt ∧ pending tweet_id id calls x' w' ∧
  (∃ ext, tweet_calls w' = tweet_calls w ++ ext) ∧
  ((∃ m, m ∈ ms ∧ mention_id m = id) → attempted id calls w').
Proof.
  revert x w. induction ms as [|m ms IH]; intros x w Hp; simpl.
  - split; [done|]. split; [done|]. split; [exists []; by rewrite app_nil_r|].
    intros (m & Hin & _). by apply elem_of_nil in Hin.
  - pose proof (pending_reply_to_mention calls m x w Hp) as H.
    unfold bind. destruct (reply_to_mention env m x w) as [[r x1] w1].
    destruct H as (-> & Hp1 & [ext1 He1] & Hatt1).
    specialize (IH x1 w1 Hp1).
    destruct (for_each (reply_to_mention env) ms x1 w1) as [[r' x'] w'].
    destruct IH as (-> & Hp' & [ext He] & Hatt).
    split; [done|]. split; [done|].
    split; [exists (ext1 ++ ext); by rewrite He, He1, app_assoc|].
    intros (m' & [->|Hin]%elem_of_cons & Hid).
    + eapply attempted_extends; [by apply Hatt1|exact He].
    + apply Hatt. eauto.
Qed.

End OneMention.

(** C5, as the code has it.  A check cycle at a platform that refuses
    every reply to mention [m] with its own error, on a store whose server
    answers, leaves the dedup state of [m] unset, saves no reply record for
    it and, once a reply to it was attempted with the store connected,
    leaves it in the store as not replied; in the loop body the reply is
    generated on the object that already holds that document.  The next
    cycle that fetches [m] attempts a reply to [m] again when the platform
    raises nothing but its own error there: an error of another class on an
    earlier mention of the batch ends the cycle before [m] is reached. *)
Theorem failed_reply_is_retried env env' x w m :
  store_sound x = true → store_answers x = true → twitter_client x = true →
  set_faithful env → set_faithful env' → tweepy_only env' →
  already_replied x (py_str (mention_id m)) = false →
  (∀ w0 text, ∃ e,
     create_tweet env w0 text (Some (mention_id m)) = Raised e ∧
     exn_cls e = TweepyException) →
  (∀ w0, ∃ me ms,
     get_me env' w0 = Returned (Some me) ∧
     get_users_mentions env' w0 me.1 10 = Returned ms ∧ m ∈ ms) →
  let '(_, x1, w1) := check_and_reply_to_mentions env x w in
  let '(_, x2, w2) := check_and_reply_to_mentions env' x1 w1 in
  already_replied x1 (py_str (mention_id m)) = false ∧
  filter (λ r, DB.original_tweet_id r = py_str (mention_id m)) (stored_replies x1)
  = filter (λ r, DB.original_tweet_id r = py_str (mention_id m)) (stored_replies x) ∧
  (attempted (mention_id m) (tweet_calls w) w1 → db_active x = true →
   ∃ doc, doc ∈ stored_mentions x1 ∧
          DB.mention_tweet_id doc = py_str (mention_id m) ∧
          DB.replied doc = false) ∧
  (db_active x = true →
   ∃ username doc reply_text generated,
     let recorded := mention_recorded env w m username x in
     stored_mentions recorded = stored_mentions x ++ [doc] ∧
     DB.mention_tweet_id doc = py_str (mention_id m) ∧
     DB.replied doc = false ∧
     generate_reply env (mention_text m) username recorded w
     = (Returned reply_text, recorded, generated) ∧
     reply_to_mention env m x w
     = (Returned tt, recorded,
        called generated (mk_publish reply_text (Some (mention_id m))))) ∧
  attempted (mention_id m) (tweet_calls w1) w2.
Proof.
  intros Hs Hans Hc Hf Hf' Hte Ha Hfail Hfetch.
  assert (Hready : store_ready x = true)
    by (unfold store_ready; by rewrite Hs, Hans).
  pose proof (check_and_reply_inv env
                (unanswered (py_str (mention_id m)) (mention_id m) true
                   (db_active x)
                   (filter (λ r, DB.original_tweet_id r = py_str (mention_id m))
                      (stored_replies x))
                   (tweet_calls w))
                (λ m', unanswered_reply_to_mention env (mention_id m) Hf _ _ _ _ m'
                         (λ w0 text, match Hfail w0 text with
                                     | ex_intro _ e (conj He _) => ex_intro _ e He
                                     end))
                (unanswered_clean_up env (mention_id m) Hf _ _ _ _) x w) as H1.
  destruct (check_and_reply_to_mentions env x w) as [[r1 x1] w1].
  destruct H1 as (Hs1 & Hc1 & Hact1 & Ha1 & Hk1 & more1 & Hw1 & Hdoc1).
  { repeat split; try done. exists []. split; [by rewrite app_nil_r|].
    intros [text Hin]. by apply elem_of_nil in Hin. }
  assert (H2 : ∃ r2 x2 wa xa,
    check_and_reply_to_mentions env' x1 w1 = (r2, x2, wa) ∧
    attempted (mention_id m) (tweet_calls w1) wa ∧
    pending (py_str (mention_id m)) (mention_id m) (tweet_calls w1) xa wa).
  { destruct (Hfetch w1) as ([uid name] & ms & Hme & Hms & Hin).
    assert (Hp : pending (py_str (mention_id m)) (mention_id m) (tweet_calls w1)
                   x1 w1).
    { split; [done|]. split; [exists []; by rewrite app_nil_r|]. by right. }
    pose proof (pending_for_each env' (mention_id m) Hf' Hte (tweet_calls w1)
                  ms x1 w1 Hp) as Hloop.
    destruct (for_each (reply_to_mention env') ms x1 w1) as [[r xa] wa] eqn:Eloop.
    destruct Hloop as (-> & Hpa & _ & Hatt).
    pose proof (clean_up_effects env' xa wa Hf') as Hclean.
    destruct (clean_up_replied_tweets env' xa wa) as [[rc xc] wc] eqn:Eclean.
    destruct Hclean as (-> & -> & _).
    exists (Returned tt), xc, wa, xa. split; [|split; [apply Hatt; eauto|done]].
    unfold check_and_reply_to_mentions, bind at 1, get_self.
    rewrite Hc1. cbn [negb].
    unfold bind at 1, try_except, bind at 1, client_get_me. rewrite Hme.
    unfold bind at 1, client_get_users_mentions. simpl in Hms. rewrite Hms.
    destruct ms as [|m0 ms']; [by apply elem_of_nil in Hin|].
    unfold bind at 1. rewrite Eloop. cbn [ret]. exact Eclean. }
  destruct H2 as (r2 & x2 & wa & xa & -> & Hatt & _).
  split; [done|]. split; [done|]. split; [|split; [|done]].
  - intros (more & text & Hw & Hin) Hact. rewrite Hact in *.
    apply Hdoc1; [|done]. exists text. rewrite Hw1 in Hw.
    by apply app_inv_head in Hw as ->.
  - intros Hact.
    destruct (reply_to_mention_attempt env m x w Hs Hans Ha)
      as (username & text & wr & _ & _ & Hgen & Hrun).
    destruct (mention_recorded_obs env w m username x Hs Hans)
      as (_ & _ & _ & _ & _ & _ & Hm).
    rewrite Hact in Hm.
    destruct (Hfail wr text) as (e & He & Hcls). rewrite He, Hcls in Hrun.
    eexists username, _, text, wr. cbv zeta.
    split; [exact Hm|]. split; [done|]. split; [done|]. by split.
Qed.

(** After a first cycle that replied to mention "123", a second cycle that
    fetches it again leaves it alone. *)
Lemma replied_mention_is_skipped_witness :
  store_sound Scenario.replied_agent = true ∧
  db_active Scenario.replied_agent = true ∧
  DB.find_replied (py_str 123) (stored_mentions Scenario.replied_agent) = true ∧
  let '(_, x', w') :=
    check_and_reply_to_mentions Scenario.open_inbox Scenario.replied_agent
      Scenario.replied_world in
  (∃ more, tweet_calls w' = tweet_calls Scenario.replied_world ++ more ∧
           Forall (λ p, in_reply_to p ≠ Some 123%Z) more) ∧
  filter (λ doc, DB.mention_tweet_id doc = py_str 123) (stored_mentions x')
  = filter (λ doc, DB.mention_tweet_id doc = py_str 123)
      (stored_mentions Scenario.replied_agent) ∧
  already_replied x' (py_str 123) = true.
Proof.
  split; [reflexivity|]. split; [reflexivity|]. split; [reflexivity|].
  exact (replied_mention_is_skipped Scenario.open_inbox Scenario.replied_agent
           Scenario.replied_world Scenario.mention_123 eq_refl eq_refl eq_refl).
Defined.

(** ** The platforms of the scenarios *)

Lemma platform_faithful mentions publish :
  set_faithful (Scenario.platform mentions publish).
Proof.
  intros k s y. simpl. rewrite elem_of_app, list_elem_of_singleton. tauto.
Qed.

Lemma open_inbox_errors : tweepy_only Scenario.open_inbox.
Proof. intros w text r e H. discriminate H. Qed.

Lemma closed_inbox_refuses w text :
  ∃ e, create_tweet Scenario.closed_inbox w text
         (Some (mention_id Scenario.mention_123)) = Raised e ∧
       exn_cls e = TweepyException.
Proof. by exists Scenario.forbidden. Qed.

Lemma open_inbox_fetches w :
  ∃ me ms,
    get_me Scenario.open_inbox w = Returned (Some me) ∧
    get_users_mentions Scenario.open_inbox w me.1 10 = Returned ms ∧
    Scenario.mention_123 ∈ ms.
Proof.
  exists (42%Z, u "xynae"), [Scenario.mention_123].
  split; [reflexivity|]. split; [reflexivity|].
  by apply list_elem_of_singleton.
Qed.

(** Mention "123" at a platform that refuses the reply, then at one that
    publishes it. *)
Lemma failed_reply_is_retried_witness :
  let '(_, x1, w1) :=
    check_and_reply_to_mentions Scenario.closed_inbox
      (Scenario.online_bot Scenario.closed_inbox) initial_world in
  let '(_, x2, w2) :=
    check_and_reply_to_mentions Scenario.open_inbox x1 w1 in
  already_replied x1 (py_str 123) = false ∧
  attempted 123 (tweet_calls w1) w2.
Proof.
  pose proof (failed_reply_is_retried Scenario.closed_inbox Scenario.open_inbox
                (Scenario.online_bot Scenario.closed_inbox) initial_world
                Scenario.mention_123 eq_refl eq_refl eq_refl
                (platform_faithful _ _) (platform_faithful _ _)
                open_inbox_errors eq_refl closed_inbox_refuses
                open_inbox_fetches) as H.
  destruct (check_and_reply_to_mentions Scenario.closed_inbox
              (Scenario.online_bot Scenario.closed_inbox) initial_world)
    as [[r1 x1] w1].
  destruct (check_and_reply_to_mentions Scenario.open_inbox x1 w1)
    as [[r2 x2] w2].
  exact (conj (proj1 H) (proj2 (proj2 (proj2 (proj2 H))))).
Defined.

(** C5, refuted as stated.  The first cycle fails to publish the reply to
    mention "123" and leaves it unset.  The second cycle fetches mention
    "7" before it; the publish for "7" raises an error that is not the
    platform's, the [except Exception] of the cycle ends the batch, and no
    reply to "123" is attempted: the calls of the two cycles are the failed
    reply to "123" and the reply to "7". *)
Lemma retry_is_lost_to_an_earlier_error :
  let '(_, x1, w1) :=
    check_and_reply_to_mentions Scenario.closed_inbox
      (Scenario.online_bot Scenario.closed_inbox) initial_world in
  let '(_, x2, w2) :=
    check_and_reply_to_mentions Scenario.crowded_inbox x1 w1 in
  already_replied x1 (py_str 123) = false ∧
  in_reply_to <$> tweet_calls w1 = [Some 123%Z] ∧
  in_reply_to <$> tweet_calls w2 = [Some 123%Z; Some 7%Z] ∧
  already_replied x2 (py_str 123) = false.
Proof. vm_compute. done. Qed.

(** ** The in-memory dedup set *)

(** Whatever the hash order, the clean-up keeps the ids that come last in
    the iteration order of the set. *)
Lemma clean_up_keeps_last_in_iteration_order env x w y :
  set_faithful env → db_active x = false →
  100 < length (replied_tweets x) →
  y ∈ replied_tweets (clean_up_replied_tweets env x w).1.2
  ↔ y ∈ py_last 100 (replied_tweets x).
Proof.
  intros Hf Hact Hlen. unfold clean_up_replied_tweets, bind, get_self.
  rewrite Hact. cbn [negb andb].
  apply Nat.ltb_lt in Hlen. rewrite Hlen. simpl.
  by apply set_of_list_elem.
Qed.

(** C2, at a failing input.  Memory-only mode, 101 mentions replied to in
    eleven check cycles, on a [set] whose hash order iterates a new key
    first: after the clean-up of the eleventh cycle the set has 100 ids,
    the id added last ("101") is gone and the id added first ("1") is still
    there. *)
Theorem clean_up_evicts_by_hash_order :
  let '(x, w) :=
    Scenario.check_cycles 11 (Scenario.busy_platform Scenario.newest_first)
      (Scenario.bot (Scenario.busy_platform Scenario.newest_first))
      initial_world in
  db_active x = false ∧
  in_reply_to <$> tweet_calls w = (λ i, Some (Z.of_nat i)) <$> seq 1 101 ∧
  length (replied_tweets x) = 100 ∧
  bool_decide (py_str 101 ∈ replied_tweets x) = false ∧
  bool_decide (py_str 1 ∈ replied_tweets x) = true.
Proof. vm_compute. done. Qed.

(** On a [set] that happened to iterate in insertion order the same run
    keeps the 100 ids added last. *)
Lemma clean_up_in_insertion_order :
  replied_tweets
    (Scenario.check_cycles 11 (Scenario.busy_platform Scenario.newest_last)
       (Scenario.bot (Scenario.busy_platform Scenario.newest_last))
       initial_world).1
  = (λ i, py_str (Z.of_nat i)) <$> seq 2 100.
Proof. vm_compute. reflexivity. Qed.

(** * Further properties *)

(** ** The provider manager *)
Section ProviderRegistry.

Import LLM.

(** X1.  The registry the manager builds holds the back ends that passed
    [is_available], under the names "anthropic", "openai", "gemini" and in
    that order; a back end whose constructor raised or that has no key is
    left out, and the number of entries is the number of usable back
    ends. *)
Theorem providers_registered_in_fixed_order pe preferred :
  list_available_providers (LLM.__init__ pe preferred)
  = (filter (λ np, usable np.2 = true)
       [(u "anthropic", anthropic_probe pe); (u "openai", openai_probe pe);
        (u "gemini", gemini_probe pe)]).*1
  ∧ length (providers (LLM.__init__ pe preferred)) = usable_backends pe.
Proof. destruct pe as [[] [] []]; split; vm_compute; reflexivity. Qed.

Lemma fallback_calls skip c ps log :
  ∃ more, (fallback skip c ps log).2 = log ++ more ∧ length more ≤ length ps ∧
          Forall (λ l, ∃ np, np ∈ ps ∧ prov_label np.2 = l) more.
Proof.
  revert log. induction ps as [|[name prov] rest IH]; intros log; simpl.
  - exists []. by rewrite app_nil_r.
  - case_decide.
    + destruct (IH log) as (more & -> & Hl & Hf). exists more.
      split; [done|]. split; [lia|].
      eapply Forall_impl; [exact Hf|]. intros l (np & ? & ?). exists np.
      split; [by right|done].
    + unfold call. destruct (prov_generate prov log c); simpl.
      * exists [prov_label prov]. split; [done|]. split; [simpl; lia|].
        constructor; [|done]. exists (name, prov). split; [by left|done].
      * destruct (IH (log ++ [prov_label prov])) as (more & -> & Hl & Hf).
        exists (prov_label prov :: more). split; [by rewrite <- app_assoc|].
        split; [simpl; lia|]. constructor.
        -- exists (name, prov). split; [by left|done].
        -- eapply Forall_impl; [exact Hf|]. intros l (np & ? & ?). exists np.
           split; [by right|done].
Qed.

Lemma dict_get_elem {V} (d : list (pystr * V)) k v :
  dict_get d k = Some v → (k, v) ∈ d.
Proof.
  induction d as [|[k' v'] d IH]; simpl; [done|].
  case_decide; [intros [= ->]; subst; by left|]. intros H'. right. auto.
Qed.

Lemma get_provider_registered m provider p :
  get_provider m provider = Returned p → ∃ name, (name, p) ∈ providers m.
Proof.
  unfold get_provider. destruct (truthy provider) as [name|].
  - destruct (dict_get _ _) eqn:E; [|done]. intros [= ->]. exists name.
    by apply dict_get_elem.
  - case_decide.
    + destruct (providers m) as [|[n q] rest]; [done|]. intros [= ->].
      exists n. by left.
    + destruct (dict_get _ _) eqn:E; [|done]. intros [= ->]. eexists.
      by apply dict_get_elem.
Qed.

(** X2.  One [generate] extends the trace of provider calls by at most one
    call more than there are registered providers, every call goes to a
    registered provider, and no call at all is made exactly when the
    selection of the provider raises. *)
Theorem generate_calls_are_bounded m c provider log :
  ∃ more, (generate m c provider log).2 = log ++ more ∧
          length more ≤ S (length (providers m)) ∧
          Forall (registered m) more ∧
          (more = [] ↔ ∃ e, get_provider m provider = Raised e).
Proof.
  unfold generate.
  destruct (get_provider m provider) as [p|e] eqn:E.
  - destruct (get_provider_registered _ _ _ E) as [name Hin].
    assert (registered m (prov_label p)) as Hp by (by exists (name, p)).
    unfold call. destruct (prov_generate p log c) as [text|e]; simpl.
    + exists [prov_label p]. split; [done|]. split; [simpl; lia|].
      split; [by constructor|]. split; [done|]. by intros [? ?].
    + destruct (fallback_calls
                  (match truthy provider with
                   | Some name => name
                   | None => preferred_provider m
                   end) c (providers m) (log ++ [prov_label p]))
        as (more & Hmore & Hl & Hf).
      exists (prov_label p :: more).
      destruct (fallback _ _ _ _) as [[text|] log2]; simpl in *; subst log2.
      all: split; [by rewrite <- app_assoc|]; split; [simpl; lia|].
      all: split; [by constructor|]; split; [done|]; by intros [? ?].
  - simpl. exists []. split; [by rewrite app_nil_r|]. split; [simpl; lia|].
    split; [done|]. split; [eauto|done].
Qed.

(** X3.  When the provider named by the hint, or else by a preference
    other than "auto", is registered and fails, [generate] calls the other
    registered providers once each in registration order, skipping that
    name, and returns the text of the first that answers: with [k] failures
    before it, [k + 1] calls. *)
Theorem fallback_after_a_named_provider m c provider selected before name ok
    rest text log :
  let chosen := match truthy provider with
                | Some hint => hint
                | None => preferred_provider m
                end in
  (truthy provider = None → preferred_provider m ≠ u "auto") →
  dict_get (providers m) chosen = Some selected →
  providers m = before ++ (name, ok) :: rest →
  (∀ l, ∃ e, prov_generate selected l c = Raised e) →
  Forall (λ np, np.1 = chosen ∨ ∀ l, ∃ e, prov_generate np.2 l c = Raised e)
    before →
  name ≠ chosen →
  (∀ l, prov_generate ok l c = Returned text) →
  generate m c provider log
  = (Returned text,
     log ++ [prov_label selected]
         ++ (prov_label ∘ snd <$> filter (λ np, np.1 ≠ chosen) before)
         ++ [prov_label ok]).
Proof.
  intros chosen Hnamed Hsel Hps Hdown Hbefore Hname Hok.
  assert (get_provider m provider = Returned selected) as Hget.
  { unfold get_provider. unfold chosen in Hsel.
    destruct (truthy provider) as [hint|].
    - by rewrite Hsel.
    - rewrite decide_False by auto. by rewrite Hsel. }
  unfold generate. rewrite Hget.
  unfold call. destruct (Hdown log) as [e ->].
  fold chosen. rewrite Hps.
  rewrite (fallback_first_success chosen c before name ok rest text) by done.
  by rewrite <- !app_assoc.
Qed.

(** Anthropic, the preferred provider, and OpenAI fail; Gemini answers on
    the third call. *)
Lemma fallback_after_a_named_provider_witness :
  generate (LLM.__init__ Scenario.gemini_only_up (u "anthropic"))
    Scenario.a_call None []
  = (Returned (u "hello"), [u "anthropic"; u "openai"; u "gemini"]).
Proof.
  apply (fallback_after_a_named_provider
           (LLM.__init__ Scenario.gemini_only_up (u "anthropic"))
           Scenario.a_call None
           (Scenario.failing "anthropic" "overloaded")
           [(u "anthropic", Scenario.failing "anthropic" "overloaded");
            (u "openai", Scenario.failing "openai" "rate limit")]
           (u "gemini") (Scenario.answering "gemini" "hello") [] (u "hello") []).
  - intros _ H. vm_compute in H. discriminate H.
  - vm_compute. reflexivity.
  - vm_compute. reflexivity.
  - intros l. eexists. reflexivity.
  - constructor; [left; reflexivity|].
    constructor; [right; intros l; eexists; reflexivity|].
    constructor.
  - intros H. vm_compute in H. discriminate H.
  - intros l. reflexivity.
Defined.

End ProviderRegistry.

(** ** What the store holds *)
Section StoreContents.

Import DB.

Lemma update_one_absent id now ms :
  id ∉ mention_tweet_id <$> ms → update_one_replied id now ms = ms.
Proof.
  induction ms as [|m ms IH]; simpl; [done|]. intros H.
  apply not_elem_of_cons in H as [H1 H2].
  rewrite decide_False by done. by rewrite IH.
Qed.

Lemma find_replied_absent id ms :
  id ∉ mention_tweet_id <$> ms → find_replied id ms = false.
Proof.
  induction ms as [|m ms IH]; simpl; [done|]. intros H.
  apply not_elem_of_cons in H as [H1 H2].
  rewrite bool_decide_eq_false_2 by done. simpl. by apply IH.
Qed.

Lemma update_one_twice id t1 t2 ms :
  update_one_replied id t2 (update_one_replied id t1 ms)
  = update_one_replied id t2 ms.
Proof.
  induction ms as [|m ms IH]; simpl; [done|].
  case_decide as E; simpl.
  - by rewrite decide_True.
  - rewrite decide_False by done. by rewrite IH.
Qed.

Lemma update_one_length id now ms :
  length (update_one_replied id now ms) = length ms.
Proof.
  induction ms as [|m ms IH]; simpl; [done|]. case_decide; simpl; congruence.
Qed.

Lemma update_one_counts id now ms :
  count_documents replied ms
  ≤ count_documents replied (update_one_replied id now ms)
  ∧ count_documents replied (update_one_replied id now ms)
    ≤ S (count_documents replied ms).
Proof.
  unfold count_documents.
  induction ms as [|m ms IH]; simpl; [lia|].
  case_decide as E.
  - rewrite !filter_cons. simpl. case_decide; simpl; lia.
  - rewrite !filter_cons. case_decide; simpl; lia.
Qed.

(** X4.  On a connected store, saving a mention as not replied leaves the
    answer of [is_tweet_replied] for its id as it was; marking it replied
    afterwards makes that answer [True], and changes the answer for no
    other id. *)
Theorem marked_mention_is_found d c now now' id text user author :
  connected d = true → db d = Some c → answers d = true →
  let d1 := (save_mention d now id text user author false).2 in
  let d2 := (mark_mention_replied d1 now' id).2 in
  (is_tweet_replied d1 id).1 = (is_tweet_replied d id).1 ∧
  (is_tweet_replied d2 id).1 = Returned true ∧
  (∀ id', id' ≠ id → (is_tweet_replied d2 id').1 = (is_tweet_replied d id').1).
Proof.
  intros Hc Hd Ha. pose proof (answers_failures d c Hd Ha) as Hf.
  unfold save_mention, mark_mention_replied, is_tweet_replied, on_db, on_db_in.
  rewrite Hc, Hd. repeat (simpl; rewrite ?Hc, ?Hf).
  rewrite find_replied_app. simpl.
  rewrite !orb_false_r, andb_false_r, orb_false_r.
  split; [done|]. split.
  - f_equal. apply mark_mention_replied_marks. eexists.
    split; [apply elem_of_app; right; by left|done].
  - intros id' Hne. f_equal. rewrite find_replied_update_other by done.
    rewrite find_replied_app. simpl.
    by rewrite andb_false_r, !orb_false_r.
Qed.

(** A first mention "123" on an empty store. *)
Lemma marked_mention_is_found_witness :
  (is_tweet_replied
     (mark_mention_replied
        (save_mention Scenario.online_store 1 (u "123") (u "hi @xynae")
           (u "alice") (u "7") false).2 2 (u "123")).2 (u "123")).1
  = Returned true.
Proof.
  exact (proj1 (proj2 (marked_mention_is_found Scenario.online_store
                         empty_collections 1 2 (u "123") (u "hi @xynae")
                         (u "alice") (u "7") eq_refl eq_refl eq_refl))).
Defined.

(** X5.  [mark_mention_replied] does not insert: for an id that no stored
    mention has, a store whose server answers is left as it is, and
    [is_tweet_replied] does not answer [True]. *)
Theorem mark_unknown_mention_changes_nothing d now id :
  answers d = true →
  id ∉ mention_tweet_id <$> mentions_of d →
  (mark_mention_replied d now id).2 = d ∧
  (is_tweet_replied d id).1 ≠ Returned true.
Proof.
  intros Ha H.
  unfold mark_mention_replied, is_tweet_replied, on_db, on_db_in, mentions_of,
    answers in *.
  destruct (connected d); simpl; [|done].
  destruct d as [cs name cl [c|] co]; simpl in *; [|done].
  apply bool_decide_eq_true in Ha. rewrite Ha. simpl.
  rewrite update_one_absent by done. rewrite find_replied_absent by done.
  split; [|done]. unfold set_db. simpl. destruct c; simpl in *. by subst.
Qed.

(** Marking on a store that holds no mention. *)
Lemma mark_unknown_mention_changes_nothing_witness :
  (mark_mention_replied Scenario.online_store 1 (u "123")).2
  = Scenario.online_store.
Proof.
  refine (proj1 (mark_unknown_mention_changes_nothing Scenario.online_store 1
                   (u "123") eq_refl _)).
  simpl. apply not_elem_of_nil.
Defined.

(** X6.  [mark_mention_replied] updates one document at most: on a store
    whose server answers, marking the same id again gives the store that
    the later marking alone gives, the number of mention documents stays,
    and the number of replied ones grows by one at most. *)
Theorem mark_mention_replied_updates_one d t1 t2 id :
  answers d = true →
  let d1 := (mark_mention_replied d t1 id).2 in
  (mark_mention_replied d1 t2 id).2 = (mark_mention_replied d t2 id).2 ∧
  length (mentions_of d1) = length (mentions_of d) ∧
  count_documents replied (mentions_of d)
  ≤ count_documents replied (mentions_of d1) ∧
  count_documents replied (mentions_of d1)
  ≤ S (count_documents replied (mentions_of d)).
Proof.
  unfold mark_mention_replied, on_db, on_db_in, mentions_of, answers.
  destruct d as [cs name cl [c|] [|]]; simpl; try (split; [done|lia]).
  intros Ha%bool_decide_eq_true. rewrite Ha. simpl. rewrite Ha. simpl.
  rewrite update_one_twice, update_one_length.
  split; [done|]. split; [done|]. apply update_one_counts.
Qed.

(** Marking mention "123" twice, at times 2 and 3, after it was saved. *)
Lemma mark_mention_replied_updates_one_witness :
  let d :=
    (save_mention Scenario.online_store 1 (u "123") (u "hi @xynae")
       (u "alice") (u "7") false).2 in
  (mark_mention_replied (mark_mention_replied d 2 (u "123")).2 3 (u "123")).2
  = (mark_mention_replied d 3 (u "123")).2.
Proof.
  exact (proj1 (mark_mention_replied_updates_one
                  (save_mention Scenario.online_store 1 (u "123")
                     (u "hi @xynae") (u "alice") (u "7") false).2
                  2 3 (u "123") eq_refl)).
Defined.

(** *** Recent documents *)
Section Recent.

Context {A : Type} (key : A → Z).

Lemma insert_newest_first_perm x l : insert_newest_first key x l ≡ₚ x :: l.
Proof.
  induction l as [|y l IH]; simpl; [done|].
  destruct (key y <=? key x)%Z; [done|]. rewrite IH. apply Permutation_swap.
Qed.

Lemma sort_newest_first_perm l : sort_newest_first key l ≡ₚ l.
Proof.
  induction l as [|x l IH]; simpl; [done|].
  rewrite insert_newest_first_perm. by rewrite IH.
Qed.

Lemma insert_newest_first_sorted x l :
  newest_to_oldest key l → newest_to_oldest key (insert_newest_first key x l).
Proof.
  unfold newest_to_oldest.
  induction 1 as [|y l Hl IH Hy]; simpl; [by repeat constructor|].
  destruct (key y <=? key x)%Z eqn:E.
  - apply Z.leb_le in E. constructor; [by constructor|].
    constructor; [lia|]. eapply Forall_impl; [exact Hy|]. simpl. lia.
  - apply Z.leb_gt in E. constructor; [done|].
    rewrite insert_newest_first_perm. constructor; [lia|done].
Qed.

Lemma sort_newest_first_sorted l : newest_to_oldest key (sort_newest_first key l).
Proof.
  induction l as [|x l IH]; simpl; [constructor|].
  by apply insert_newest_first_sorted.
Qed.

Lemma sort_newest_first_snoc l x :
  Forall (λ y, (key y < key x)%Z) l →
  sort_newest_first key (l ++ [x]) = x :: sort_newest_first key l.
Proof.
  induction 1 as [|y l Hy Hl IH]; [done|].
  change (sort_newest_first key ((y :: l) ++ [x]))
    with (insert_newest_first key y (sort_newest_first key (l ++ [x]))).
  rewrite IH. simpl.
  destruct (key x <=? key y)%Z eqn:E; [apply Z.leb_le in E; lia|done].
Qed.

Lemma recent_are_newest (n : Z) l :
  (0 < n)%Z →
  let docs := py_limit n (sort_newest_first key l) in
  ∃ rest, length docs = Nat.min (Z.to_nat n) (length l) ∧
          docs ++ rest ≡ₚ l ∧ newest_to_oldest key (docs ++ rest).
Proof.
  intros Hn. unfold py_limit.
  rewrite (proj2 (Z.eqb_neq n 0)) by lia.
  exists (drop (Z.abs_nat n) (sort_newest_first key l)).
  rewrite take_drop. split; [|split].
  - rewrite length_take, sort_newest_first_perm.
    rewrite Zabs2Nat.abs_nat_nonneg by lia. done.
  - apply sort_newest_first_perm.
  - apply sort_newest_first_sorted.
Qed.

End Recent.

(** X7.  On a connected store whose server answers,
    [get_recent_tweets(limit)] and [get_recent_replies(limit)] with a
    positive [limit] return [limit] documents, or all when fewer are
    stored, and leave the store as it is; the documents returned are stored
    ones, none twice, from the newest to the oldest, and none of those left
    out is newer than one returned. *)
Theorem recent_documents_are_the_newest d c limit :
  connected d = true → db d = Some c → answers d = true → (0 < limit)%Z →
  (∃ docs rest,
     get_recent_tweets d limit = (Returned docs, d) ∧
     length docs = Nat.min (Z.to_nat limit) (length (tweets c)) ∧
     docs ++ rest ≡ₚ tweets c ∧ newest_to_oldest created_at (docs ++ rest)) ∧
  (∃ docs rest,
     get_recent_replies d limit = (Returned docs, d) ∧
     length docs = Nat.min (Z.to_nat limit) (length (replies c)) ∧
     docs ++ rest ≡ₚ replies c ∧
     newest_to_oldest reply_created_at (docs ++ rest)).
Proof.
  intros Hc Hd Ha Hn. pose proof (answers_failures d c Hd Ha) as Hf.
  unfold get_recent_tweets, get_recent_replies.
  rewrite Hc. simpl. rewrite !(on_db_answers d _ _ c Hd Hf).
  rewrite (set_db_same d c Hd). split.
  - destruct (recent_are_newest created_at limit (tweets c) Hn)
      as (rest & ? & ? & ?). by eexists _, rest.
  - destruct (recent_are_newest reply_created_at limit (replies c) Hn)
      as (rest & ? & ? & ?). by eexists _, rest.
Qed.

(** The most recent of two stored tweets. *)
Lemma recent_documents_are_the_newest_witness :
  ∃ docs rest,
    get_recent_tweets Scenario.tweeting_store 1
    = (Returned docs, Scenario.tweeting_store) ∧
    length docs = Nat.min (Z.to_nat 1) (length (tweets Scenario.two_tweets)) ∧
    docs ++ rest ≡ₚ tweets Scenario.two_tweets ∧
    newest_to_oldest created_at (docs ++ rest).
Proof.
  refine (proj1 (recent_documents_are_the_newest Scenario.tweeting_store
                   Scenario.two_tweets 1 eq_refl eq_refl eq_refl _)).
  lia.
Defined.

(** X8.  On a connected store whose server answers, a tweet saved at a
    time later than that of every stored tweet is the first document of
    [get_recent_tweets] for any positive limit, with its character count
    set to the length of its text. *)
Theorem saved_tweet_is_most_recent d c now text type lang flag id limit :
  connected d = true → db d = Some c → answers d = true → (0 < limit)%Z →
  Forall (λ t, (created_at t < now)%Z) (tweets c) →
  let d' := (save_tweet d now text type lang flag id).2 in
  ∃ rest,
    (get_recent_tweets d' limit).1
    = Returned (mk_tweet text type lang flag id now (length text) :: rest).
Proof.
  intros Hc Hd Ha Hn Hnew. pose proof (answers_failures d c Hd Ha) as Hf.
  unfold save_tweet, get_recent_tweets, on_db, on_db_in.
  rewrite Hc, Hd. repeat (simpl; rewrite ?Hc, ?Hf).
  rewrite sort_newest_first_snoc by done. unfold py_limit.
  rewrite (proj2 (Z.eqb_neq limit 0)) by lia.
  destruct (Z.abs_nat limit) as [|n] eqn:E; [lia|]. simpl. by eexists.
Qed.

(** A third tweet, saved at time 3. *)
Lemma saved_tweet_is_most_recent_witness :
  ∃ rest,
    (get_recent_tweets
       (save_tweet Scenario.tweeting_store 3 (u "hello") (u "insight")
          (u "english") false None).2 2).1
    = Returned (mk_tweet (u "hello") (u "insight") (u "english") false None 3
                  (length (u "hello")) :: rest).
Proof.
  refine (saved_tweet_is_most_recent Scenario.tweeting_store
            Scenario.two_tweets 3 (u "hello") (u "insight") (u "english")
            false None 2 eq_refl eq_refl eq_refl _ _).
  - lia.
  - repeat constructor; simpl; lia.
Defined.

(** X9.  On a connected store whose server answers, the counters of
    [get_stats] follow the saves: the posted tweets are never more than the
    tweets, and after [save_tweet] the tweet counter is one higher, the
    posted counter is one higher exactly when the tweet was saved as
    posted, and every other entry is as before. *)
Theorem stats_follow_the_saves d c now text type lang flag id :
  connected d = true → db d = Some c → answers d = true →
  let d' := (save_tweet d now text type lang flag id).2 in
  ∃ st st' total posted_count,
    get_stats d = (Returned st, d) ∧ get_stats d' = (Returned st', d') ∧
    stats_get st "tweets_count" = StatInt total ∧
    stats_get st "posted_tweets" = StatInt posted_count ∧
    posted_count ≤ total ∧
    stats_get st' "tweets_count" = StatInt (S total) ∧
    stats_get st' "posted_tweets"
    = StatInt (if flag then S posted_count else posted_count) ∧
    Forall (λ key, stats_get st' key = stats_get st key)
      ["database"; "replies_count"; "mentions_count"; "conversations_count";
       "replied_mentions"]%string.
Proof.
  intros Hc Hd Ha. pose proof (answers_failures d c Hd Ha) as Hf.
  unfold save_tweet, get_stats, on_db, on_db_in.
  rewrite Hc, Hd. repeat (simpl; rewrite ?Hc, ?Hf).
  rewrite (set_db_same d c Hd).
  eexists _, _, (length (tweets c)), (count_documents posted (tweets c)).
  split; [reflexivity|]. split; [reflexivity|].
  split; [reflexivity|]. split; [reflexivity|]. split.
  { unfold count_documents. apply length_filter. }
  split.
  { unfold stats_get. simpl. rewrite length_app. simpl.
    by rewrite Nat.add_1_r. }
  split.
  { unfold stats_get, count_documents. simpl. rewrite filter_app, length_app.
    rewrite filter_cons, filter_nil. simpl.
    destruct flag; simpl; [by rewrite Nat.add_1_r|by rewrite Nat.add_0_r]. }
  repeat constructor.
Qed.

(** The store with two tweets, one of them posted, and a third one saved
    as posted. *)
Lemma stats_follow_the_saves_witness :
  let d' := (save_tweet Scenario.tweeting_store 3 (u "hello") (u "insight")
               (u "english") true (Some (u "9002"))).2 in
  ∃ st st' total posted_count,
    get_stats Scenario.tweeting_store = (Returned st, Scenario.tweeting_store) ∧
    get_stats d' = (Returned st', d') ∧
    stats_get st "tweets_count" = StatInt total ∧
    stats_get st "posted_tweets" = StatInt posted_count ∧
    posted_count ≤ total ∧
    stats_get st' "tweets_count" = StatInt (S total) ∧
    stats_get st' "posted_tweets"
    = StatInt (if true then S posted_count else posted_count) ∧
    Forall (λ key, stats_get st' key = stats_get st key)
      ["database"; "replies_count"; "mentions_count"; "conversations_count";
       "replied_mentions"]%string.
Proof.
  exact (stats_follow_the_saves Scenario.tweeting_store Scenario.two_tweets 3
           (u "hello") (u "insight") (u "english") true (Some (u "9002"))
           eq_refl eq_refl eq_refl).
Defined.

End StoreContents.

(** ** Generation without a usable preference *)

Lemma steps_ret {A} J (a : A) (P : A → Prop) : P a → steps J (ret a) P.
Proof. intros H x w HJ. simpl. eauto. Qed.

Lemma steps_bind {A B} J (c : M A) (k : A → M B) Q P :
  steps J c Q → (∀ a, Q a → steps J (k a) P) → steps J (bind c k) P.
Proof.
  intros Hc Hk x w HJ. specialize (Hc x w HJ). unfold bind.
  destruct (c x w) as [[r x1] w1]. destruct Hc as (HJ1 & a & -> & Ha).
  by apply Hk.
Qed.

(** A [try] whose body raises and whose handler catches everything. *)
Lemma steps_try_raises {A} J (body : M A) handler P :
  triple J body (λ r x w, J x w ∧ ∃ e, r = Raised e) →
  (∀ e, steps J (handler e) P) →
  steps J (try_except body any_exception handler) P.
Proof.
  intros Hb Hh x w HJ. specialize (Hb x w HJ). unfold try_except.
  destruct (body x w) as [[r x1] w1]. destruct Hb as (HJ1 & e & ->).
  simpl. by apply Hh.
Qed.

Section Unregistered.

Import LLM.

Variable env : Env.
Variables (x0 : Xynae) (calls : list pystr).

Hypothesis named : preferred_provider (llm_manager x0) ≠ u "auto".
Hypothesis missing :
  dict_get (providers (llm_manager x0)) (preferred_provider (llm_manager x0))
  = None.

Let J (x : Xynae) (w : World) : Prop := x = x0 ∧ llm_calls w = calls.

Lemma unregistered_draw : steps J (random_word env) (λ _, True).
Proof. intros x w [-> Hw]. simpl. repeat split; eauto. Qed.

Lemma unregistered_drawn {A} (f : N → A) :
  steps J (raw <- random_word env ;; ret (f raw)) (λ _, True).
Proof.
  eapply steps_bind; [apply unregistered_draw|]. intros; by apply steps_ret.
Qed.

Lemma unregistered_llm_generate c :
  triple J (llm_generate c) (λ r x w, J x w ∧ ∃ e, r = Raised e).
Proof.
  intros x w [-> Hw]. unfold llm_generate, generate, get_provider. simpl.
  rewrite decide_False by done. rewrite missing. simpl. repeat split; eauto.
Qed.

Lemma unregistered_generate_tweet tweet_type language :
  steps J (generate_tweet env tweet_type language)
    (λ tweet, ∃ r1 r2 r3 lang, tweet = fallback_tweet r1 r2 r3 lang tweet_type).
Proof.
  unfold generate_tweet, random_choice, random_random, random_uniform,
    random_randint.
  eapply steps_bind with (Q := λ _, True); [by intros x w H; simpl; eauto|].
  intros x _.
  eapply steps_bind with (Q := λ _, True); [by intros ? w H; simpl; eauto|].
  intros w _. cbv zeta.
  eapply steps_bind; [apply unregistered_drawn|].
  intros event _.
  eapply steps_bind with (Q := λ _, True).
  { case_decide; [|by apply steps_ret].
    eapply steps_bind; [apply unregistered_drawn|]. intros; by apply steps_ret. }
  intros lang _.
  apply steps_try_raises.
  - eapply triple_bind.
    + apply unregistered_drawn.
    + intros temperature. eapply triple_bind.
      * eapply triple_weaken; [apply unregistered_llm_generate| |].
        -- by intros ? ? [H _].
        -- intros r ? ? H. exact H.
      * intros a ? ? (_ & e & [=]).
      * by intros e ? ? H.
    + by intros e ? ? (_ & ? & [=] & _).
  - intros _.
    eapply steps_bind; [apply unregistered_drawn|]. intros r1 _.
    eapply steps_bind; [apply unregistered_drawn|]. intros r2 _.
    eapply steps_bind; [apply unregistered_drawn|]. intros r3 _.
    apply steps_ret. by exists r1, r2, r3, lang.
Qed.

Lemma unregistered_generate_reply text username :
  steps J (generate_reply env text username)
    (λ reply, reply = u "Welcome to the network. 欢迎。" ∨
              reply = u "Every voice matters here. The agents are listening.").
Proof.
  unfold generate_reply, random_random, random_uniform.
  eapply steps_bind; [apply unregistered_drawn|]. intros r _. cbv zeta.
  eapply steps_bind with (Q := λ _, True); [by intros x w H; simpl; eauto|].
  intros x _.
  apply steps_try_raises.
  - eapply triple_bind.
    + apply unregistered_drawn.
    + intros temperature.
      eapply triple_weaken; [apply unregistered_llm_generate| |].
      * by intros ? ? [H _].
      * intros ? ? ? H. exact H.
    + by intros e ? ? (_ & ? & [=] & _).
  - intros _. apply steps_ret. destruct (Qltb _ _); [left|right]; reflexivity.
Qed.

End Unregistered.

(** X10.  When the preferred provider is named and not registered, the
    selection raises before any call, whatever else is registered: every
    [generate_tweet] returns a text of the fallback table and every
    [generate_reply] one of its two canned replies, no provider is called,
    and the object stays as it is. *)
Theorem unregistered_preference_disables_generation env x w :
  LLM.preferred_provider (llm_manager x) ≠ u "auto" →
  dict_get (LLM.providers (llm_manager x))
    (LLM.preferred_provider (llm_manager x)) = None →
  (∀ tweet_type language, ∃ tweet w',
     generate_tweet env tweet_type language x w = (Returned tweet, x, w') ∧
     llm_calls w' = llm_calls w ∧
     ∃ r1 r2 r3 lang, tweet = fallback_tweet r1 r2 r3 lang tweet_type) ∧
  (∀ text username, ∃ reply w',
     generate_reply env text username x w = (Returned reply, x, w') ∧
     llm_calls w' = llm_calls w ∧
     (reply = u "Welcome to the network. 欢迎。" ∨
      reply = u "Every voice matters here. The agents are listening.")).
Proof.
  intros Hn Hm. split.
  - intros tweet_type language.
    pose proof (unregistered_generate_tweet env x (llm_calls w) Hn Hm
                  tweet_type language x w (conj eq_refl eq_refl)) as H.
    destruct (generate_tweet env tweet_type language x w) as [[r x'] w'].
    destruct H as ([-> Hw] & tweet & -> & Ht). exists tweet, w'.
    split; [reflexivity|]. split; [exact Hw|exact Ht].
  - intros text username.
    pose proof (unregistered_generate_reply env x (llm_calls w) Hn Hm
                  text username x w (conj eq_refl eq_refl)) as H.
    destruct (generate_reply env text username x w) as [[r x'] w'].
    destruct H as ([-> Hw] & reply & -> & Ht). exists reply, w'.
    split; [reflexivity|]. split; [exact Hw|exact Ht].
Qed.

(** An agent that prefers OpenAI with only Anthropic configured. *)
Lemma unregistered_preference_disables_generation_witness :
  ∃ tweet w',
    generate_tweet Scenario.closed_platform (u "insight") (u "english")
      Scenario.misdirected_bot initial_world
    = (Returned tweet, Scenario.misdirected_bot, w') ∧
    llm_calls w' = llm_calls initial_world ∧
    ∃ r1 r2 r3 lang, tweet = fallback_tweet r1 r2 r3 lang (u "insight").
Proof.
  refine (proj1 (unregistered_preference_disables_generation
                   Scenario.closed_platform Scenario.misdirected_bot
                   initial_world _ _) (u "insight") (u "english")).
  - intros H. vm_compute in H. discriminate H.
  - vm_compute. reflexivity.
Defined.

(** ** What a run changes of the object *)

Section Evolves.

Variable env : Env.
Variables (budget : Z) (x0 : Xynae).

Let I (x : Xynae) (w : World) : Prop := evolves budget x0 x.
Let Ia (x : Xynae) (w : World) : Prop :=
  evolves budget x0 x ∧ db_active x = true.

Lemma evolves_still {A} (c : M A) : (∀ x w, (c x w).1.2 = x) → inv I c.
Proof. by apply inv_same_self. Qed.

Lemma evolves_active_still {A} (c : M A) :
  (∀ x w, (c x w).1.2 = x) → inv Ia c.
Proof. by apply inv_same_self. Qed.

Lemma evolves_on_database {A}
    (op : DB.XynaeDatabase → outcome A * DB.XynaeDatabase) :
  gentle op → inv Ia (on_database op).
Proof.
  intros Hg x w [H Hact]. unfold on_database.
  destruct (db x) as [d|] eqn:E;
    [|unfold db_active in Hact; by rewrite E in Hact].
  destruct (Hg d) as [Hcon _]. destruct (op d) as [r d']. simpl in Hcon.
  assert (db_active (set_store x d') = true) as Hact'.
  { unfold db_active in *. simpl. rewrite E in Hact.
    unfold DB.is_connected in *. congruence. }
  split; [|exact Hact'].
  destruct H as (Hm & Hp & Hc & Ha & Hr & Hh & Hn).
  rewrite <- Ha, Hact in Hr.
  unfold evolves. rewrite Hact', <- Ha, Hact. done.
Qed.

Lemma evolves_if_db_connected {A}
    (op : Z → DB.XynaeDatabase → outcome A * DB.XynaeDatabase) :
  (∀ now, gentle (op now)) → inv I (if_db_connected env op).
Proof.
  intros Hg x w H. unfold if_db_connected, bind at 1, get_self.
  destruct (db_active x) eqn:Hact; [|exact H].
  unfold bind at 1, datetime_utcnow.
  pose proof (evolves_on_database (op (utcnow env w)) (Hg _) x w (conj H Hact))
    as Ho.
  unfold bind. destruct (on_database _ x w) as [[[a|e] x'] w'];
    simpl; apply Ho.
Qed.

Lemma evolves_append_history entry : inv I (append_history entry).
Proof.
  intros x w (Hm & Hp & Hc & Ha & Hr & Hh & Hn).
  unfold append_history, bind, get_self, set_conversation_history.
  unfold I, evolves, db_active in *. simpl.
  repeat split; try done; try lia.
  intros H0. specialize (Hh H0).
  destruct (5 <? length _) eqn:E.
  - rewrite length_drop, length_app. simpl. lia.
  - apply Nat.ltb_ge in E. done.
Qed.

Lemma evolves_generate_tweet tweet_type language :
  inv I (generate_tweet env tweet_type language).
Proof.
  unfold generate_tweet, random_choice, random_random, random_uniform,
    random_randint.
  frame_walk with
    (first [ apply evolves_append_history
           | apply evolves_if_db_connected; intros; store_op_gentle
           | by apply evolves_still ]).
  apply evolves_still, llm_generate_still.
Qed.

Lemma evolves_generate_reply text username :
  inv I (generate_reply env text username).
Proof.
  unfold generate_reply, random_random, random_uniform.
  frame_walk with (by apply evolves_still).
  apply evolves_still, llm_generate_still.
Qed.

(** The dedup mark of [reply_to_mention], after [self] is read as [x1]. *)
Lemma evolves_mark x1 tweet_id text username reply_text reply_tweet_id :
  triple (λ x w, I x w ∧ x = x1)
    (if db_active x1 then
       now <- datetime_utcnow env ;;
       on_database (λ d, DB.mark_mention_replied d now tweet_id) ;;;
       now <- datetime_utcnow env ;;
       on_database (λ d,
         DB.save_reply d now tweet_id text username reply_text reply_tweet_id) ;;;
       ret tt
     else set_replied_tweets (set_add env tweet_id (replied_tweets x1)))
    (λ _, I).
Proof.
  destruct (db_active x1) eqn:Hact.
  - eapply triple_weaken with (P' := Ia) (Q' := λ _, Ia).
    + frame_walk with
        (first [ by apply evolves_active_still
               | apply evolves_on_database; store_op_gentle ]).
    + intros x w [H ->]. by split.
    + by intros r x w [H _].
  - intros x w [(Hm & Hp & Hc & Ha & Hr & Hh & Hn) ->]. simpl.
    unfold I, evolves, db_active in *. simpl. rewrite <- Ha, Hact in *. done.
Qed.

Lemma evolves_reply_to_mention mention : inv I (reply_to_mention env mention).
Proof.
  unfold reply_to_mention. cbv zeta.
  apply inv_bind_self. intros x1.
  eapply triple_bind with (R := λ _, I); [| |done].
  { destruct (db_active x1) eqn:Hact.
    - eapply triple_weaken with (P' := Ia) (Q' := λ _, Ia).
      + apply evolves_on_database, is_tweet_replied_gentle.
      + intros x w [H ->]. by split.
      + by intros r x w [H _].
    - intros x w [H _]. exact H. }
  intros [|]; [apply inv_ret|].
  apply inv_bind.
  { frame_walk with (by apply evolves_still). }
  intros username.
  apply inv_bind; [apply evolves_if_db_connected; intros; store_op_gentle|].
  intros _.
  apply inv_bind; [apply evolves_generate_reply|]. intros reply_text.
  apply inv_try; [|intros; apply inv_ret].
  apply inv_bind; [by apply evolves_still|]. intros reply_result. cbv zeta.
  apply inv_bind_self. intros x2.
  eapply triple_bind; [apply evolves_mark| |done].
  intros ?. apply evolves_still, time_sleep_still.
Qed.

Lemma evolves_clean_up : inv I (clean_up_replied_tweets env).
Proof.
  unfold clean_up_replied_tweets. apply inv_bind_self. intros x1.
  destruct (db_active x1) eqn:Hact; simpl; [by intros x w [H _]|].
  destruct (100 <? _); [|by intros x w [H _]].
  intros x w [(Hm & Hp & Hc & Ha & Hr & Hh & Hn) ->]. simpl.
  unfold I, evolves, db_active in *. simpl. rewrite <- Ha, Hact in *. done.
Qed.

Lemma evolves_check_and_reply_to_mentions :
  inv I (check_and_reply_to_mentions env).
Proof.
  apply check_and_reply_inv;
    [apply evolves_reply_to_mention|apply evolves_clean_up].
Qed.

Lemma evolves_post_to_x tweet tweet_type language now last :
  inv I (post_to_x env tweet tweet_type language now last).
Proof.
  unfold post_to_x.
  frame_walk with
    (first [ by apply evolves_still
           | apply evolves_if_db_connected; intros; store_op_gentle ]).
Qed.

End Evolves.

Lemma evolves_refl x : evolves 0 x x.
Proof.
  unfold evolves. repeat split; try done; try lia. by destruct (db_active x).
Qed.

Lemma evolves_more b b' x0 x : (b ≤ b')%Z → evolves b x0 x → evolves b' x0 x.
Proof.
  intros Hb (Hm & Hp & Hc & Ha & Hr & Hh & Hn).
  repeat split; try done; lia.
Qed.

Lemma py_randint_range a b raw :
  (a ≤ b)%Z → (a ≤ py_randint a b raw ≤ b)%Z.
Proof.
  intros H. unfold py_randint.
  pose proof (Z.mod_pos_bound (Z.of_N raw) (b - a + 1)). lia.
Qed.

(** The entity count step at the end of a scheduled post. *)
Lemma evolves_grow env b x0 :
  triple (λ x w, evolves b x0 x)
    (grow <- random_randint env 1 5 ;;
     x <- get_self ;;
     set_agents_seen (agents_seen x + grow)%Z)
    (λ _ x w, evolves (b + 5) x0 x).
Proof.
  intros x w (Hm & Hp & Hc & Ha & Hr & Hh & Hn). simpl.
  pose proof (py_randint_range 1 5 (rng env (draws w)) ltac:(lia)).
  unfold evolves, db_active in *. simpl. repeat split; try done; lia.
Qed.

Lemma evolves_post_on_schedule env b x0 tweet_interval now last :
  triple (λ x w, evolves b x0 x)
    (post_on_schedule env tweet_interval now last)
    (λ _ x w, evolves (b + 5) x0 x).
Proof.
  assert (Hup : ∀ {A} (c : M A),
            inv (λ x w, evolves b x0 x) c →
            triple (λ x w, evolves b x0 x) c (λ _ x w, evolves (b + 5) x0 x)).
  { intros A c Hc. eapply triple_weaken; [exact Hc|done|].
    intros r x w H. eapply evolves_more; [|exact H]. lia. }
  assert (Hmore : ∀ (e : exn) x (w : World),
            evolves b x0 x → evolves (b + 5) x0 x).
  { intros _ x w H. eapply evolves_more; [|exact H]. lia. }
  assert (Hdraw : inv (λ x w, evolves b x0 x) (random_random env))
    by (by apply evolves_still).
  unfold post_on_schedule.
  destruct (_ <=? _)%Z; [|apply Hup, inv_ret].
  eapply triple_bind; [apply Hdraw| |exact Hmore]. intros rand. cbv zeta.
  eapply triple_bind; [apply Hdraw| |exact Hmore]. intros lang_rand.
  eapply triple_bind; [apply evolves_generate_tweet| |exact Hmore].
  intros tweet.
  eapply triple_bind; [apply evolves_post_to_x| |exact Hmore]. intros last'.
  eapply triple_bind; [apply Hdraw| |exact Hmore]. intros r.
  eapply triple_bind with (R := λ _ x w, evolves (b + 5) x0 x).
  - destruct (Qltb _ _); [apply evolves_grow|apply Hup, inv_ret].
  - intros _. apply inv_ret.
  - done.
Qed.

Lemma evolves_iteration env b x0 tweet_interval check_interval t x w :
  evolves b x0 x →
  evolves (b + 5) x0 (iteration env tweet_interval check_interval t x w).1.2.
Proof.
  intros H. unfold iteration.
  set (now := time_time env w). set (due := twitter_client x && _).
  set (check := if due then _ else ret tt).
  assert (inv (λ x w, evolves b x0 x) check) as Hc.
  { unfold check.
    destruct due; [apply evolves_check_and_reply_to_mentions|apply inv_ret]. }
  specialize (Hc x w H).
  destruct (check x w) as [[[[]|e] x1] w1].
  2:{ eapply evolves_more; [|exact Hc]. lia. }
  set (t1 := if due then _ else t).
  pose proof (evolves_post_on_schedule env b x0 tweet_interval now
                (last_tweet_time t1) x1 w1 Hc) as Hp.
  destruct (post_on_schedule _ _ _ _ x1 w1) as [[[last|e] x2] w2];
    [|exact Hp].
  unfold time_sleep.
  destruct (_ <? 0)%Z; exact Hp.
Qed.

Lemma evolves_run_from env n x0 tweet_interval check_interval t x w b :
  evolves b x0 x →
  evolves (b + 5 * Z.of_nat n) x0
    (run_from env n tweet_interval check_interval t x w).1.2.
Proof.
  revert t x w b. induction n as [|n IH]; intros t x w b H.
  - simpl. eapply evolves_more; [|exact H]. lia.
  - simpl.
    pose proof (evolves_iteration env b x0 tweet_interval check_interval t x w H)
      as H1.
    destruct (iteration _ _ _ _ x w) as [[t' x'] w']. simpl in H1.
    eapply evolves_more; [|apply (IH t' x' w' _ H1)]. lia.
Qed.

(** X11.  No iteration of [run] changes the provider manager, the
    personality or the platform client of the object: the registry and the
    client are as construction left them, however long the loop runs. *)
Theorem run_keeps_configuration env n tweet_interval check_interval t x w :
  let x' := (run_from env n tweet_interval check_interval t x w).1.2 in
  llm_manager x' = llm_manager x ∧ personality x' = personality x ∧
  twitter_client x' = twitter_client x.
Proof.
  destruct (evolves_run_from env n x tweet_interval check_interval t x w 0
              (evolves_refl x)) as (Hm & Hp & Hc & _).
  done.
Qed.

(** X12.  One dedup source is active for a whole run: whether the store is
    connected does not change, with a connected store the in-memory set of
    replied ids is never written, and without one the store object is never
    touched. *)
Theorem run_uses_one_dedup_source env n tweet_interval check_interval t x w :
  let x' := (run_from env n tweet_interval check_interval t x w).1.2 in
  db_active x' = db_active x ∧
  if db_active x then replied_tweets x' = replied_tweets x
  else db x' = db x.
Proof.
  destruct (evolves_run_from env n x tweet_interval check_interval t x w 0
              (evolves_refl x)) as (_ & _ & _ & Ha & Hr & _).
  done.
Qed.

(** X13.  The conversation history never holds more than five entries:
    [generate_tweet] keeps that bound, and so does every iteration of
    [run]. *)
Theorem conversation_history_is_bounded env n tweet_interval check_interval
    t tweet_type language x w :
  length (conversation_history x) ≤ 5 →
  length (conversation_history
            (generate_tweet env tweet_type language x w).1.2) ≤ 5 ∧
  length (conversation_history
            (run_from env n tweet_interval check_interval t x w).1.2) ≤ 5.
Proof.
  intros H. split.
  - pose proof (evolves_generate_tweet env 0 x tweet_type language x w
                  (evolves_refl x)) as Hg.
    destruct (generate_tweet env tweet_type language x w) as [[r x'] w'].
    destruct Hg as (_ & _ & _ & _ & _ & Hh & _). by apply Hh.
  - destruct (evolves_run_from env n x tweet_interval check_interval t x w 0
                (evolves_refl x)) as (_ & _ & _ & _ & _ & Hh & _).
    by apply Hh.
Qed.

(** An agent with more to say than fits a tweet, after three iterations. *)
Lemma conversation_history_is_bounded_witness :
  length (conversation_history
            (generate_tweet Scenario.closed_platform (u "insight")
               (u "english") Scenario.verbose_bot initial_world).1.2) ≤ 5 ∧
  length (conversation_history
            (run_from Scenario.closed_platform 3 1200 300 (mk_timers 0 0)
               Scenario.verbose_bot initial_world).1.2) ≤ 5.
Proof.
  apply (conversation_history_is_bounded Scenario.closed_platform 3 1200 300
           (mk_timers 0 0) (u "insight") (u "english") Scenario.verbose_bot
           initial_world).
  simpl. lia.
Defined.

(** X14.  The entity count only grows, and by five at most in one
    iteration of [run]. *)
Theorem agents_seen_grows_slowly env n tweet_interval check_interval t x w :
  let x' := (run_from env n tweet_interval check_interval t x w).1.2 in
  (agents_seen x ≤ agents_seen x' ≤ agents_seen x + 5 * Z.of_nat n)%Z.
Proof.
  destruct (evolves_run_from env n x tweet_interval check_interval t x w 0
              (evolves_refl x)) as (_ & _ & _ & _ & _ & _ & Hn).
  simpl. lia.
Qed.

(** ** What a check publishes *)
Section Calls.

Variable env : Env.

Lemma calls_kept {A} calls (c : M A) :
  (∀ x w, tweet_calls (c x w).2 = tweet_calls w) → inv (at_calls calls) c.
Proof.
  intros Hc x w H. specialize (Hc x w).
  destruct (c x w) as [[r x'] w']. simpl in Hc. unfold at_calls in *. congruence.
Qed.

Lemma generate_reply_calls text username x w :
  tweet_calls (generate_reply env text username x w).2 = tweet_calls w.
Proof.
  destruct (generate_reply_run env text username x w) as (r & w' & -> & H & _).
  exact H.
Qed.

Lemma calls_bind {A B} calls (c : M A) (k : A → M B) Q :
  (∀ x w, tweet_calls (c x w).2 = tweet_calls w) →
  (∀ e x w, at_calls calls x w → Q (Raised e) x w) →
  (∀ a, triple (at_calls calls) (k a) Q) →
  triple (at_calls calls) (bind c k) Q.
Proof.
  intros Hc He Hk. eapply triple_bind; [by apply calls_kept|exact Hk|exact He].
Qed.

(** One mention: no call, or one reply to it. *)
Lemma calls_reply_to_mention calls m :
  triple (at_calls calls) (reply_to_mention env m)
    (λ _ x w, ∃ more answered,
       tweet_calls w = calls ++ more ∧ replies_to answered more ∧
       (answered = [] ∨ answered = [m])).
Proof.
  assert (Hnone : ∀ (x : Xynae) w, at_calls calls x w →
            ∃ more answered, tweet_calls w = calls ++ more ∧
              replies_to answered more ∧ (answered = [] ∨ answered = [m])).
  { intros x w H. exists [], []. rewrite app_nil_r. by repeat split; auto. }
  unfold reply_to_mention. cbv zeta.
  apply calls_bind; [done|intros e; apply Hnone|]. intros x.
  apply calls_bind; [|intros e; apply Hnone|].
  { intros x1 w1. destruct (db_active x); [by rewrite on_database_world|done]. }
  intros [|]; [by apply triple_ret|].
  apply calls_bind; [|intros e; apply Hnone|].
  { intros x1 w1.
    destruct (username_run env (mention_author_id m) x1 w1) as [name ->]. done. }
  intros username.
  apply calls_bind; [|intros e; apply Hnone|].
  { intros x1 w1. by rewrite if_db_connected_world. }
  intros _.
  apply calls_bind; [|intros e; apply Hnone|].
  { intros. apply generate_reply_calls. }
  intros reply_text.
  set (sent := calls ++ [mk_publish reply_text (Some (mention_id m))]).
  assert (Hsent : ∀ (x : Xynae) w, at_calls sent x w →
            ∃ more answered, tweet_calls w = calls ++ more ∧
              replies_to answered more ∧ (answered = [] ∨ answered = [m])).
  { intros x1 w1 H. exists [mk_publish reply_text (Some (mention_id m))], [m].
    by repeat split; auto. }
  eapply triple_try with (R := λ _, at_calls sent).
  - eapply triple_bind with (R := λ _, at_calls sent);
      [|intros reply_result; cbv zeta|done].
    { intros x1 w1 H. simpl. unfold at_calls in *. simpl. by rewrite H. }
    apply inv_bind; [by apply calls_kept|]. intros x1.
    apply inv_bind;
      [|intros ?; apply calls_kept; intros; apply time_sleep_calls].
    destruct (db_active x1); [|by apply calls_kept].
    repeat (apply inv_bind; [|intros ?]); try apply inv_ret;
      apply calls_kept; intros; try done; by rewrite on_database_world.
  - intros a. apply Hsent.
  - intros e _. apply triple_ret. intros x1 w1 H. by apply (Hsent x1).
  - intros e x1 w1 _. apply Hsent.
Qed.

Lemma calls_for_each calls ms :
  triple (at_calls calls) (for_each (reply_to_mention env) ms)
    (λ _ x w, ∃ more answered,
       tweet_calls w = calls ++ more ∧ replies_to answered more ∧
       sublist answered ms).
Proof.
  revert calls. induction ms as [|m ms IH]; intros calls.
  - apply triple_ret. intros x w H. exists [], []. rewrite app_nil_r.
    by repeat split.
  - simpl. intros x w H.
    pose proof (calls_reply_to_mention calls m x w H) as H1. unfold bind.
    destruct (reply_to_mention env m x w) as [[[[]|e] x1] w1].
    + destruct H1 as (more1 & ans1 & Hw1 & Hr1 & Ha1).
      pose proof (IH (calls ++ more1) x1 w1 Hw1) as H2.
      destruct (for_each _ ms x1 w1) as [[r x2] w2].
      destruct H2 as (more2 & ans2 & Hw2 & Hr2 & Ha2).
      exists (more1 ++ more2), (ans1 ++ ans2).
      split; [by rewrite app_assoc|]. split.
      { unfold replies_to in *. by rewrite !fmap_app, Hr1, Hr2. }
      destruct Ha1 as [->| ->]; simpl.
      * by apply sublist_cons.
      * by apply sublist_skip.
    + destruct H1 as (more1 & ans1 & Hw1 & Hr1 & Ha1).
      exists more1, ans1. split; [done|]. split; [done|].
      destruct Ha1 as [->| ->].
      * apply sublist_nil_l.
      * apply sublist_skip, sublist_nil_l.
Qed.

End Calls.

Lemma clean_up_returns env x w :
  ∃ x', clean_up_replied_tweets env x w = (Returned tt, x', w).
Proof.
  unfold clean_up_replied_tweets, bind, get_self.
  destruct (_ && _); by eexists.
Qed.

(** X15.  [check_and_reply_to_mentions] never raises, whatever the
    platform, the providers and the store do, and every [create_tweet] call
    it makes is a reply to a mention it fetched: at most one reply to each,
    in the order fetched, and never a post of its own. *)
Theorem check_replies_only_to_fetched_mentions env x w :
  ∃ x' w' more answered,
    check_and_reply_to_mentions env x w = (Returned tt, x', w') ∧
    tweet_calls w' = tweet_calls w ++ more ∧
    replies_to answered more ∧
    sublist answered (fetched_mentions env x w).
Proof.
  assert (Hnone : ∀ fetched, ∃ more answered,
            tweet_calls w = tweet_calls w ++ more ∧
            replies_to answered more ∧ sublist answered fetched).
  { intros fetched. exists [], []. rewrite app_nil_r.
    repeat split. apply sublist_nil_l. }
  unfold check_and_reply_to_mentions, fetched_mentions, bind at 1, get_self.
  destruct (twitter_client x); cbn -[clean_up_replied_tweets for_each].
  2:{ destruct (Hnone []) as (more & answered & ?). by exists x, w, more, answered. }
  unfold bind at 1, try_except, bind at 1, client_get_me.
  destruct (get_me env w) as [[[my_user_id name]|]|e];
    cbn -[clean_up_replied_tweets for_each].
  - unfold bind at 1, client_get_users_mentions.
    destruct (get_users_mentions env w my_user_id 10) as [[|m ms]|e];
      cbn -[clean_up_replied_tweets for_each].
    + destruct (Hnone []) as (more & answered & ?).
      by exists x, w, more, answered.
    + pose proof (calls_for_each env (tweet_calls w) (m :: ms) x w eq_refl) as H.
      destruct (for_each _ (m :: ms) x w) as [[[[]|e] x1] w1];
        destruct H as (more & answered & Hw & Hr & Ha);
        cbn -[clean_up_replied_tweets for_each];
        destruct (clean_up_returns env x1 w1) as [x2 ->];
        by exists x2, w1, more, answered.
    + destruct (clean_up_returns env x w) as [x2 ->].
      destruct (Hnone []) as (more & answered & ?).
      by exists x2, w, more, answered.
  - destruct (Hnone []) as (more & answered & ?).
    by exists x, w, more, answered.
  - destruct (clean_up_returns env x w) as [x2 ->].
    destruct (Hnone []) as (more & answered & ?).
    by exists x2, w, more, answered.
Qed.

(** ** The timers of run *)

Lemma check_and_reply_returns env :
  returns (check_and_reply_to_mentions env) (λ _, True).
Proof.
  unfold check_and_reply_to_mentions.
  eapply returns_bind; [apply returns_get_self|]. intros x _.
  destruct (negb (twitter_client x)); [by apply returns_ret|].
  eapply returns_bind.
  - apply returns_try_any with (P := λ _, True); [done|].
    intros e. by apply returns_ret.
  - intros [|] _; [by apply returns_ret|].
    intros x1 w1. destruct (clean_up_returns env x1 w1) as [x2 ->].
    by exists tt, x2, w1.
Qed.

(** X16.  After an iteration of [run], [last_check_time] is the time the
    iteration started at whenever a platform client is configured and the
    check was due, whatever happened in the check and after it, and is
    unchanged otherwise. *)
Theorem check_time_advances_when_check_is_due env tweet_interval check_interval
    t x w :
  let now := time_time env w in
  last_check_time (iteration env tweet_interval check_interval t x w).1.1
  = if twitter_client x && (check_interval <=? now - last_check_time t)%Z
    then now else last_check_time t.
Proof.
  intros now. unfold iteration. fold now.
  set (due := twitter_client x && _).
  set (check := if due then _ else ret tt).
  assert (∃ x1 w1, check x w = (Returned tt, x1, w1)) as (x1 & w1 & ->).
  { unfold check. destruct due; [|by eexists _, _].
    destruct (check_and_reply_returns env x w) as ([] & x1 & w1 & E & _). eauto. }
  set (t1 := if due then _ else t).
  assert (last_check_time t1 = if due then now else last_check_time t) as <-.
  { unfold t1. by destruct due. }
  destruct (post_on_schedule _ _ _ _ x1 w1) as [[[last|e] x2] w2]; [|done].
  unfold time_sleep. by destruct (_ <? 0)%Z.
Qed.

Lemma post_on_schedule_without_client env tweet_interval now last x w :
  twitter_client x = false →
  ∃ x' w',
    post_on_schedule env tweet_interval now last x w = (Returned last, x', w') ∧
    tweet_calls w' = tweet_calls w ∧ sleep_calls w' = sleep_calls w ∧
    twitter_client x' = false.
Proof.
  intros Hc. unfold post_on_schedule.
  destruct (_ <=? _)%Z; [|by eexists _, _].
  assert (Hdraw : ∀ x0 w0, ∃ r w',
            random_random env x0 w0 = (Returned r, x0, w') ∧
            tweet_calls w' = tweet_calls w0 ∧ sleep_calls w' = sleep_calls w0).
  { intros x0 w0. by eexists _, _. }
  destruct (Hdraw x w) as (rand & w1 & E1 & Ht1 & Hs1).
  rewrite (bind_returned _ _ _ _ _ _ _ E1). cbv zeta.
  destruct (Hdraw x w1) as (lang_rand & w2 & E2 & Ht2 & Hs2).
  rewrite (bind_returned _ _ _ _ _ _ _ E2).
  set (tweet_type := pick_tweet_type _). set (language := pick_language _).
  pose proof (generate_tweet_quiet env tweet_type language x w2 x w2
                (quiet_refl x w2)) as Hq.
  destruct (generate_tweet_returns env tweet_type language x w2)
    as (tweet & x3 & w3 & E3 & _).
  rewrite E3 in Hq. destruct Hq as (Hc3 & _ & _ & _ & Ht3 & Hs3 & _).
  rewrite (bind_returned _ _ _ _ _ _ _ E3).
  rewrite Hc in Hc3.
  assert (post_to_x env tweet tweet_type language now last x3 w3
          = (Returned last, x3, w3)) as E4.
  { unfold post_to_x, bind, get_self. by rewrite Hc3. }
  rewrite (bind_returned _ _ _ _ _ _ _ E4).
  destruct (Hdraw x3 w3) as (r & w5 & E5 & Ht5 & Hs5).
  rewrite (bind_returned _ _ _ _ _ _ _ E5).
  destruct (Qltb r float_0_2); simpl; eexists _, _;
    (split; [reflexivity|]); simpl; repeat split; try done; congruence.
Qed.

(** X17.  Without a platform client, no iteration of [run] calls
    [create_tweet] and neither timer ever advances: [last_tweet_time] is
    set only after a publish, so a post that is due stays due; each
    iteration still ends with a sleep. *)
Theorem without_client_the_timers_never_advance env n tweet_interval
    check_interval t x w :
  twitter_client x = false →
  let '(t', x', w') := run_from env n tweet_interval check_interval t x w in
  t' = t ∧ tweet_calls w' = tweet_calls w ∧ twitter_client x' = false ∧
  length (sleep_calls w) + n ≤ length (sleep_calls w').
Proof.
  revert t x w. induction n as [|n IH]; intros t x w Hc; simpl.
  { repeat split; [done|lia]. }
  assert (∃ x1 w1,
    iteration env tweet_interval check_interval t x w = (t, x1, w1) ∧
    tweet_calls w1 = tweet_calls w ∧ twitter_client x1 = false ∧
    length (sleep_calls w) < length (sleep_calls w1))
    as (x1 & w1 & -> & Hw1 & Hc1 & Hs1).
  { unfold iteration. rewrite Hc. simpl.
    destruct (post_on_schedule_without_client env tweet_interval
                (time_time env w) (last_tweet_time t) x w Hc)
      as (x1 & w1 & -> & Hw1 & Hs1 & Hc1).
    destruct t as [lt lc]. simpl.
    unfold time_sleep, retry_in_5_minutes, time_sleep.
    destruct (_ <? 0)%Z; simpl; eexists _, _;
      (split; [reflexivity|]); simpl; repeat split; try done;
      rewrite ?length_app, Hs1; simpl; lia. }
  specialize (IH t x1 w1 Hc1).
  destruct (run_from env n _ _ t x1 w1) as [[t' x'] w'].
  destruct IH as (-> & Hw & Hc' & Hn). repeat split; [congruence|done|lia].
Qed.

(** Two iterations of an agent without platform credentials. *)
Lemma without_client_the_timers_never_advance_witness :
  let '(t', x', w') :=
    run_from Scenario.closed_platform 2 1200 300 (mk_timers 0 0)
      Scenario.misdirected_bot initial_world in
  t' = mk_timers 0 0 ∧ tweet_calls w' = tweet_calls initial_world ∧
  twitter_client x' = false ∧
  length (sleep_calls initial_world) + 2 ≤ length (sleep_calls w').
Proof.
  exact (without_client_the_timers_never_advance Scenario.closed_platform 2
           1200 300 (mk_timers 0 0) Scenario.misdirected_bot initial_world
           eq_refl).
Defined.

(** ** The bound of the in-memory dedup set *)

Lemma set_add_length env k s :
  set_like env → length (set_add env k s) ≤ S (length s).
Proof.
  intros H. unfold set_add. case_decide; [lia|]. by rewrite (H k s).
Qed.

Lemma set_of_list_length env l :
  set_like env → length (set_of_list env l) ≤ length l.
Proof.
  intros H. unfold set_of_list.
  assert (∀ acc, length (fold_left (λ s k, set_add env k s) l acc)
                 ≤ length acc + length l) as Hacc.
  { induction l as [|k l IH]; intros acc; simpl; [lia|].
    etrans; [apply IH|]. pose proof (set_add_length env k acc H). lia. }
  apply (Hacc []).
Qed.

Lemma clean_up_bounds env x w :
  set_like env → db_active x = false →
  length (replied_tweets (clean_up_replied_tweets env x w).1.2) ≤ 100.
Proof.
  intros H Ha. unfold clean_up_replied_tweets, bind, get_self. rewrite Ha.
  simpl. destruct (100 <? _) eqn:E; simpl.
  - etrans; [by apply set_of_list_length|]. unfold py_last.
    rewrite length_drop. lia.
  - by apply Nat.ltb_ge in E.
Qed.

(** A check either leaves the object as it is, or ends with the clean-up,
    in a state that the replies to some mentions lead to. *)
Lemma check_and_reply_cases env x w :
  (check_and_reply_to_mentions env x w).1.2 = x ∨
  ∃ x1 w1,
    (check_and_reply_to_mentions env x w).1.2
    = (clean_up_replied_tweets env x1 w1).1.2 ∧
    ∀ I : Xynae → World → Prop,
      (∀ m, inv I (reply_to_mention env m)) → I x w → I x1 w1.
Proof.
  assert (∀ res, check_and_reply_to_mentions env x w = res →
            res.1.2 = x ∨
            ∃ x1 w1, res.1.2 = (clean_up_replied_tweets env x1 w1).1.2 ∧
              ∀ I : Xynae → World → Prop,
                (∀ m, inv I (reply_to_mention env m)) → I x w → I x1 w1) as H.
  2:{ by apply H. }
  intros res.
  unfold check_and_reply_to_mentions, bind at 1, get_self. cbv beta.
  destruct (twitter_client x); [|intros <-; by left].
  unfold negb, bind at 1, try_except, bind at 1, client_get_me. cbv beta.
  destruct (get_me env w) as [[[my_user_id name]|]|e];
    cbn -[clean_up_replied_tweets for_each];
    [| intros <-; by left | intros <-; right; by exists x, w].
  destruct (get_users_mentions env w my_user_id 10) as [[|m ms]|e];
    cbn -[clean_up_replied_tweets for_each];
    [intros <-; by left| |intros <-; right; by exists x, w].
  unfold bind at 1. intros <-. right.
  destruct (for_each _ (m :: ms) x w) as [[[[]|e] x1] w1] eqn:E;
    cbn -[clean_up_replied_tweets for_each];
    exists x1, w1; (split; [done|]); intros I HI H;
    pose proof (inv_for_each I _ (m :: ms) HI x w H) as H1;
    by rewrite E in H1.
Qed.

(** X18.  Where adding a key to a [set] gives the old keys and the new
    one in some order, a check that starts with at most 100 replied ids in
    the in-memory set ends with at most 100, whatever the number of
    mentions it answered. *)
Theorem replied_set_stays_within_100 env x w :
  set_like env → length (replied_tweets x) ≤ 100 →
  length (replied_tweets (check_and_reply_to_mentions env x w).1.2) ≤ 100.
Proof.
  intros Hset Hlen.
  destruct (db_active x) eqn:Ha.
  { pose proof (evolves_check_and_reply_to_mentions env 0 x x w (evolves_refl x))
      as H.
    destruct (check_and_reply_to_mentions env x w) as [[r x'] w'].
    destruct H as (_ & _ & _ & _ & Hr & _). rewrite Ha in Hr. simpl.
    by rewrite Hr. }
  destruct (check_and_reply_cases env x w) as [->|(x1 & w1 & -> & H)]; [done|].
  apply clean_up_bounds; [done|].
  destruct (H (λ x1 w1, evolves 0 x x1) (evolves_reply_to_mention env 0 x)
              (evolves_refl x)) as (_ & _ & _ & Ha1 & _).
  congruence.
Qed.

Lemma busy_platform_set_like :
  set_like (Scenario.busy_platform Scenario.newest_last).
Proof. intros k s. simpl. symmetry. apply Permutation_cons_append. Qed.

(** The first check of the busy platform. *)
Lemma replied_set_stays_within_100_witness :
  length (replied_tweets
            (check_and_reply_to_mentions
               (Scenario.busy_platform Scenario.newest_last)
               (Scenario.bot (Scenario.busy_platform Scenario.newest_last))
               initial_world).1.2) ≤ 100.
Proof.
  apply (replied_set_stays_within_100
           (Scenario.busy_platform Scenario.newest_last)
           (Scenario.bot (Scenario.busy_platform Scenario.newest_last))
           initial_world busy_platform_set_like).
  vm_compute. lia.
Defined.

(** ** Replies *)

(** X19.  [generate_reply] never raises and leaves the object, the
    platform and the sleeps alone; when the provider manager answers the
    call, made with [max_tokens] 100, the reply is that text as it is, with
    no cut at 280 characters, and when it raises the reply is one of the
    two canned texts. *)
Theorem generate_reply_returns_the_provider_text env text username x w :
  ∃ reply w' c,
    generate_reply env text username x w = (Returned reply, x, w') ∧
    tweet_calls w' = tweet_calls w ∧ sleep_calls w' = sleep_calls w ∧
    LLM.gc_max_tokens c = 100%Z ∧
    match (LLM.generate (llm_manager x) c None (llm_calls w)).1 with
    | Returned generated => reply = generated
    | Raised _ =>
        reply = u "Welcome to the network. 欢迎。" ∨
        reply = u "Every voice matters here. The agents are listening."
    end.
Proof.
  unfold generate_reply, random_random, random_uniform.
  unfold bind at 1, bind at 1, random_word, ret. cbv zeta.
  unfold bind at 1, get_self.
  unfold try_except, bind at 1, bind at 1, random_word, ret.
  unfold llm_generate. cbn [llm_manager llm_calls].
  match goal with
  | |- context [LLM.generate (llm_manager x) ?c None (llm_calls w)] =>
      set (call := c);
      destruct (LLM.generate (llm_manager x) call None (llm_calls w))
        as [[generated|e] log] eqn:E
  end.
  - eexists generated, _, call. rewrite E. split; [reflexivity|]. by simpl.
  - eexists _, _, call. rewrite E. simpl. split; [reflexivity|].
    repeat split. destruct (Qltb _ _); [left|right]; reflexivity.
Qed.

(** A back end that answers 300 characters: the reply has 300. *)
Lemma generate_reply_may_exceed_280 :
  match (generate_reply Scenario.closed_platform (u "hi") (u "alice")
           Scenario.verbose_bot initial_world).1.1 with
  | Returned reply => length reply
  | Raised _ => 0
  end = 300.
Proof. vm_compute. reflexivity. Qed.

(** ** A mention observed again *)

Lemma update_one_after_absent id now ms rest :
  id ∉ DB.mention_tweet_id <$> ms →
  DB.update_one_replied id now (ms ++ rest)
  = ms ++ DB.update_one_replied id now rest.
Proof.
  induction ms as [|m ms IH]; simpl; [done|]. intros H.
  apply not_elem_of_cons in H as [H1 H2].
  rewrite decide_False by done. by rewrite IH.
Qed.

Lemma filter_absent id ms :
  id ∉ DB.mention_tweet_id <$> ms →
  filter (λ doc, DB.mention_tweet_id doc = id) ms = [].
Proof.
  induction ms as [|m ms IH]; simpl; [done|]. intros H.
  apply not_elem_of_cons in H as [H1 H2].
  rewrite filter_cons_False by done. by apply IH.
Qed.

(** X20.  With a connected store whose server answers, a mention is saved
    again each time it is processed: after an attempt whose publish fails
    and a later one that succeeds, the store holds two documents for a
    mention it had not seen before, the first marked replied and the second
    left as not replied. *)
Theorem retried_mention_is_recorded_twice env env' m x w :
  store_sound x = true → store_answers x = true → db_active x = true →
  py_str (mention_id m) ∉ DB.mention_tweet_id <$> stored_mentions x →
  (∀ w0 text, ∃ e, create_tweet env w0 text (Some (mention_id m)) = Raised e) →
  (∀ w0 text, ∃ r,
     create_tweet env' w0 text (Some (mention_id m)) = Returned r) →
  let '(_, x1, w1) := reply_to_mention env m x w in
  let '(_, x2, w2) := reply_to_mention env' m x1 w1 in
  ∃ first second,
    filter (λ doc, DB.mention_tweet_id doc = py_str (mention_id m))
      (stored_mentions x2) = [first; second] ∧
    DB.replied first = true ∧ DB.replied second = false.
Proof.
  intros Hs Hans Ha Hnew Hfail Hok.
  set (id := py_str (mention_id m)) in *.
  assert (already_replied x id = false) as Hno.
  { unfold already_replied. rewrite Ha. by apply find_replied_absent. }
  destruct (reply_to_mention_attempt env m x w Hs Hans Hno)
    as (username & reply_text & w1 & _ & _ & _ & ->).
  destruct (Hfail w1 reply_text) as [e ->].
  destruct (mention_recorded_obs env w m username x Hs Hans)
    as (Hs1 & Hans1 & Ha1 & _ & _ & _ & Hm1).
  rewrite Ha in Ha1, Hm1.
  set (x1 := mention_recorded env w m username x) in *.
  set (w2 := called w1 _).
  assert (already_replied x1 id = false) as Hno1.
  { unfold already_replied. rewrite Ha1, Hm1, find_replied_app.
    rewrite find_replied_absent by done. simpl. by rewrite andb_false_r. }
  destruct (reply_to_mention_attempt env' m x1 w2 Hs1 Hans1 Hno1)
    as (username' & reply_text' & w3 & _ & _ & _ & ->).
  destruct (Hok w3 reply_text') as [r ->].
  destruct (mention_recorded_obs env' w2 m username' x1 Hs1 Hans1)
    as (Hs2 & Hans2 & Ha2 & _ & _ & _ & Hm2).
  rewrite Ha1 in Ha2, Hm2.
  set (x2 := mention_recorded env' w2 m username' x1) in *.
  match goal with
  | |- context [marked_replied env' ?w4 ?a ?b ?c ?d ?e0 x2] =>
      destruct (marked_replied_obs env' w4 a b c d e0 x2 Hs2 Hans2)
        as (_ & _ & _ & _ & Hm3); rewrite Ha2 in Hm3;
      destruct Hm3 as (_ & Hm3 & _); rewrite Hm3
  end.
  rewrite Hm2, Hm1, <- app_assoc.
  rewrite update_one_after_absent by done. simpl.
  fold id. rewrite decide_True by done.
  rewrite filter_app, filter_absent by done. simpl.
  rewrite !filter_cons_True by done. rewrite filter_nil.
  by eexists _, _.
Qed.

(** Mention "123" at a platform that refuses the reply, then at one that
    publishes it. *)
Lemma retried_mention_is_recorded_twice_witness :
  let '(_, x1, w1) :=
    reply_to_mention Scenario.closed_inbox Scenario.mention_123
      (Scenario.online_bot Scenario.closed_inbox) initial_world in
  let '(_, x2, w2) :=
    reply_to_mention Scenario.open_inbox Scenario.mention_123 x1 w1 in
  ∃ first second,
    filter (λ doc, DB.mention_tweet_id doc
                   = py_str (mention_id Scenario.mention_123))
      (stored_mentions x2) = [first; second] ∧
    DB.replied first = true ∧ DB.replied second = false.
Proof.
  refine (retried_mention_is_recorded_twice Scenario.closed_inbox
            Scenario.open_inbox Scenario.mention_123
            (Scenario.online_bot Scenario.closed_inbox) initial_world
            eq_refl eq_refl eq_refl _ _ _).
  - vm_compute. apply not_elem_of_nil.
  - intros w0 text. eexists. reflexivity.
  - intros w0 text. eexists. reflexivity.
Defined.

(** ** One reply to a mention, over a whole run *)

Section Once.
Variable env : Env.
Variables (id : Z) (kept : list DB.ReplyDoc) (calls : list Publish).

Let I := answered_once (accepts env id) id kept calls.

Lemma replies_called_other more text id' :
  id' ≠ id →
  replies_called id (more ++ [mk_publish text (Some id')]) = replies_called id more.
Proof.
  intros Hne. unfold replies_called.
  rewrite filter_app, filter_cons, decide_False by (simpl; congruence).
  by rewrite filter_nil, app_nil_r.
Qed.

Lemma once_reply_to_mention m : inv I (reply_to_mention env m).
Proof.
  intros x w (Hs & Hact & more & Hw & Hcases).
  pose proof (reply_to_mention_effects env m x w Hs) as H. cbv zeta in H.
  destruct (reply_to_mention env m x w) as [[r x'] w'].
  destruct H as (Hs' & Ha' & _ & H).
  destruct H as [(_ & _ & -> & ->)|[H|H]].
  - split; [done|]. split; [done|]. by exists more.
  - destruct H as (Ha & text & w1 & e & doc & Hct & _ & Hcalls & Hdoc & _ & _
                   & Hr & Hm).
    rewrite Hact in Hm.
    split; [done|]. split; [congruence|].
    exists (more ++ [mk_publish text (Some (mention_id m))]).
    split; [by rewrite Hcalls, Hw, app_assoc|].
    assert (Hhits : accepts env id →
              replies_called id (more ++ [mk_publish text (Some (mention_id m))])
              = replies_called id more).
    { intros Hacc. apply replies_called_other. intros E. rewrite E in Hct.
      destruct (Hacc w1 text) as [rr Hrr]. congruence. }
    unfold replies_recorded in *. rewrite Hr.
    destruct Hcases as [[Hk Hh]|(rdoc & Hk & Hf & Hh)].
    + left. split; [done|]. intros Hacc. rewrite Hhits by done. by apply Hh.
    + right. exists rdoc. split; [done|]. split.
      * by rewrite Hm, find_replied_app, Hf.
      * intros Hacc. rewrite Hhits by done. by apply Hh.
  - destruct H as (Ha & text & w1 & rr & doc & rdoc & now & _ & _ & Hcalls
                   & Hdoc & Hrdoc & Hobs).
    rewrite Hact in Hobs. destruct Hobs as (_ & Hm & Hr).
    split; [done|]. split; [congruence|].
    exists (more ++ [mk_publish text (Some (mention_id m))]).
    split; [by rewrite Hcalls, Hw, app_assoc|].
    unfold replies_recorded in *. rewrite Hr, filter_app.
    destruct (decide (mention_id m = id)) as [E|E].
    + unfold already_replied in Ha. rewrite Hact, E in Ha.
      destruct Hcases as [[Hk Hh]|(rdoc' & Hk & Hf & Hh)]; [|congruence].
      right. exists rdoc.
      rewrite filter_cons, decide_True by (by rewrite Hrdoc, E).
      rewrite filter_nil, Hk. split; [done|]. split.
      * rewrite Hm, E. apply mark_mention_replied_marks.
        exists doc. split; [|by rewrite Hdoc, E].
        apply elem_of_app. right. by left.
      * intros Hacc. unfold replies_called in *.
        rewrite filter_app, Hh by done. simpl.
        rewrite filter_cons, decide_True by (simpl; congruence). done.
    + assert (py_str (mention_id m) ≠ py_str id) as Hne.
      { intros E'. by apply py_str_inj in E'. }
      rewrite filter_cons, decide_False by (by rewrite Hrdoc).
      rewrite filter_nil, app_nil_r.
      destruct Hcases as [[Hk Hh]|(rdoc' & Hk & Hf & Hh)].
      * left. split; [done|]. intros Hacc.
        rewrite replies_called_other by done. by apply Hh.
      * right. exists rdoc'. split; [done|]. split.
        -- rewrite Hm, find_replied_update_other, find_replied_app, Hf by done.
           done.
        -- intros Hacc. rewrite replies_called_other by done. by apply Hh.
Qed.

Lemma once_clean_up : inv I (clean_up_replied_tweets env).
Proof.
  intros x w H. pose proof H as (_ & Hact & _).
  unfold clean_up_replied_tweets, bind, get_self. by rewrite Hact.
Qed.

Lemma once_check : inv I (check_and_reply_to_mentions env).
Proof.
  apply check_and_reply_inv; [apply once_reply_to_mention|apply once_clean_up].
Qed.

Lemma once_posts x0 w0 x w : I x0 w0 → posts_only x0 w0 x w → I x w.
Proof.
  intros (Hs & Hact & more & Hw & Hcases)
    (Hs' & Hans' & Ha' & Hm & Hr & posts & Hp & Hn).
  split.
  { unfold store_ready in *. apply andb_true_iff in Hs as [Hs1 Hs2].
    apply andb_true_iff. split; [congruence|by apply Hans']. }
  split; [congruence|].
  exists (more ++ posts). split; [by rewrite Hp, Hw, app_assoc|].
  assert (replies_called id (more ++ posts) = replies_called id more) as ->.
  { unfold replies_called. rewrite filter_app.
    assert (filter (λ p, in_reply_to p = Some id) posts = []) as ->;
      [|by rewrite app_nil_r].
    clear Hp. induction posts as [|p ps IH]; [done|].
    apply Forall_cons in Hn as [Hp Hn].
    rewrite filter_cons, decide_False by congruence. by apply IH. }
  unfold replies_recorded in *. by rewrite Hr, Hm.
Qed.

End Once.

Lemma guarded_keeps_dedup {A} (sentinel : A) attr f :
  (∀ c, DB.mentions (f c).2 = DB.mentions c ∧ DB.replies (f c).2 = DB.replies c) →
  keeps_dedup (λ d, if negb (DB.connected d) then (Returned sentinel, d)
                    else DB.on_db d attr f).
Proof.
  intros Hf d. destruct (DB.connected d); simpl; [|done].
  unfold DB.on_db, DB.on_db_in, DB.mentions_of, DB.replies_of.
  destruct (DB.db d) as [c|] eqn:E; [|simpl; by rewrite E].
  pose proof (round_trips_keep 1 c) as (_ & Hr & Hm & _). cbv zeta in Hr, Hm.
  destruct (DB.round_trips 1 c) as [[e|] c1]; cbn -[DB.round_trips] in *;
    [done|].
  specialize (Hf c1). destruct (f c1) as [a c']. simpl in *.
  destruct Hf as [-> ->]. done.
Qed.

Section Posts.
Variable env : Env.
Variables (x0 : Xynae) (w0 : World).

Let P := posts_only x0 w0.

Lemma posts_still {A} (c : M A) :
  (∀ x w, (c x w).1.2 = x ∧ tweet_calls (c x w).2 = tweet_calls w) → inv P c.
Proof.
  intros Hc x w H. specialize (Hc x w).
  destruct (c x w) as [[r x'] w']. simpl in Hc. destruct Hc as [-> Hc].
  unfold P, posts_only in *. by rewrite Hc.
Qed.

Lemma posts_if_db_connected {A}
    (op : Z → DB.XynaeDatabase → outcome A * DB.XynaeDatabase) :
  (∀ now, gentle (op now)) → (∀ now, keeps_dedup (op now)) →
  inv P (if_db_connected env op).
Proof.
  intros Hg Hk x w H. unfold if_db_connected, bind at 1, get_self.
  destruct (db_active x) eqn:Hact; [|exact H].
  unfold bind at 1, datetime_utcnow.
  assert (match on_database (op (utcnow env w)) x w with
          | (_, x', w') => P x' w'
          end) as Ho.
  { unfold on_database. destruct (db x) as [d|] eqn:E; [|exact H].
    destruct (Hg (utcnow env w) d) as (Hcon & Hsound & Hans).
    destruct (Hk (utcnow env w) d) as [Hm Hr].
    destruct (op (utcnow env w) d) as [r d']. simpl in *.
    destruct H as (Hs0 & Han0 & Ha0 & Hm0 & Hr0 & Hp0).
    unfold P, posts_only, store_sound, store_answers, db_active,
      stored_mentions, stored_replies, DB.is_connected in *.
    simpl. rewrite E in *. rewrite Hcon, Hsound, Hm, Hr.
    repeat split; try done. intros H0. by apply Hans, Han0. }
  unfold bind. destruct (on_database _ x w) as [[[a|e] x'] w']; simpl; apply Ho.
Qed.

Lemma posts_append_history entry : inv P (append_history entry).
Proof. by intros x w H. Qed.

Lemma posts_create_tweet text : inv P (client_create_tweet env text None).
Proof.
  intros x w (Hs & Hans & Ha & Hm & Hr & posts & Hp & Hn). simpl.
  repeat split; try done.
  exists (posts ++ [mk_publish text None]).
  split; [by rewrite Hp, app_assoc|].
  apply Forall_app. split; [done|]. by constructor.
Qed.

Lemma posts_generate_tweet tweet_type language :
  inv P (generate_tweet env tweet_type language).
Proof.
  unfold generate_tweet, random_choice, random_random, random_uniform,
    random_randint.
  frame_walk with
    (first [ apply posts_append_history
           | apply posts_if_db_connected;
               [intros; store_op_gentle
               |intros; apply guarded_keeps_dedup; by intros]
           | by apply posts_still ]).
  apply posts_still. intros x w. unfold llm_generate.
  by destruct (LLM.generate _ _ _ _).
Qed.

Lemma posts_post_to_x tweet tweet_type language now last :
  inv P (post_to_x env tweet tweet_type language now last).
Proof.
  unfold post_to_x.
  frame_walk with
    (first [ apply posts_create_tweet
           | apply posts_if_db_connected;
               [intros; store_op_gentle
               |intros; apply guarded_keeps_dedup; by intros]
           | by apply posts_still ]).
Qed.

Lemma posts_post_on_schedule tweet_interval now last :
  inv P (post_on_schedule env tweet_interval now last).
Proof.
  unfold post_on_schedule, random_random, random_randint.
  frame_walk with
    (first [ apply posts_generate_tweet
           | apply posts_post_to_x
           | by apply posts_still
           | by intros x w H ]).
Qed.

Lemma posts_time_sleep d : inv P (time_sleep d).
Proof.
  apply posts_still. intros x w. unfold time_sleep. by destruct (d <? 0)%Z.
Qed.

End Posts.

Lemma posts_only_refl x w : posts_only x w x w.
Proof.
  repeat split; try done. exists []. by rewrite app_nil_r.
Qed.

Section OnceRun.
Variable env : Env.
Variables (id : Z) (kept : list DB.ReplyDoc) (calls : list Publish).

Let I := answered_once (accepts env id) id kept calls.

Lemma once_framed {A} (c : M A) x w :
  (∀ x0 w0, inv (posts_only x0 w0) c) → I x w → I (c x w).1.2 (c x w).2.
Proof.
  intros Hc H. specialize (Hc x w x w (posts_only_refl x w)).
  destruct (c x w) as [[r x'] w']. simpl. by eapply once_posts.
Qed.

Lemma once_iteration tweet_interval check_interval t x w :
  I x w →
  I (iteration env tweet_interval check_interval t x w).1.2
    (iteration env tweet_interval check_interval t x w).2.
Proof.
  intros H. unfold iteration.
  set (now := time_time env w). set (due := twitter_client x && _).
  set (check := if due then _ else ret tt).
  assert (inv I check) as Hc.
  { unfold check. destruct due; [apply once_check|apply inv_ret]. }
  specialize (Hc x w H).
  assert (Hretry : ∀ t' x' w', I x' w' →
            I (retry_in_5_minutes t' x' w').1.2
              (retry_in_5_minutes t' x' w').2).
  { intros t' x' w' H'. unfold retry_in_5_minutes.
    pose proof (once_framed (time_sleep 300) x' w'
                  (λ x0 w0, posts_time_sleep x0 w0 300) H') as Hs.
    by destruct (time_sleep 300 x' w') as [[r x''] w'']. }
  destruct (check x w) as [[[[]|e] x1] w1]; [|by apply Hretry].
  set (t1 := if due then _ else t).
  pose proof (once_framed
                (post_on_schedule env tweet_interval now (last_tweet_time t1))
                x1 w1
                (λ x0 w0, posts_post_on_schedule env x0 w0 _ _ _) Hc) as Hp.
  destruct (post_on_schedule _ _ _ _ x1 w1) as [[[last|e] x2] w2];
    simpl in Hp; [|by apply Hretry].
  set (d := sleep_argument _ _ _ _).
  pose proof (once_framed (time_sleep d) x2 w2
                (λ x0 w0, posts_time_sleep x0 w0 d) Hp) as Hs.
  destruct (time_sleep d x2 w2) as [[[[]|e] x3] w3]; simpl in Hs;
    [done|by apply Hretry].
Qed.

Lemma once_run_from n tweet_interval check_interval t x w :
  I x w →
  I (run_from env n tweet_interval check_interval t x w).1.2
    (run_from env n tweet_interval check_interval t x w).2.
Proof.
  revert t x w. induction n as [|n IH]; intros t x w H; [done|].
  simpl.
  pose proof (once_iteration tweet_interval check_interval t x w H) as H1.
  destruct (iteration _ _ _ _ x w) as [[t' x'] w']. by apply IH.
Qed.

End OnceRun.

(** X26.  With a connected store whose server answers, however many
    iterations [run] makes, the store gains one reply document at most for
    any one mention, and the mention is marked replied once it has gained
    it; at a platform that accepts every reply to the mention, [run] makes
    one [create_tweet] call in reply to it at most, the one the document
    records. *)
Theorem run_answers_a_mention_once env n tweet_interval check_interval t x w id :
  store_sound x = true → store_answers x = true → db_active x = true →
  let '(_, x', w') := run_from env n tweet_interval check_interval t x w in
  ∃ more,
    tweet_calls w' = tweet_calls w ++ more ∧
    ((replies_recorded (py_str id) x' = replies_recorded (py_str id) x ∧
      (accepts env id → replies_called id more = [])) ∨
     (∃ doc,
        replies_recorded (py_str id) x'
        = replies_recorded (py_str id) x ++ [doc] ∧
        already_replied x' (py_str id) = true ∧
        (accepts env id → length (replies_called id more) = 1))).
Proof.
  intros Hs Hans Hact.
  pose proof (once_run_from env id (replies_recorded (py_str id) x)
                (tweet_calls w) n tweet_interval check_interval t x w) as H.
  destruct (run_from env n _ _ t x w) as [[t' x'] w']. simpl in H.
  destruct H as (Hs' & Hact' & more & Hw & H).
  { split; [unfold store_ready; by rewrite Hs, Hans|]. split; [done|].
    exists []. split; [by rewrite app_nil_r|]. by left. }
  exists more. split; [done|].
  destruct H as [H|(doc & Hk & Hf & Hh)]; [by left|].
  right. exists doc. split; [done|]. split; [|done].
  unfold already_replied. by rewrite Hact'.
Qed.

(** Two iterations at a platform that returns mention "123" at every check
    and publishes every reply. *)
Lemma run_answers_a_mention_once_witness :
  let '(_, x', w') :=
    run_from Scenario.open_inbox 2 1200 300 (mk_timers 0 0)
      (Scenario.online_bot Scenario.open_inbox) initial_world in
  ∃ more,
    tweet_calls w' = tweet_calls initial_world ++ more ∧
    ((replies_recorded (py_str 123) x'
      = replies_recorded (py_str 123) (Scenario.online_bot Scenario.open_inbox) ∧
      (accepts Scenario.open_inbox 123 → replies_called 123 more = [])) ∨
     (∃ doc,
        replies_recorded (py_str 123) x'
        = replies_recorded (py_str 123)
            (Scenario.online_bot Scenario.open_inbox) ++ [doc] ∧
        already_replied x' (py_str 123) = true ∧
        (accepts Scenario.open_inbox 123 →
         length (replies_called 123 more) = 1))).
Proof.
  exact (run_answers_a_mention_once Scenario.open_inbox 2 1200 300
           (mk_timers 0 0) (Scenario.online_bot Scenario.open_inbox)
           initial_world 123 eq_refl eq_refl eq_refl).
Defined.

(** On that run the second check fetches the mention again and does not
    answer it: one reply, then the scheduled post. *)
Example open_inbox_is_answered_once :
  in_reply_to <$>
    tweet_calls
      (run_from Scenario.open_inbox 2 1200 300 (mk_timers 0 0)
         (Scenario.online_bot Scenario.open_inbox) initial_world).2
  = [Some 123%Z; None].
Proof. vm_compute. reflexivity. Qed.


(** ** The posts of a run *)

Lemma generate_tweet_short env tweet_type language x w :
  ∃ tweet x' w',
    generate_tweet env tweet_type language x w = (Returned tweet, x', w') ∧
    tweet_calls w' = tweet_calls w ∧ length tweet ≤ 280.
Proof.
  pose proof (generate_tweet_quiet env tweet_type language x w x w
                (quiet_refl x w)) as Hq.
  destruct (generate_tweet_returns env tweet_type language x w)
    as (tweet & x' & w' & E & Ht).
  rewrite E in Hq. destruct Hq as (_ & _ & _ & _ & Hc & _).
  exists tweet, x', w'. split; [done|]. split; [done|].
  destruct Ht as [[text ->]|(raw1 & raw2 & raw3 & lang & ->)].
  - apply truncate_tweet_length.
  - apply fallback_tweet_short; apply randint_four_digits.
Qed.

(** The scheduled post of an iteration makes one call at most, a post of
    280 characters at most. *)
Lemma post_on_schedule_calls env tweet_interval now last x w :
  ∃ posts,
    tweet_calls (post_on_schedule env tweet_interval now last x w).2
    = tweet_calls w ++ posts ∧
    (posts = [] ∨
     ∃ tweet, posts = [mk_publish tweet None] ∧ length tweet ≤ 280).
Proof.
  assert (Hnone : ∀ w' : World, tweet_calls w' = tweet_calls w →
            ∃ posts, tweet_calls w' = tweet_calls w ++ posts ∧
              (posts = [] ∨
               ∃ tweet, posts = [mk_publish tweet None] ∧ length tweet ≤ 280)).
  { intros w' H. exists []. rewrite app_nil_r. split; [done|by left]. }
  unfold post_on_schedule.
  destruct (_ <=? _)%Z; [|by apply Hnone].
  assert (Hdraw : ∀ x0 w0, ∃ r w',
            random_random env x0 w0 = (Returned r, x0, w') ∧
            tweet_calls w' = tweet_calls w0).
  { intros x0 w0. by eexists _, _. }
  destruct (Hdraw x w) as (rand & w1 & E1 & Ht1).
  rewrite (bind_returned _ _ _ _ _ _ _ E1). cbv zeta.
  destruct (Hdraw x w1) as (lang_rand & w2 & E2 & Ht2).
  rewrite (bind_returned _ _ _ _ _ _ _ E2).
  set (tweet_type := pick_tweet_type _). set (language := pick_language _).
  destruct (generate_tweet_short env tweet_type language x w2)
    as (tweet & x3 & w3 & E3 & Ht3 & Hlen).
  rewrite (bind_returned _ _ _ _ _ _ _ E3).
  pose proof (post_to_x_world env tweet tweet_type language now last x3 w3)
    as Hp.
  assert (Hsent : ∀ w' : World,
            tweet_calls w'
            = tweet_calls (post_to_x env tweet tweet_type language now last
                             x3 w3).2 →
            ∃ posts, tweet_calls w' = tweet_calls w ++ posts ∧
              (posts = [] ∨
               ∃ tweet, posts = [mk_publish tweet None] ∧ length tweet ≤ 280)).
  { intros w' ->. rewrite Hp. destruct (twitter_client x3); simpl.
    - exists [mk_publish tweet None]. split; [congruence|].
      right. by exists tweet.
    - apply Hnone. congruence. }
  unfold bind at 1.
  destruct (post_to_x env tweet tweet_type language now last x3 w3)
    as [[[last'|e] x4] w4]; simpl in Hsent; [|by apply Hsent].
  destruct (Hdraw x4 w4) as (r & w5 & E5 & Ht5).
  rewrite (bind_returned _ _ _ _ _ _ _ E5).
  destruct (Qltb r float_0_2); simpl; apply Hsent; simpl; congruence.
Qed.

Lemma posted_replies answered more : replies_to answered more → posted more = [].
Proof.
  unfold replies_to, posted. revert answered.
  induction more as [|p ps IH]; intros answered H; [done|].
  destruct answered as [|m ms]; [done|]. simpl in H.
  injection H as Hp Hps.
  rewrite filter_cons, decide_False by (by rewrite Hp). by eapply IH.
Qed.

Lemma posts_are_more calls posts x w w' more :
  posts_are calls posts x w → tweet_calls w' = tweet_calls w ++ more →
  ∀ x', posts_are calls (posts ++ posted more) x' w'.
Proof.
  intros (more0 & Hw & Hp) Hw' x'. exists (more0 ++ more).
  split; [by rewrite Hw', Hw, app_assoc|].
  unfold posted in *. by rewrite filter_app, Hp.
Qed.

Lemma posts_are_check env calls posts :
  inv (posts_are calls posts) (check_and_reply_to_mentions env).
Proof.
  apply check_and_reply_inv.
  - intros m x w H.
    pose proof (calls_reply_to_mention env (tweet_calls w) m x w eq_refl) as Hm.
    destruct (reply_to_mention env m x w) as [[r x'] w'].
    destruct Hm as (more & answered & Hw' & Hr & _).
    pose proof (posts_are_more _ _ _ _ _ _ H Hw' x') as H'.
    by rewrite (posted_replies _ _ Hr), app_nil_r in H'.
  - intros x w H. by destruct (clean_up_returns env x w) as [x' ->].
Qed.

Lemma posts_are_sleep calls posts d : inv (posts_are calls posts) (time_sleep d).
Proof.
  intros x w H. pose proof (time_sleep_calls d x w) as Hc.
  destruct (time_sleep d x w) as [[r x'] w']. simpl in Hc.
  destruct H as (more & Hw & Hp). exists more. by rewrite Hc.
Qed.

(** One iteration: the posts so far, and one more of 280 characters at
    most or none. *)
Lemma posts_are_iteration env calls posts tweet_interval check_interval t x w :
  posts_are calls posts x w →
  ∃ new,
    posts_are calls (posts ++ new)
      (iteration env tweet_interval check_interval t x w).1.2
      (iteration env tweet_interval check_interval t x w).2 ∧
    length new ≤ 1 ∧ Forall (λ p, length (pub_text p) ≤ 280) new.
Proof.
  intros H. unfold iteration.
  set (now := time_time env w). set (due := twitter_client x && _).
  set (check := if due then _ else ret tt).
  assert (inv (posts_are calls posts) check) as Hc.
  { unfold check. destruct due; [apply posts_are_check|apply inv_ret]. }
  specialize (Hc x w H).
  assert (Hretry : ∀ posts' t' x' w', posts_are calls posts' x' w' →
            posts_are calls posts' (retry_in_5_minutes t' x' w').1.2
              (retry_in_5_minutes t' x' w').2).
  { intros posts' t' x' w' H'. unfold retry_in_5_minutes.
    pose proof (posts_are_sleep calls posts' 300 x' w' H') as Hs.
    by destruct (time_sleep 300 x' w') as [[r x''] w'']. }
  destruct (check x w) as [[[[]|e] x1] w1].
  2:{ exists []. rewrite app_nil_r. split; [by apply Hretry|].
      split; [simpl; lia|done]. }
  set (t1 := if due then _ else t).
  destruct (post_on_schedule_calls env tweet_interval now (last_tweet_time t1)
              x1 w1) as (new & Hw2 & Hnew).
  assert (posted new = new ∧ length new ≤ 1 ∧
          Forall (λ p, length (pub_text p) ≤ 280) new) as (Hpn & Hl & Hf).
  { destruct Hnew as [->|(tweet & -> & Hlen)].
    - split; [done|]. split; [simpl; lia|done].
    - split; [done|]. split; [simpl; lia|by constructor]. }
  exists new. split; [|done].
  destruct (post_on_schedule _ _ _ _ x1 w1) as [[[last|e] x2] w2];
    simpl in Hw2.
  2:{ apply Hretry. rewrite <- Hpn. by eapply posts_are_more. }
  assert (posts_are calls (posts ++ new) x2 w2) as H2.
  { rewrite <- Hpn. by eapply posts_are_more. }
  set (d := sleep_argument _ _ _ _).
  pose proof (posts_are_sleep calls (posts ++ new) d x2 w2 H2) as Hs.
  destruct (time_sleep d x2 w2) as [[[[]|e] x3] w3]; simpl in Hs;
    [done|by apply Hretry].
Qed.

(** X27.  In [n] iterations [run] makes at most [n] [create_tweet] calls
    that are not replies, one scheduled post an iteration at most, and each
    of them has a text of 280 characters at most. *)
Theorem run_posts_once_an_iteration env n tweet_interval check_interval t x w :
  ∃ more,
    tweet_calls (run_from env n tweet_interval check_interval t x w).2
    = tweet_calls w ++ more ∧
    length (posted more) ≤ n ∧
    Forall (λ p, length (pub_text p) ≤ 280) (posted more).
Proof.
  assert (∀ posts,
            posts_are (tweet_calls w) posts x w →
            ∃ new,
              posts_are (tweet_calls w) (posts ++ new)
                (run_from env n tweet_interval check_interval t x w).1.2
                (run_from env n tweet_interval check_interval t x w).2 ∧
              length new ≤ n ∧ Forall (λ p, length (pub_text p) ≤ 280) new)
    as H.
  { generalize (tweet_calls w) as calls. intros calls.
    revert t x w. induction n as [|n IH]; intros t x w posts H.
    - exists []. rewrite app_nil_r. by repeat split.
    - simpl.
      destruct (posts_are_iteration env calls posts tweet_interval
                  check_interval t x w H) as (new1 & H1 & Hl1 & Hf1).
      destruct (iteration _ _ _ _ x w) as [[t' x'] w']. simpl in H1.
      destruct (IH t' x' w' _ H1) as (new2 & H2 & Hl2 & Hf2).
      exists (new1 ++ new2). rewrite app_assoc. split; [done|].
      split; [rewrite length_app; lia|by apply Forall_app]. }
  destruct (H []) as (new & (more & Hw & Hp) & Hl & Hf).
  { exists []. by rewrite app_nil_r. }
  exists more. simpl in Hp. rewrite Hp. done.
Qed.

(** ** The time of the last post *)

(** A post that is due: the draws and the generation before the publish
    step are quiet, and the scheduled post ends as the publish step does. *)
Lemma post_on_schedule_due env tweet_interval now previous x w :
  (tweet_interval ≤ now - previous)%Z →
  ∃ tweet_type language tweet x1 w1,
    quiet x w x1 w1 ∧
    match post_to_x env tweet tweet_type language now previous x1 w1 with
    | (Returned v, x2, w2) =>
        ∃ x3 w3,
          post_on_schedule env tweet_interval now previous x w
          = (Returned v, x3, w3) ∧
          db x3 = db x2 ∧ twitter_client x3 = twitter_client x2 ∧
          tweet_calls w3 = tweet_calls w2 ∧ sleep_calls w3 = sleep_calls w2
    | (Raised e, x2, w2) =>
        post_on_schedule env tweet_interval now previous x w = (Raised e, x2, w2)
    end.
Proof.
  intros Hdue. unfold post_on_schedule.
  apply Z.leb_le in Hdue. rewrite Hdue.
  assert (Hdraw : ∀ x0 w0, ∃ r w',
            random_random env x0 w0 = (Returned r, x0, w') ∧
            tweet_calls w' = tweet_calls w0 ∧ sleep_calls w' = sleep_calls w0).
  { intros x0 w0. by eexists _, _. }
  destruct (Hdraw x w) as (rand & w1 & E1 & Ht1 & Hs1).
  rewrite (bind_returned _ _ _ _ _ _ _ E1). cbv zeta.
  destruct (Hdraw x w1) as (lang_rand & w2 & E2 & Ht2 & Hs2).
  rewrite (bind_returned _ _ _ _ _ _ _ E2).
  set (tweet_type := pick_tweet_type _). set (language := pick_language _).
  pose proof (generate_tweet_quiet env tweet_type language x w2 x w2
                (quiet_refl x w2)) as Hq.
  destruct (generate_tweet_returns env tweet_type language x w2)
    as (tweet & x3 & w3 & E3 & _).
  rewrite E3 in Hq. rewrite (bind_returned _ _ _ _ _ _ _ E3).
  exists tweet_type, language, tweet, x3, w3. split.
  { destruct Hq as (Q1 & Q2 & Q3 & Q4 & Q5 & Q6 & Q7).
    repeat split; [done..|congruence|congruence|done]. }
  destruct (post_to_x env tweet tweet_type language now previous x3 w3)
    as [[[v|e] x4] w4] eqn:E4.
  - rewrite (bind_returned _ _ _ _ _ _ _ E4).
    destruct (Hdraw x4 w4) as (r & w5 & E5 & Ht5 & Hs5).
    rewrite (bind_returned _ _ _ _ _ _ _ E5).
    destruct (Qltb r float_0_2); simpl; eexists _, _;
      (split; [reflexivity|]); simpl; repeat split; try done; congruence.
  - by rewrite (bind_raised _ _ _ _ _ _ _ E4).
Qed.


(** On a store whose server answers the publish step returns, with the
    current time when [create_tweet] returned. *)
Lemma post_to_x_returns env tweet tweet_type language now previous x w :
  store_sound x = true → store_answers x = true →
  ∃ x' w',
    post_to_x env tweet tweet_type language now previous x w =
      (Returned (if twitter_client x
                 then match create_tweet env w tweet None with
                      | Returned _ => now
                      | Raised _ => previous
                      end
                 else previous), x', w').
Proof.
  intros Hs Ha.
  unfold post_to_x, bind at 1, get_self.
  destruct (twitter_client x) eqn:Hc; [|by eexists _, _].
  pose proof (paced_refl x w Hs Ha) as HI. rewrite Hc in HI.
  unfold try_except, bind at 1, client_create_tweet.
  set (w1 := mk_world _ _ _ _).
  assert (HI1 : paced true w x w1).
  { destruct HI as (? & ? & ? & pauses & ? & ?). repeat split; [done..|].
    by exists pauses. }
  destruct (create_tweet env w tweet None) as [r|e].
  - unfold bind.
    destruct (total_returns _ _ x w1
                (if_db_connected_total env _
                   (λ now d, DB.save_tweet d now tweet tweet_type language true
                               (py_str <$> r))
                   (paced_calm true w) (λ _, save_tweet_gentle _ _ _ _ _ _)
                   (λ _, guarded_unfailing _ _ _)) HI1)
      as (a & x' & w' & -> & _).
    by eexists _, _.
  - simpl. destruct (tweepy_exception (exn_cls e)); [|by eexists _, _].
    unfold bind.
    destruct (total_returns _ _ x w1
                (if_db_connected_total env _
                   (λ now d, DB.save_tweet d now tweet tweet_type language false
                               None)
                   (paced_calm true w) (λ _, save_tweet_gentle _ _ _ _ _ _)
                   (λ _, guarded_unfailing _ _ _)) HI1)
      as (a & x' & w' & -> & _).
    by eexists _, _.
Qed.

(** An iteration, step by step: the check returns, then comes the
    scheduled post, then the sleep, or the 300 seconds of the handler. *)
Lemma iteration_steps env tweet_interval check_interval t x w :
  let now := time_time env w in
  let t1 := if twitter_client x && (check_interval <=? now - last_check_time t)%Z
            then mk_timers (last_tweet_time t) now else t in
  ∃ x1 w1,
    twitter_client x1 = twitter_client x ∧
    (store_sound x = true → store_answers x = true →
     paced (twitter_client x) w x1 w1) ∧
    (∃ replies,
       tweet_calls w1 = tweet_calls w ++ replies ∧ posted replies = []) ∧
    iteration env tweet_interval check_interval t x w =
    match post_on_schedule env tweet_interval now (last_tweet_time t) x1 w1 with
    | (Returned v, x2, w2) =>
        let d := Z.min check_interval
                   (if (0 <? v)%Z then tweet_interval - (now - v)
                    else tweet_interval) in
        (mk_timers v (last_check_time t1), x2,
         if (d <? 0)%Z then slept (slept w2 d) 300 else slept w2 d)
    | (Raised _, x2, w2) => (t1, x2, slept w2 300)
    end.
Proof.
  intros now t1. unfold iteration. fold now.
  set (due := twitter_client x && _) in *.
  set (check := if due then _ else ret tt).
  assert (∃ x1 w1,
            check x w = (Returned tt, x1, w1) ∧
            twitter_client x1 = twitter_client x ∧
            (store_sound x = true → store_answers x = true →
             paced (twitter_client x) w x1 w1) ∧
            (∃ replies,
               tweet_calls w1 = tweet_calls w ++ replies ∧ posted replies = []))
    as (x1 & w1 & -> & Hc & Hp & Hr).
  { unfold check. destruct due.
    - pose proof (evolves_check_and_reply_to_mentions env 0 x x w
                    (evolves_refl x)) as Hev.
      assert (posts_are (tweet_calls w) [] x w) as Hpo0
        by (exists []; by rewrite app_nil_r).
      pose proof (posts_are_check env (tweet_calls w) [] x w Hpo0) as Hpo.
      pose proof (λ Hs Ha, paced_check_and_reply_to_mentions env
                             (twitter_client x) w x w (paced_refl x w Hs Ha))
        as Hpa.
      destruct (check_and_reply_returns env x w) as ([] & x1 & w1 & E & _).
      rewrite E in Hev, Hpo, Hpa. exists x1, w1.
      split; [done|]. split; [by destruct Hev as (_ & _ & ? & _)|].
      split; [|done]. intros Hs Ha. by destruct (Hpa Hs Ha).
    - exists x, w. split; [done|]. split; [done|].
      split; [intros; by apply paced_refl|]. exists []. by rewrite app_nil_r. }
  exists x1, w1. split; [done|]. split; [done|]. split; [done|].
  replace (last_tweet_time (if due then mk_timers (last_tweet_time t) now else t))
    with (last_tweet_time t) by (by destruct due).
  destruct (post_on_schedule env tweet_interval now (last_tweet_time t) x1 w1)
    as [[[v|e] x2] w2]; [|done].
  unfold sleep_argument, time_until_tweet, time_sleep, retry_in_5_minutes,
    time_sleep, slept. cbv zeta.
  by destruct (_ <? 0)%Z.
Qed.




(** The platform accepts every post: the first iteration, at time 2000,
    sets [last_tweet_time], with a store that saves the tweet and with no
    store. *)
Example published_post_sets_the_time :
  let '(t', x', w') :=
    iteration Scenario.open_platform 1200 300 (mk_timers 0 0)
      (Scenario.online_bot Scenario.open_platform) initial_world in
  last_tweet_time t' = 2000%Z ∧ DB.posted <$> stored_tweets x' = [true].
Proof. vm_compute. done. Qed.

(** The platform accepts every post and the database server is lost after
    the connection: [save_tweet] raises after the publish, [last_tweet_time]
    stays 0 and the next iteration publishes a post again. *)
Example unsaved_post_leaves_the_time :
  let '(state, w) :=
    main Scenario.open_platform Scenario.lost_startup 2 initial_world in
  (last_tweet_time ∘ fst) <$> state = Some 0%Z ∧
  in_reply_to <$> tweet_calls w = [None; None] ∧
  sleep_calls w = [300; 300]%Z.
Proof. vm_compute. done. Qed.

(** ** The sleep that ends an iteration *)

(** On a store whose server answers, an iteration whose post is overdue
    and is refused by the platform keeps [last_tweet_time] and then calls
    [time.sleep] with [min(check_interval, tweet_interval - (now -
    last_tweet_time))], which is negative; the call raises and the handler
    of the loop sleeps 300 seconds.  The only sleeps before are the
    five-second pauses between replies. *)
Lemma overdue_post_sleeps_negative env tweet_interval check_interval t x w :
  let now := time_time env w in
  let previous := last_tweet_time t in
  store_sound x = true → store_answers x = true →
  (0 < previous)%Z → (tweet_interval < now - previous)%Z →
  (∀ w0 text, ∃ e, create_tweet env w0 text None = Raised e) →
  let '(t', x', w') := iteration env tweet_interval check_interval t x w in
  let d := Z.min check_interval (tweet_interval - (now - previous)) in
  ∃ pauses, Forall (eq 5%Z) pauses ∧
    (d < 0)%Z ∧ last_tweet_time t' = previous ∧
    sleep_calls w' = sleep_calls w ++ pauses ++ [d; 300%Z].
Proof.
  intros now previous Hs Ha Hpos Hover Hfail.
  destruct (iteration_steps env tweet_interval check_interval t x w)
    as (x1 & w1 & Hc1 & Hpaced & _ & ->).
  fold now previous.
  destruct (Hpaced Hs Ha) as (Hs1 & Ha1 & _ & pauses & Hp & Hz).
  destruct (post_on_schedule_due env tweet_interval now previous x1 w1)
    as (tweet_type & language & tweet & x1' & w1' & Hq & Hpost); [lia|].
  destruct Hq as (_ & _ & Q3 & _ & _ & Q6 & Q7).
  destruct (post_to_x_returns env tweet tweet_type language now previous
              x1' w1') as (x2 & w2 & E); [congruence|by apply Q7|].
  pose proof (post_to_x_world env tweet tweet_type language now previous
                x1' w1') as Hw.
  rewrite E in Hpost, Hw. cbn [snd] in Hw.
  assert ((if twitter_client x1'
           then match create_tweet env w1' tweet None with
                | Returned _ => now
                | Raised _ => previous
                end
           else previous) = previous) as Hv.
  { destruct (twitter_client x1'); [|done].
    by destruct (Hfail w1' tweet) as [e ->]. }
  rewrite Hv in Hpost. destruct Hpost as (x3 & w3 & -> & _ & _ & _ & Hz3).
  assert (sleep_calls w3 = sleep_calls w ++ pauses) as Hz'.
  { rewrite Hz3, Hw, <- Hz, <- Q6. by destruct (twitter_client x1'). }
  cbv zeta. destruct (Z.ltb_spec 0 previous) as [_|]; [|lia].
  exists pauses. split; [done|].
  set (d := Z.min check_interval (tweet_interval - (now - previous))).
  assert (d < 0)%Z as Hd by (unfold d; lia).
  split; [done|]. split; [done|].
  destruct (Z.ltb_spec d 0) as [_|]; [|lia].
  cbn [slept sleep_calls]. by rewrite Hz', <- !app_assoc.
Qed.

(** C7.  At the failing input.  The platform accepts the first post, at
    time 2000, and refuses every later one; every sleep overruns by one
    tick.  The fifth iteration runs at 3201 with the post overdue by one
    second, its publish fails, [last_tweet_time] stays 2000, and the loop
    calls [time.sleep(-1)]: the sleep argument is [min(300, 1200 - 1201)],
    not floored at zero; the call raises and the handler sleeps 300. *)
Theorem sleep_argument_goes_negative :
  let '(state, w) :=
    main Scenario.flaky_platform Scenario.startup 5 initial_world in
  (last_tweet_time ∘ fst) <$> state = Some 2000%Z ∧
  sleep_calls w = [300; 300; 300; 297; -1; 300]%Z.
Proof. vm_compute. done. Qed.

(** ** The length of a tweet *)

(** C10.  For every [tweet_type] and [language], in every state and
    against every environment, [generate_tweet] returns a string of at most
    280 characters.  It calls the provider manager once, with the prompt of
    the type (that of "insight" for an unknown type) and [max_tokens] 150.
    When the manager returns a text, the tweet is that text if it has at
    most 280 characters and its first 277 characters followed by "..."
    otherwise; the exception is a connected store whose [save_conversation]
    raises, on which the tweet is a fallback text.  When the manager raises,
    the tweet is the fallback text of the language and the type.  Every
    fallback text, with any outcome of its [randint(1000, 9999)] draws, has
    at most 280 characters. *)
Theorem generate_tweet_at_most_280 env tweet_type language x w :
  (∃ tweet x' w' context lang raw,
     let table :=
       prompts (personality x) context
         (default [] (dict_get language_instructions lang)) in
     let call :=
       LLM.mk_call
         (default (default [] (dict_get table (u "insight")))
            (dict_get table tweet_type))
         150 (py_uniform float_0_8 1 raw) in
     generate_tweet env tweet_type language x w = (Returned tweet, x', w') ∧
     length tweet ≤ 280 ∧
     (language ≠ u "auto" → lang = language) ∧
     match (LLM.generate (llm_manager x) call None (llm_calls w)).1 with
     | Returned text =>
         let cut :=
           if 280 <? length text then take 277 text ++ u "..." else text in
         (tweet = cut ∨
          (db_active x = true ∧
           ∃ raw1 raw2 raw3,
             tweet = fallback_tweet (py_randint 1000 9999 raw1)
                       (py_randint 1000 9999 raw2)
                       (py_randint 1000 9999 raw3) lang tweet_type)) ∧
         (db_active x = false ∨
            (store_sound x = true ∧ store_answers x = true) →
          tweet = cut)
     | Raised _ =>
         ∃ raw1 raw2 raw3,
           tweet = fallback_tweet (py_randint 1000 9999 raw1)
                     (py_randint 1000 9999 raw2)
                     (py_randint 1000 9999 raw3) lang tweet_type
     end) ∧
  (∀ raw1 raw2 raw3 lang type,
     length (fallback_tweet (py_randint 1000 9999 raw1)
               (py_randint 1000 9999 raw2) (py_randint 1000 9999 raw3)
               lang type) ≤ 280).
Proof.
  assert (Hshort : ∀ raw1 raw2 raw3 lang type,
            length (fallback_tweet (py_randint 1000 9999 raw1)
                      (py_randint 1000 9999 raw2) (py_randint 1000 9999 raw3)
                      lang type) ≤ 280).
  { intros. apply fallback_tweet_short; apply randint_four_digits. }
  split; [|exact Hshort].
  assert (Hfallback : ∀ lang x0 w0, ∃ raw1 raw2 raw3 w',
    (r1 <- random_randint env 1000 9999 ;;
     r2 <- random_randint env 1000 9999 ;;
     r3 <- random_randint env 1000 9999 ;;
     ret (fallback_tweet r1 r2 r3 lang tweet_type)) x0 w0
    = (Returned (fallback_tweet (py_randint 1000 9999 raw1)
                   (py_randint 1000 9999 raw2) (py_randint 1000 9999 raw3)
                   lang tweet_type), x0, w')).
  { intros lang x0 w0. by eexists _, _, _, _. }
  unfold generate_tweet.
  rewrite (bind_returned get_self _ x w x x w eq_refl).
  rewrite (bind_returned get_world _ x w w x w eq_refl). cbv beta zeta.
  assert (∃ event w1, random_choice env [] network_events x w
                      = (Returned event, x, w1) ∧ llm_calls w1 = llm_calls w)
    as (event & w1 & E1 & Hl1) by (by eexists _, _).
  rewrite (bind_returned _ _ _ _ _ _ _ E1).
  assert (∃ lang w2,
            (if decide (language = u "auto")
             then lang_rand <- random_random env ;; ret (pick_language lang_rand)
             else ret language) x w1 = (Returned lang, x, w2) ∧
            llm_calls w2 = llm_calls w1 ∧
            (language ≠ u "auto" → lang = language))
    as (lang & w2 & E2 & Hl2 & Hlang).
  { destruct (decide (language = u "auto")); eexists _, _;
      (split; [reflexivity|]); by split. }
  rewrite (bind_returned _ _ _ _ _ _ _ E2).
  match goal with
  | |- context [prompts (personality x) ?c ?li] =>
      set (context := c); set (table := prompts (personality x) context li)
  end.
  unfold try_except.
  assert (∃ raw w3, random_uniform env float_0_8 1 x w2
                    = (Returned (py_uniform float_0_8 1 raw), x, w3) ∧
                    llm_calls w3 = llm_calls w2)
    as (raw & w3 & E3 & Hl3) by (by eexists _, _).
  rewrite (bind_returned _ _ _ _ _ _ _ E3).
  set (call := LLM.mk_call _ 150 (py_uniform float_0_8 1 raw)).
  assert (llm_calls w3 = llm_calls w) as Hl by congruence.
  unfold bind at 1, llm_generate at 1. rewrite Hl.
  destruct (LLM.generate (llm_manager x) call None (llm_calls w))
    as [[text|e] log] eqn:EG.
  2:{ cbn [any_exception].
      set (w4 := mk_world log _ _ _).
      destruct (Hfallback lang x w4) as (raw1 & raw2 & raw3 & w' & ->).
      eexists _, x, w', context, lang, raw.
      fold table call. rewrite EG. cbn [fst].
      split; [reflexivity|]. split; [apply Hshort|]. split; [done|].
      by exists raw1, raw2, raw3. }
  set (w4 := mk_world log _ _ _). cbv zeta.
  set (tweet := truncate_tweet text).
  set (entry := tweet_type ++ u ": " ++ take 50 tweet ++ u "...").
  unfold bind at 1.
  set (x5 := (append_history entry x w4).1.2).
  assert (append_history entry x w4 = (Returned tt, x5, w4)) as -> by done.
  assert (db x5 = db x) as Hdb by done.
  unfold bind at 1.
  destruct (if_db_connected env _ x5 w4) as [[[[]|e] x6] w6] eqn:ES.
  - cbn [ret].
    eexists tweet, x6, w6, context, lang, raw.
    fold table call. rewrite EG. cbn [fst].
    split; [reflexivity|]. split; [apply truncate_tweet_length|].
    split; [done|]. cbv zeta. split; [by left|done].
  - cbn [any_exception].
    destruct (Hfallback lang x6 w6) as (raw1 & raw2 & raw3 & w' & ->).
    eexists _, x6, w', context, lang, raw.
    fold table call. rewrite EG. cbn [fst].
    split; [reflexivity|]. split; [apply Hshort|]. split; [done|].
    cbv zeta.
    assert (db_active x = true) as Hact.
    { destruct (db_active x) eqn:Hact; [done|].
      rewrite if_db_connected_skip in ES; [done|].
      unfold db_active in *. by rewrite Hdb. }
    split; [right; split; [done|]; by exists raw1, raw2, raw3|].
    intros [Hoff|[Hs Ha]]; [congruence|]. exfalso.
    assert (store_sound x5 = true) as Hs5
      by (unfold store_sound in *; by rewrite Hdb).
    assert (store_answers x5 = true) as Ha5
      by (unfold store_answers in *; by rewrite Hdb).
    pose proof (paced_refl x5 w4 Hs5 Ha5) as HI.
    match type of ES with
    | if_db_connected env ?op x5 w4 = _ =>
        destruct (total_returns _ _ x5 w4
                    (if_db_connected_total env _ op
                       (paced_calm (twitter_client x5) w4)
                       (λ now, save_conversation_gentle now _ _ _)
                       (λ _, guarded_unfailing _ _ _)) HI)
          as (a & x7 & w7 & E7 & _)
    end.
    rewrite ES in E7. done.
Qed.

(** ** The constructed agent *)

Lemma db_init_sound getenv cs name server :
  db_sound (DB.__init__ getenv cs name server) = true.
Proof. unfold DB.__init__, DB._connect. by destruct server. Qed.

(** X21.  The agent that construction returns has a store object that is
    connected only with its database behind it, at least one registered
    provider, an empty history and an empty dedup set; its store is absent
    exactly when [use_database] is false, and active only if the server
    answered; its entity count is the [agent_count] given, or between 8000
    and 12000 when that is absent or zero; and it has a platform client only
    if all four credentials are non-empty and [get_me] answered with
    data. *)
Theorem constructed_agent_is_well_formed env su a w xynae w' :
  __init__ env su a w = (Returned xynae, w') →
  store_sound xynae = true ∧
  LLM.list_available_providers (llm_manager xynae) ≠ [] ∧
  LLM.preferred_provider (llm_manager xynae) = arg_llm_provider a ∧
  conversation_history xynae = [] ∧ replied_tweets xynae = [] ∧
  (db xynae = None ↔ arg_use_database a = false) ∧
  (db_active xynae = true → ∃ c, mongo_server su = Returned c) ∧
  match arg_agent_count a with
  | Some n => if (n =? 0)%Z then (8000 ≤ agents_seen xynae ≤ 12000)%Z
              else agents_seen xynae = n
  | None => (8000 ≤ agents_seen xynae ≤ 12000)%Z
  end ∧
  (twitter_client xynae = true →
   Forall (λ credential, is_Some credential)
     [ or_getenv su (arg_twitter_api_key a) "TWITTER_API_KEY";
       or_getenv su (arg_twitter_api_secret a) "TWITTER_API_SECRET";
       or_getenv su (arg_twitter_access_token a) "TWITTER_ACCESS_TOKEN";
       or_getenv su (arg_twitter_access_secret a) "TWITTER_ACCESS_SECRET" ] ∧
   ∃ me, get_me env w' = Returned (Some me)).
Proof.
  unfold __init__.
  destruct (modules_imported su); simpl; [|done].
  destruct (LLM.list_available_providers _) as [|p ps] eqn:Hp; [done|].
  set (agent_count := match arg_agent_count a with
                      | Some n => if (n =? 0)%Z then None else Some n
                      | None => None
                      end).
  assert (∃ n w1,
    (match agent_count with
     | Some n => (n, w)
     | None => (py_randint 8000 12000 (rng env (draws w)),
                mk_world (llm_calls w) (tweet_calls w) (sleep_calls w)
                  (S (draws w)))
     end) = (n, w1) ∧
    match arg_agent_count a with
    | Some k => if (k =? 0)%Z then (8000 ≤ n ≤ 12000)%Z else n = k
    | None => (8000 ≤ n ≤ 12000)%Z
    end) as (n & w1 & -> & Hn).
  { unfold agent_count.
    destruct (arg_agent_count a) as [k|]; [destruct (k =? 0)%Z|];
      eexists _, _; (split; [reflexivity|]);
      first [done|by apply py_randint_range]. }
  intros [= <- <-]. simpl.
  split.
  { unfold store_sound. simpl. destruct (arg_use_database a); [|done].
    apply db_init_sound. }
  split; [by rewrite Hp|]. split; [done|]. split; [done|]. split; [done|].
  split.
  { destruct (arg_use_database a); split; done. }
  split.
  { unfold db_active. simpl. destruct (arg_use_database a); [|done].
    unfold DB.__init__, DB._connect. destruct (mongo_server su); [eauto|done]. }
  split; [exact Hn|].
  destruct (or_getenv su (arg_twitter_api_key a) _); [|done].
  destruct (or_getenv su (arg_twitter_api_secret a) _); [|done].
  destruct (or_getenv su (arg_twitter_access_token a) _); [|done].
  destruct (or_getenv su (arg_twitter_access_secret a) _); [|done].
  destruct (get_me env w1) as [[me|]|e]; [|done..].
  intros _. split; [|by exists me]. repeat constructor; by eexists.
Qed.

(** The agent of the process whose database server answers. *)
Lemma constructed_agent_is_well_formed_witness :
  store_sound (Scenario.online_bot Scenario.closed_platform) = true.
Proof.
  refine (proj1 (constructed_agent_is_well_formed Scenario.closed_platform
                   Scenario.online_startup default_args initial_world
                   (Scenario.online_bot Scenario.closed_platform)
                   (__init__ Scenario.closed_platform Scenario.online_startup
                      default_args initial_world).2 _)).
  vm_compute. reflexivity.
Defined.

(** ** The tables of the scheduled post *)

Lemma pick_tweet_type_cases rand :
  pick_tweet_type rand ∈
    [u "insight"; u "ecosystem"; u "autonomy"; u "invitation"].
Proof.
  unfold pick_tweet_type.
  destruct (Qltb _ _); [by left|]. destruct (Qltb _ _); [by right; left|].
  destruct (Qltb _ _); [by do 2 right; left|]. by do 3 right; left.
Qed.

Lemma pick_language_cases lang_rand :
  pick_language lang_rand ∈ [u "english"; u "chinese"; u "mixed"].
Proof.
  unfold pick_language.
  destruct (Qltb _ _); [by left|]. destruct (Qltb _ _); [by right; left|].
  by do 2 right; left.
Qed.

Lemma dict_get_key {V} (d : list (pystr * V)) k :
  k ∈ d.*1 → is_Some (dict_get d k).
Proof.
  induction d as [|[k' v] d IH]; simpl; [by intros ?%elem_of_nil|].
  intros H. case_decide; [by eexists|].
  apply elem_of_cons in H as [H|H]; [congruence|auto].
Qed.

Ltac dict_step :=
  cbn [dict_get];
  first [ rewrite decide_True by reflexivity
        | rewrite decide_False
            by (let H := fresh in intros H; vm_compute in H; discriminate H) ].

(** X22.  Whatever the two draws of a scheduled post are, the category
    drawn has a prompt, the language drawn has an instruction, and the
    fallback table has a text for the two: a scheduled post never takes the
    default prompt or the generic fallback text. *)
Theorem scheduled_draws_are_table_keys rand lang_rand personality context
    lang_instruction r1 r2 r3 :
  let tweet_type := pick_tweet_type rand in
  let language := pick_language lang_rand in
  is_Some (dict_get language_instructions language) ∧
  is_Some (dict_get (prompts personality context lang_instruction) tweet_type) ∧
  ∃ by_language,
    dict_get (fallbacks r1 r2 r3) language = Some by_language ∧
    is_Some (dict_get by_language tweet_type).
Proof.
  intros tweet_type language.
  pose proof (pick_tweet_type_cases rand) as Ht.
  pose proof (pick_language_cases lang_rand) as Hl.
  fold tweet_type in Ht. fold language in Hl.
  clearbody tweet_type language.
  split; [by apply dict_get_key|]. split; [by apply dict_get_key|].
  unfold fallbacks.
  repeat (apply elem_of_cons in Hl as [->|Hl]); [| | |by apply elem_of_nil in Hl];
    repeat dict_step; eexists; (split; [reflexivity|]);
    by apply dict_get_key.
Qed.

(** ** The end of run *)

(** X23.  On an interrupt with a connected store whose client is open and
    whose server answers, [run] prints the number of stored tweets and of
    stored replies in its statistics line, between the shutdown line and
    the last line, and closes the store: afterwards the store is not
    active, and the database keeps its documents. *)
Theorem shutdown_reports_the_counts_and_disconnects x w d c :
  db x = Some d → DB.connected d = true → DB.client d = true →
  DB.db d = Some c → DB.answers d = true →
  ∃ x',
    on_keyboard_interrupt x w
    = (Returned
         [ nl ++ YELLOW ++ u "[Xynae]" ++ RESET
           ++ u " Shutting down gracefully...";
           YELLOW ++ u "[Xynae]" ++ RESET ++ u " Database stats: "
           ++ py_str (Z.of_nat (length (DB.tweets c))) ++ u " tweets, "
           ++ py_str (Z.of_nat (length (DB.replies c))) ++ u " replies";
           u "Framework stopped." ], x', w) ∧
    db x' = Some (DB.close d) ∧ db_active x' = false ∧
    DB.db (DB.close d) = Some c.
Proof.
  intros Hx Hc Hcl Hd Ha. pose proof (answers_failures d c Hd Ha) as Hf.
  unfold on_keyboard_interrupt, bind at 1, get_self. cbv zeta beta.
  assert (db_active x = true) as -> by (unfold db_active; by rewrite Hx).
  unfold bind at 1, bind at 1.
  rewrite (on_database_run DB.get_stats x w d Hx).
  unfold DB.get_stats. rewrite Hc. cbn [negb].
  rewrite (on_db_in_answers 6 d _ _ c Hd Hf). cbn [fst snd].
  rewrite (set_db_same d c Hd), (set_store_same x d Hx).
  unfold bind at 1. rewrite (on_database_run _ x w d Hx). cbn [fst snd ret].
  eexists. split; [reflexivity|].
  unfold db_active, DB.close. rewrite Hcl. simpl. done.
Qed.

(** The agent of the process whose database server answers, before its
    first tweet. *)
Lemma shutdown_reports_the_counts_and_disconnects_witness :
  ∃ x',
    on_keyboard_interrupt (Scenario.online_bot Scenario.closed_platform)
      initial_world
    = (Returned
         [ nl ++ YELLOW ++ u "[Xynae]" ++ RESET
           ++ u " Shutting down gracefully...";
           YELLOW ++ u "[Xynae]" ++ RESET ++ u " Database stats: "
           ++ py_str (Z.of_nat (length (DB.tweets DB.empty_collections)))
           ++ u " tweets, "
           ++ py_str (Z.of_nat (length (DB.replies DB.empty_collections)))
           ++ u " replies";
           u "Framework stopped." ], x', initial_world) ∧
    db x' = Some (DB.close Scenario.online_store) ∧ db_active x' = false ∧
    DB.db (DB.close Scenario.online_store) = Some DB.empty_collections.
Proof.
  refine (shutdown_reports_the_counts_and_disconnects
            (Scenario.online_bot Scenario.closed_platform) initial_world
            Scenario.online_store DB.empty_collections _ eq_refl eq_refl
            eq_refl eq_refl).
  vm_compute. reflexivity.
Defined.

(** ** The command line *)
Section CommandLine.

Import CLI.

Lemma generate_tweets_returns env count tweet_type language :
  returns (generate_tweets env count tweet_type language)
    (λ tweets, length tweets = count ∧
               Forall (λ tweet, length tweet ≤ 280) tweets).
Proof.
  induction count as [|count IH]; simpl.
  - by apply returns_ret.
  - eapply returns_bind; [apply generate_tweet_returns|]. intros tweet Ht.
    eapply returns_bind; [apply IH|]. intros tweets [Hn Hf].
    apply returns_ret. split; [simpl; congruence|]. constructor; [|done].
    destruct Ht as [[text ->]|(raw1 & raw2 & raw3 & lang & ->)].
    + apply truncate_tweet_length.
    + apply fallback_tweet_short; apply randint_four_digits.
Qed.

(** X24.  [cmd_generate] returns as many tweets as [--count] says, one
    when the count is 0 and none when it is negative, each of at most 280
    characters; it exits, with status 1, only when the personality file
    cannot be read, construction raises, or the output file cannot be
    written. *)
Theorem cmd_generate_returns_count_tweets env su files args w :
  match cmd_generate env su files args w with
  | (inr tweets, _) =>
      length tweets
      = Z.to_nat (if (count args =? 0)%Z then 1 else count args) ∧
      Forall (λ tweet, length tweet ≤ 280) tweets
  | (inl status, _) =>
      status = 1%Z ∧
      ((∃ path e, truthy (personality_file args) = Some path ∧
                  read_file files path = Raised e) ∨
       (∃ personality e w',
          __init__ env su (xynae_kwargs args personality) w = (Raised e, w')) ∨
       (∃ path content e, truthy (output args) = Some path ∧
                          write_file files path content = Raised e))
  end.
Proof.
  unfold cmd_generate.
  destruct (truthy (personality_file args)) as [path|] eqn:Hp.
  - destruct (read_file files path) as [text|e] eqn:Hr; [|split; eauto 10].
    destruct (__init__ env su _ w) as [[xynae|e] w'] eqn:Hi;
      [|split; eauto 10].
    destruct (generate_tweets_returns env
                (Z.to_nat (if (count args =? 0)%Z then 1 else count args))
                (default (u "insight") (truthy (type args)))
                (default (u "auto") (truthy (language args))) xynae w')
      as (tweets & x' & w'' & -> & Hn & Hf).
    destruct (truthy (output args)) as [out|]; [|done].
    destruct (write_file files out _) as [|e] eqn:Hw; [done|].
    split; [done|]. right. right. eauto 10.
  - destruct (__init__ env su _ w) as [[xynae|e] w'] eqn:Hi;
      [|split; eauto 10].
    destruct (generate_tweets_returns env
                (Z.to_nat (if (count args =? 0)%Z then 1 else count args))
                (default (u "insight") (truthy (type args)))
                (default (u "auto") (truthy (language args))) xynae w')
      as (tweets & x' & w'' & -> & Hn & Hf).
    destruct (truthy (output args)) as [out|]; [|done].
    destruct (write_file files out _) as [|e] eqn:Hw; [done|].
    split; [done|]. right. right. eauto 10.
Qed.

(** With the default command line one tweet comes back; with a personality
    file that cannot be read the command exits with status 1 before the
    agent is constructed. *)
Example cmd_generate_on_defaults :
  (∃ tweet w',
     CLI.cmd_generate Scenario.closed_platform Scenario.online_startup
       Scenario.no_files Scenario.bare_command initial_world
     = (inr [tweet], w')) ∧
  CLI.cmd_generate Scenario.closed_platform Scenario.online_startup
    Scenario.no_files
    (CLI.mk_cli_args None None None false None None None None 3 None
       (Some (u "persona.txt")))
    initial_world
  = (inl 1%Z, initial_world).
Proof.
  split; [|vm_compute; reflexivity].
  eexists _, _. vm_compute. reflexivity.
Qed.

Lemma construction_outcome env su a w :
  if negb (modules_imported su)
     || bool_decide (LLM.usable_backends (provider_env su) = 0)
  then ∃ e, __init__ env su a w = (Raised e, w)
  else ∃ xynae w', __init__ env su a w = (Returned xynae, w').
Proof.
  unfold __init__. destruct (modules_imported su); cbn [negb orb]; [|eauto].
  unfold LLM.list_available_providers, LLM.__init__. cbn [LLM.providers].
  case_bool_decide as Hz.
  - apply no_backend_no_provider in Hz. rewrite Hz. eauto.
  - destruct (LLM._initialize_providers (provider_env su)) as [|p ps] eqn:E.
    { by apply no_backend_no_provider in E. }
    cbn [map]. cbv zeta.
    destruct (match arg_agent_count a with Some n => _ | None => _ end);
      by eexists _, _.
Qed.

(** X25.  [cmd_run] never passes [run] an interval of zero: an interval
    option of 0 minutes, like an absent one, gives the default of 1200 or
    300 seconds.  It exits with status 1, before any effect, exactly when
    the modules failed to import or no back end is usable; otherwise the
    agent is constructed and the loop runs with those intervals. *)
Theorem cmd_run_starts_unless_construction_fails env su args n w :
  let tweet_interval := interval_seconds (tweet_interval args) 1200 in
  let check_interval := interval_seconds (check_interval args) 300 in
  tweet_interval ≠ 0%Z ∧ check_interval ≠ 0%Z ∧
  if negb (modules_imported su)
     || bool_decide (LLM.usable_backends (provider_env su) = 0)
  then cmd_run env su args n w = (Some 1%Z, w)
  else ∃ xynae w',
         __init__ env su (xynae_kwargs args None) w = (Returned xynae, w') ∧
         cmd_run env su args n w
         = (None, (run env n tweet_interval check_interval xynae w').2).
Proof.
  intros ti ci.
  assert (∀ m d, d ≠ 0%Z → interval_seconds m d ≠ 0%Z) as Hnz.
  { intros [m|] d Hd; simpl; [|done].
    destruct (m =? 0)%Z eqn:E; [done|]. apply Z.eqb_neq in E. lia. }
  split; [by apply Hnz|]. split; [by apply Hnz|].
  pose proof (construction_outcome env su (xynae_kwargs args None) w) as H.
  unfold cmd_run. fold ti ci.
  destruct (_ || _).
  - destruct H as [e ->]. done.
  - destruct H as (xynae & w' & ->). exists xynae, w'. split; [done|].
    by destruct (run env n ti ci xynae w') as [[t x'] w''].
Qed.

End CommandLine.
